(** * godcr: the editor and progress-bar widgets

    A shallow embedding of [ui/decredmaterial/editor/editor.go] and
    [ui/themes/materialplus/progressbar.go], and the properties of the
    widgets' scrolling, caret and text operations.

    Go's [int] is a 64-bit two's-complement integer and [fixed.Int26_6] a
    32-bit one; both are embedded in [Z] with the wrap-around written out.
    A Go [string] is a list of bytes.  A Go panic (index or slice out of
    range, nil interface) is the [None] of the [option] monad.  A Go
    [float64] is an IEEE 754 binary64 number, embedded as the Standard
    Library's [spec_float] with 53 bits of precision. *)

From Stdlib Require Import ZArith List Bool Lia.
From Stdlib Require Import Strings.Byte.
From Stdlib Require Import Floats.SpecFloat.
Import ListNotations.
Local Open Scope Z_scope.

(** ** Machine integers *)

Module GoInt.

(** [wrap w z] is the signed [w]-bit integer congruent to [z]. *)
Definition wrap (w z : Z) : Z := (z + 2 ^ (w - 1)) mod 2 ^ w - 2 ^ (w - 1).

Definition max_int : Z := 2 ^ 63 - 1.

Definition add (a b : Z) : Z := wrap 64 (a + b).
Definition sub (a b : Z) : Z := wrap 64 (a - b).
Definition mul (a b : Z) : Z := wrap 64 (a * b).

(** [len] of a slice or string, as an [int]. *)
Definition len {A : Type} (l : list A) : Z := Z.of_nat (length l).

(** [l[i]]: panics when [i] is out of range. *)
Definition index {A : Type} (l : list A) (i : Z) : option A :=
  if i <? 0 then None else nth_error l (Z.to_nat i).

End GoInt.

(** ** golang.org/x/image/math/fixed: 26.6 fixed-point numbers ([int32]) *)

Module fixed.

Definition Int26_6 : Type := Z.

Definition add (x y : Int26_6) : Int26_6 := GoInt.wrap 32 (x + y).
Definition sub (x y : Int26_6) : Int26_6 := GoInt.wrap 32 (x - y).
Definition neg (x : Int26_6) : Int26_6 := GoInt.wrap 32 (- x).

(** [fixed.I(i)] is [Int26_6(i << 6)]. *)
Definition I (i : Z) : Int26_6 := GoInt.wrap 32 (Z.shiftl i 6).

(** [x.Floor()] is [int((x + 0x00) >> 6)]. *)
Definition Floor (x : Int26_6) : Z := Z.shiftr x 6.

(** [x.Ceil()] is [int((x + 0x3f) >> 6)]. *)
Definition Ceil (x : Int26_6) : Z := Z.shiftr (GoInt.wrap 32 (x + 63)) 6.

End fixed.

(** ** unicode/utf8 *)

Module utf8.

Definition RuneError : Z := 65533.
Definition UTFMax : nat := 4.

Definition bv (b : byte) : Z := Z.of_N (Byte.to_N b).

(** [RuneLen(r)]: the number of bytes of the encoding of [r], or [-1]. *)
Definition RuneLen (r : Z) : Z :=
  if r <? 0 then -1
  else if r <=? 127 then 1
  else if r <=? 2047 then 2
  else if (55296 <=? r) && (r <=? 57343) then -1
  else if r <=? 65535 then 3
  else if r <=? 1114111 then 4
  else -1.

(** [RuneStart(b)]: [b] is not a continuation byte. *)
Definition RuneStart (b : byte) : bool :=
  negb (Z.land (bv b) 192 =? 128).

Definition cont (b : byte) : bool := (128 <=? bv b) && (bv b <=? 191).

(** The length announced by a leading byte and the range accepted for
    the second byte (the tables [first] and [acceptRanges]). *)
Definition lead (p0 : Z) : option (Z * Z * Z) :=
  if (194 <=? p0) && (p0 <=? 223) then Some (2, 128, 191)
  else if p0 =? 224 then Some (3, 160, 191)
  else if p0 =? 237 then Some (3, 128, 159)
  else if (225 <=? p0) && (p0 <=? 239) then Some (3, 128, 191)
  else if p0 =? 240 then Some (4, 144, 191)
  else if (241 <=? p0) && (p0 <=? 243) then Some (4, 128, 191)
  else if p0 =? 244 then Some (4, 128, 143)
  else None.

(** [DecodeRune(p)]: the first rune of [p] and its width in bytes;
    [(RuneError, 0)] on empty input and [(RuneError, 1)] on an invalid
    encoding. *)
Definition DecodeRune (p : list byte) : Z * Z :=
  match p with
  | [] => (RuneError, 0)
  | b0 :: t =>
    let p0 := bv b0 in
    if p0 <? 128 then (p0, 1)
    else
      match lead p0, t with
      | Some (sz, lo, hi), b1 :: t1 =>
        if (lo <=? bv b1) && (bv b1 <=? hi) then
          if sz =? 2 then
            (Z.lor (Z.shiftl (Z.land p0 31) 6) (Z.land (bv b1) 63), 2)
          else
            match t1 with
            | b2 :: t2 =>
              if cont b2 then
                if sz =? 3 then
                  (Z.lor (Z.shiftl (Z.land p0 15) 12)
                     (Z.lor (Z.shiftl (Z.land (bv b1) 63) 6)
                            (Z.land (bv b2) 63)), 3)
                else
                  match t2 with
                  | b3 :: _ =>
                    if cont b3 then
                      (Z.lor (Z.shiftl (Z.land p0 7) 18)
                         (Z.lor (Z.shiftl (Z.land (bv b1) 63) 12)
                            (Z.lor (Z.shiftl (Z.land (bv b2) 63) 6)
                                   (Z.land (bv b3) 63))), 4)
                    else (RuneError, 1)
                  | [] => (RuneError, 1)
                  end
              else (RuneError, 1)
            | [] => (RuneError, 1)
            end
        else (RuneError, 1)
      | _, _ => (RuneError, 1)
      end
  end.

(** The backward scan of [DecodeLastRune]: from index [start], step down
    to the nearest rune start, not below [lim]. *)
Fixpoint scanBack (p : list byte) (lim start : nat) : nat :=
  match start with
  | O => lim
  | S s =>
    if (s <? lim)%nat then lim
    else if RuneStart (nth s p x00) then s
    else scanBack p lim s
  end.

(** [DecodeLastRune(p)]: the last rune of [p] and its width in bytes. *)
Definition DecodeLastRune (p : list byte) : Z * Z :=
  match length p with
  | O => (RuneError, 0)
  | S m =>
    let r := bv (nth m p x00) in
    if r <? 128 then (r, 1)
    else
      let start := scanBack p (S m - UTFMax) m in
      let '(r, size) := DecodeRune (skipn start p) in
      if Z.of_nat start + size =? Z.of_nat (S m) then (r, size)
      else (RuneError, 1)
  end.

End utf8.

(** ** strings *)

Module strings.

Definition newline : byte := x0a.

(** [strings.ReplaceAll(s, "\n", "")]: every newline byte removed. *)
Definition stripNewlines (s : list byte) : list byte :=
  filter (fun b => negb (Byte.eqb b newline)) s.

(** The number of newline bytes of [s]. *)
Definition countNewlines (s : list byte) : nat :=
  length (filter (fun b => Byte.eqb b newline) s).

End strings.

(** ** The panic monad *)

Definition bind {A B : Type} (o : option A) (f : A -> option B) : option B :=
  match o with
  | Some a => f a
  | None => None
  end.

Notation "x <- c ;; k" := (bind c (fun x => k))
  (at level 61, c at next level, right associativity).
Notation "' p <- c ;; k" := (bind c (fun x => let 'p := x in k))
  (at level 61, p pattern, c at next level, right associativity).

(** ** The toolkit's data (packages image, text, layout, key, gesture) *)

Module image.
Record Point : Type := mkPoint { X : Z; Y : Z }.
Record Rectangle : Type := mkRect { Min : Point; Max : Point }.
Definition ZP : Point := mkPoint 0 0.
End image.

Module text.
Inductive Alignment : Type := Start | Middle | End_.

Record Glyph : Type := mkGlyph { Rune : Z; Advance : fixed.Int26_6 }.

(** A line of laid-out text: its glyphs, its length in bytes, its width
    and its height above and below the baseline. *)
Record Line : Type := mkLine {
  Layout : list Glyph;
  Len : Z;
  Width : fixed.Int26_6;
  Ascent : fixed.Int26_6;
  Descent : fixed.Int26_6
}.

Definition Font : Type := Z.

(** A shaper: the identity of the interface value and its method
    [Layout(font, size, maxWidth, txt)]. *)
Record Shaper : Type := mkShaper {
  ident : Z;
  ShaperLayout : Font -> fixed.Int26_6 -> Z -> list byte -> list Line
}.
End text.

Module layout.
Record Constraint : Type := mkConstraint { Min : Z; Max : Z }.
Record Constraints : Type :=
  mkConstraints { Width : Constraint; Height : Constraint }.

(** [c.Constrain(v)]: [v] brought into [c.Min .. c.Max]. *)
Definition Constrain1 (c : Constraint) (v : Z) : Z :=
  if v <? Min c then Min c
  else if Max c <? v then Max c
  else v.

Definition Constrain (c : Constraints) (size : image.Point) : image.Point :=
  image.mkPoint (Constrain1 (Width c) (image.X size))
                (Constrain1 (Height c) (image.Y size)).

Record Dimensions : Type :=
  mkDimensions { Size : image.Point; Baseline : Z }.
End layout.

Module key.
Inductive Name : Type :=
| NameReturn | NameEnter | NameDeleteBackward | NameDeleteForward
| NameUpArrow | NameDownArrow | NameLeftArrow | NameRightArrow
| NamePageUp | NamePageDown | NameHome | NameEnd
| NameOther (code : Z).

(** The modifier keys held, as a bit set. *)
Definition Modifiers : Type := Z.
Definition ModCommand : Modifiers := 1.
Definition ModShift : Modifiers := 2.

(** [m.Contain(m2)] is [m&m2 == m2]. *)
Definition Contain (m m2 : Modifiers) : bool := Z.land m m2 =? m2.

Record Event : Type := mkEvent { EName : Name; EModifiers : Modifiers }.

(** The events routed to the editor's key. *)
Inductive InputEvent : Type :=
| FocusEvent (Focus : bool)
| KeyEvent (k : Event)
| EditEvent (Text : list byte)
| OtherEvent.

Definition isReturn (n : Name) : bool :=
  match n with
  | NameReturn | NameEnter => true
  | _ => false
  end.
End key.

Module gesture.
Inductive ScrollState : Type := StateIdle | StateDragging | StateFlinging.

(** [Scroll.Stop()] ends a fling. *)
Definition Stop (s : ScrollState) : ScrollState :=
  match s with
  | StateFlinging => StateIdle
  | _ => s
  end.

Inductive ClickType : Type := TypePress | TypeClick | TypeCancel.
Inductive Source : Type := Mouse | Touch.

(** A click event; the position is already rounded to pixels. *)
Record ClickEvent : Type :=
  mkClick { Type_ : ClickType; Src : Source; Position : image.Point }.
End gesture.

(** The part of a frame's [layout.Context] the editor reads: the
    constraints, the frame time, the queued events, and what the gesture
    recognisers report for the frame. *)
Record Context : Type := mkContext {
  Constraints : layout.Constraints;
  Now : Z;
  KeyEvents : list key.InputEvent;
  ClickEvents : list gesture.ClickEvent;
  ScrollDist : Z;
  ScrollStateNow : gesture.ScrollState
}.

(** ** The edit buffer *)

Module editBuffer.

(** Modelled from the spec: the type [editBuffer] and its methods are
    declared in a file of the editor package that is not among the
    sources, and the spec does not describe them.  The gap buffer is
    modelled by what [editor.go] observes of it: the bytes it holds, the
    caret (a byte offset the editor reads and writes directly) and the
    [changed] flag.  An offset outside the content is a slice out of
    range. *)
Record t : Type := mk { caret : Z; content : list byte; changed : bool }.

(** Modelled from the spec: the zero value [editBuffer{}] holds no text. *)
Definition empty : t := mk 0 [] false.

Definition with_caret (c : Z) (b : t) : t := mk c (content b) (changed b).

(** Modelled from the spec: [len()] is the number of bytes held. *)
Definition len (b : t) : Z := GoInt.len (content b).

(** Modelled from the spec: [String()] is the text held. *)
Definition String (b : t) : list byte := content b.

Definition inside (b : t) (idx : Z) : bool :=
  (0 <=? idx) && (idx <=? len b).

(** Modelled from the spec: [Changed()] reports and clears the flag. *)
Definition Changed (b : t) : bool * t :=
  (changed b, mk (caret b) (content b) false).

(** Modelled from the spec: [prepend(s)] writes [s] at the caret and
    leaves the caret before it. *)
Definition prepend (b : t) (s : list byte) : option t :=
  if inside b (caret b) then
    let n := Z.to_nat (caret b) in
    Some (mk (caret b)
             (firstn n (content b) ++ s ++ skipn n (content b))
             (changed b || (0 <? GoInt.len s)))
  else None.

(** Modelled from the spec: [runeAt(idx)] is the rune starting at [idx]
    and its width. *)
Definition runeAt (b : t) (idx : Z) : option (Z * Z) :=
  if inside b idx then
    Some (utf8.DecodeRune (skipn (Z.to_nat idx) (content b)))
  else None.

(** Modelled from the spec: [runeBefore(idx)] is the rune ending at
    [idx] and its width. *)
Definition runeBefore (b : t) (idx : Z) : option (Z * Z) :=
  if inside b idx then
    Some (utf8.DecodeLastRune (firstn (Z.to_nat idx) (content b)))
  else None.

(** The backward loop of [deleteRunes]. *)
Fixpoint deleteBack (n : nat) (b : t) : t :=
  match n with
  | O => b
  | S n' =>
    if 0 <? caret b then
      let k := Z.to_nat (caret b) in
      let '(_, s) := utf8.DecodeLastRune (firstn k (content b)) in
      deleteBack n'
        (mk (GoInt.sub (caret b) s)
            (firstn (k - Z.to_nat s) (content b) ++ skipn k (content b))
            (changed b || (0 <? s)))
    else b
  end.

(** The forward loop of [deleteRunes]. *)
Fixpoint deleteFwd (n : nat) (b : t) : t :=
  match n with
  | O => b
  | S n' =>
    if caret b <? len b then
      let k := Z.to_nat (caret b) in
      let '(_, s) := utf8.DecodeRune (skipn k (content b)) in
      deleteFwd n'
        (mk (caret b)
            (firstn k (content b) ++ skipn (k + Z.to_nat s) (content b))
            (changed b || (0 <? s)))
    else b
  end.

(** Modelled from the spec: [deleteRunes(runes)] deletes runes at the
    caret, backward for a negative count, forward for a positive one. *)
Definition deleteRunes (b : t) (runes : Z) : option t :=
  if inside b (caret b) then
    Some (if runes <? 0 then deleteBack (Z.to_nat (- runes)) b
          else deleteFwd (Z.to_nat runes) b)
  else None.

(** The two loops of [move]. *)
Fixpoint moveBack (n : nat) (b : t) : option t :=
  match n with
  | O => Some b
  | S n' =>
    if 0 <? caret b then
      '(_, s) <- runeBefore b (caret b) ;;
      moveBack n' (with_caret (GoInt.sub (caret b) s) b)
    else Some b
  end.

Fixpoint moveFwd (n : nat) (b : t) : option t :=
  match n with
  | O => Some b
  | S n' =>
    if caret b <? len b then
      '(_, s) <- runeAt b (caret b) ;;
      moveFwd n' (with_caret (GoInt.add (caret b) s) b)
    else Some b
  end.

(** Modelled from the spec: [move(runes)] steps the caret over runes,
    backward for a negative count, forward for a positive one. *)
Definition move (b : t) (runes : Z) : option t :=
  if runes <? 0 then moveBack (Z.to_nat (- runes)) b
  else moveFwd (Z.to_nat runes) b.

End editBuffer.

(** ** The editor (package editor) *)

Module editor.

(** The editor's events. *)
Inductive Event : Type :=
| ChangeEvent
| SubmitEvent (Text : list byte).

(** The fields of [Editor] that the text, caret and scrolling code reads
    or writes.  The mask reader's buffer, the event key, the click
    recogniser and the painted shapes are left out; the shaper is [None]
    for a nil interface. *)
Record Editor : Type := mkEditor {
  Alignment : text.Alignment;
  SingleLine : bool;
  Submit : bool;
  Mask : Z;
  font : text.Font;
  shaper : option text.Shaper;
  textSize : fixed.Int26_6;
  blinkStart : Z;
  focused : bool;
  rr : editBuffer.t;
  maxWidth : Z;
  viewSize : image.Point;
  valid : bool;
  lines : list text.Line;
  dims : layout.Dimensions;
  requestFocus : bool;
  caretOn : bool;
  caretScroll : bool;
  carXOff : fixed.Int26_6;
  scroller : gesture.ScrollState;
  scrollOff : image.Point;
  events : list Event;
  prevEvents : Z
}.

(** Field updates. *)
Definition set_font (v : text.Font) (e : Editor) : Editor :=
  mkEditor (Alignment e) (SingleLine e) (Submit e) (Mask e) v (shaper e)
    (textSize e) (blinkStart e) (focused e) (rr e) (maxWidth e) (viewSize e)
    (valid e) (lines e) (dims e) (requestFocus e) (caretOn e) (caretScroll
    e) (carXOff e) (scroller e) (scrollOff e) (events e) (prevEvents e).
Definition set_shaper (v : option text.Shaper) (e : Editor) : Editor :=
  mkEditor (Alignment e) (SingleLine e) (Submit e) (Mask e) (font e) v
    (textSize e) (blinkStart e) (focused e) (rr e) (maxWidth e) (viewSize e)
    (valid e) (lines e) (dims e) (requestFocus e) (caretOn e) (caretScroll
    e) (carXOff e) (scroller e) (scrollOff e) (events e) (prevEvents e).
Definition set_textSize (v : fixed.Int26_6) (e : Editor) : Editor :=
  mkEditor (Alignment e) (SingleLine e) (Submit e) (Mask e) (font e) (shaper
    e) v (blinkStart e) (focused e) (rr e) (maxWidth e) (viewSize e) (valid
    e) (lines e) (dims e) (requestFocus e) (caretOn e) (caretScroll e)
    (carXOff e) (scroller e) (scrollOff e) (events e) (prevEvents e).
Definition set_blinkStart (v : Z) (e : Editor) : Editor :=
  mkEditor (Alignment e) (SingleLine e) (Submit e) (Mask e) (font e) (shaper
    e) (textSize e) v (focused e) (rr e) (maxWidth e) (viewSize e) (valid e)
    (lines e) (dims e) (requestFocus e) (caretOn e) (caretScroll e) (carXOff
    e) (scroller e) (scrollOff e) (events e) (prevEvents e).
Definition set_focused (v : bool) (e : Editor) : Editor :=
  mkEditor (Alignment e) (SingleLine e) (Submit e) (Mask e) (font e) (shaper
    e) (textSize e) (blinkStart e) v (rr e) (maxWidth e) (viewSize e) (valid
    e) (lines e) (dims e) (requestFocus e) (caretOn e) (caretScroll e)
    (carXOff e) (scroller e) (scrollOff e) (events e) (prevEvents e).
Definition set_rr (v : editBuffer.t) (e : Editor) : Editor :=
  mkEditor (Alignment e) (SingleLine e) (Submit e) (Mask e) (font e) (shaper
    e) (textSize e) (blinkStart e) (focused e) v (maxWidth e) (viewSize e)
    (valid e) (lines e) (dims e) (requestFocus e) (caretOn e) (caretScroll
    e) (carXOff e) (scroller e) (scrollOff e) (events e) (prevEvents e).
Definition set_maxWidth (v : Z) (e : Editor) : Editor :=
  mkEditor (Alignment e) (SingleLine e) (Submit e) (Mask e) (font e) (shaper
    e) (textSize e) (blinkStart e) (focused e) (rr e) v (viewSize e) (valid
    e) (lines e) (dims e) (requestFocus e) (caretOn e) (caretScroll e)
    (carXOff e) (scroller e) (scrollOff e) (events e) (prevEvents e).
Definition set_viewSize (v : image.Point) (e : Editor) : Editor :=
  mkEditor (Alignment e) (SingleLine e) (Submit e) (Mask e) (font e) (shaper
    e) (textSize e) (blinkStart e) (focused e) (rr e) (maxWidth e) v (valid
    e) (lines e) (dims e) (requestFocus e) (caretOn e) (caretScroll e)
    (carXOff e) (scroller e) (scrollOff e) (events e) (prevEvents e).
Definition set_valid (v : bool) (e : Editor) : Editor :=
  mkEditor (Alignment e) (SingleLine e) (Submit e) (Mask e) (font e) (shaper
    e) (textSize e) (blinkStart e) (focused e) (rr e) (maxWidth e) (viewSize
    e) v (lines e) (dims e) (requestFocus e) (caretOn e) (caretScroll e)
    (carXOff e) (scroller e) (scrollOff e) (events e) (prevEvents e).
Definition set_lines (v : list text.Line) (e : Editor) : Editor :=
  mkEditor (Alignment e) (SingleLine e) (Submit e) (Mask e) (font e) (shaper
    e) (textSize e) (blinkStart e) (focused e) (rr e) (maxWidth e) (viewSize
    e) (valid e) v (dims e) (requestFocus e) (caretOn e) (caretScroll e)
    (carXOff e) (scroller e) (scrollOff e) (events e) (prevEvents e).
Definition set_dims (v : layout.Dimensions) (e : Editor) : Editor :=
  mkEditor (Alignment e) (SingleLine e) (Submit e) (Mask e) (font e) (shaper
    e) (textSize e) (blinkStart e) (focused e) (rr e) (maxWidth e) (viewSize
    e) (valid e) (lines e) v (requestFocus e) (caretOn e) (caretScroll e)
    (carXOff e) (scroller e) (scrollOff e) (events e) (prevEvents e).
Definition set_requestFocus (v : bool) (e : Editor) : Editor :=
  mkEditor (Alignment e) (SingleLine e) (Submit e) (Mask e) (font e) (shaper
    e) (textSize e) (blinkStart e) (focused e) (rr e) (maxWidth e) (viewSize
    e) (valid e) (lines e) (dims e) v (caretOn e) (caretScroll e) (carXOff
    e) (scroller e) (scrollOff e) (events e) (prevEvents e).
Definition set_caretOn (v : bool) (e : Editor) : Editor :=
  mkEditor (Alignment e) (SingleLine e) (Submit e) (Mask e) (font e) (shaper
    e) (textSize e) (blinkStart e) (focused e) (rr e) (maxWidth e) (viewSize
    e) (valid e) (lines e) (dims e) (requestFocus e) v (caretScroll e)
    (carXOff e) (scroller e) (scrollOff e) (events e) (prevEvents e).
Definition set_caretScroll (v : bool) (e : Editor) : Editor :=
  mkEditor (Alignment e) (SingleLine e) (Submit e) (Mask e) (font e) (shaper
    e) (textSize e) (blinkStart e) (focused e) (rr e) (maxWidth e) (viewSize
    e) (valid e) (lines e) (dims e) (requestFocus e) (caretOn e) v (carXOff
    e) (scroller e) (scrollOff e) (events e) (prevEvents e).
Definition set_carXOff (v : fixed.Int26_6) (e : Editor) : Editor :=
  mkEditor (Alignment e) (SingleLine e) (Submit e) (Mask e) (font e) (shaper
    e) (textSize e) (blinkStart e) (focused e) (rr e) (maxWidth e) (viewSize
    e) (valid e) (lines e) (dims e) (requestFocus e) (caretOn e)
    (caretScroll e) v (scroller e) (scrollOff e) (events e) (prevEvents e).
Definition set_scroller (v : gesture.ScrollState) (e : Editor) : Editor :=
  mkEditor (Alignment e) (SingleLine e) (Submit e) (Mask e) (font e) (shaper
    e) (textSize e) (blinkStart e) (focused e) (rr e) (maxWidth e) (viewSize
    e) (valid e) (lines e) (dims e) (requestFocus e) (caretOn e)
    (caretScroll e) (carXOff e) v (scrollOff e) (events e) (prevEvents e).
Definition set_scrollOff (v : image.Point) (e : Editor) : Editor :=
  mkEditor (Alignment e) (SingleLine e) (Submit e) (Mask e) (font e) (shaper
    e) (textSize e) (blinkStart e) (focused e) (rr e) (maxWidth e) (viewSize
    e) (valid e) (lines e) (dims e) (requestFocus e) (caretOn e)
    (caretScroll e) (carXOff e) (scroller e) v (events e) (prevEvents e).
Definition set_events (v : list Event) (e : Editor) : Editor :=
  mkEditor (Alignment e) (SingleLine e) (Submit e) (Mask e) (font e) (shaper
    e) (textSize e) (blinkStart e) (focused e) (rr e) (maxWidth e) (viewSize
    e) (valid e) (lines e) (dims e) (requestFocus e) (caretOn e)
    (caretScroll e) (carXOff e) (scroller e) (scrollOff e) v (prevEvents e).
Definition set_prevEvents (v : Z) (e : Editor) : Editor :=
  mkEditor (Alignment e) (SingleLine e) (Submit e) (Mask e) (font e) (shaper
    e) (textSize e) (blinkStart e) (focused e) (rr e) (maxWidth e) (viewSize
    e) (valid e) (lines e) (dims e) (requestFocus e) (caretOn e)
    (caretScroll e) (carXOff e) (scroller e) (scrollOff e) (events e) v.

(** Blinking of the caret, in nanoseconds. *)
Definition blinksPerSecond : Z := 1.
Definition maxBlinkDuration : Z := 10 * 1000000000.
Definition timePerBlink : Z := 1000000000 / blinksPerSecond.

Section EditorMethods.

(** Helpers of the editor package that are declared outside editor.go
    and are taken as parameters: the horizontal offset [align] of a line
    of a given width in a given viewport width, the bounding dimensions
    [linesDimens] of laid-out lines, the text as the [maskedReader] hands
    it to the shaper for a mask rune, and the width [inf] that stands for
    no wrapping. *)
Variable align : text.Alignment -> fixed.Int26_6 -> Z -> fixed.Int26_6.
Variable linesDimens : list text.Line -> layout.Dimensions.
Variable maskedReader : Z -> list byte -> list byte.
Variable inf : Z.

Definition invalidate (e : Editor) : Editor := set_valid false e.

(** A line broken by wrapping: its last glyph is not a newline. *)
Definition softBreak (l : text.Line) : bool :=
  match rev (text.Layout l) with
  | [] => false
  | g :: _ => negb (text.Rune g =? 10)
  end.

Definition layoutText (e : Editor) (s : option text.Shaper)
  : option (list text.Line * layout.Dimensions) :=
  s <- s ;;
  let reader :=
    if negb (Mask e =? 0) then maskedReader (Mask e) (editBuffer.String (rr e))
    else editBuffer.String (rr e) in
  let lines := text.ShaperLayout s (font e) (textSize e) (maxWidth e) reader in
  let dims := linesDimens lines in
  (* To avoid layout flickering while editing, assume a soft newline
     takes up all available space. *)
  let dims :=
    if existsb softBreak (removelast lines) then
      layout.mkDimensions
        (image.mkPoint (maxWidth e) (image.Y (layout.Size dims)))
        (layout.Baseline dims)
    else dims in
  Some (lines, dims).

Definition makeValid (e : Editor) : option Editor :=
  if valid e then Some e
  else
    '(ls, d) <- layoutText e (shaper e) ;;
    Some (set_valid true (set_dims d (set_lines ls e))).

(** Len is the length of the editor contents. *)
Definition Len (e : Editor) : Z := editBuffer.len (rr e).

(** Text returns the contents of the editor. *)
Definition Text (e : Editor) : list byte := editBuffer.String (rr e).

Definition prepend (e : Editor) (s : list byte) : option Editor :=
  b <- editBuffer.prepend (rr e) s ;;
  Some (invalidate (set_carXOff 0 (set_rr b e))).

Definition append (e : Editor) (s : list byte) : option Editor :=
  let s := if SingleLine e then strings.stripNewlines s else s in
  e <- prepend e s ;;
  Some (set_rr (editBuffer.with_caret
                  (GoInt.add (editBuffer.caret (rr e)) (GoInt.len s)) (rr e))
               e).

(** SetText replaces the contents of the editor. *)
Definition SetText (e : Editor) (s : list byte) : option Editor :=
  prepend (set_carXOff 0 (set_rr editBuffer.empty e)) s.

(** Insert inserts text at the caret, moving the caret forward. *)
Definition Insert (e : Editor) (s : list byte) : option Editor :=
  e <- append e s ;;
  Some (invalidate (set_caretScroll true e)).

(** Delete runes from the caret position. *)
Definition Delete (e : Editor) (runes : Z) : option Editor :=
  b <- editBuffer.deleteRunes (rr e) runes ;;
  Some (invalidate (set_carXOff 0 (set_rr b e))).

(** Move the caret: positive distance moves forward, negative distance
    moves backward. *)
Definition Move (e : Editor) (distance : Z) : option Editor :=
  b <- editBuffer.move (rr e) distance ;;
  Some (set_carXOff 0 (set_rr b e)).

(** *** Scrolling *)

Definition scrollBounds (e : Editor) : image.Rectangle :=
  if SingleLine e then
    let minX :=
      match lines e with
      | l0 :: _ =>
        let m := fixed.Floor (align (Alignment e) (text.Width l0)
                                    (image.X (viewSize e))) in
        if 0 <? m then 0 else m
      | [] => 0
      end in
    image.mkRect
      (image.mkPoint minX 0)
      (image.mkPoint
         (GoInt.sub (GoInt.add (image.X (layout.Size (dims e))) minX)
                    (image.X (viewSize e)))
         0)
  else
    image.mkRect
      image.ZP
      (image.mkPoint 0
         (GoInt.sub (image.Y (layout.Size (dims e))) (image.Y (viewSize e)))).

Definition scrollAbs (e : Editor) (x y : Z) : Editor :=
  let b := scrollBounds (set_scrollOff (image.mkPoint x y) e) in
  let x := if image.X (image.Max b) <? x then image.X (image.Max b) else x in
  let x := if x <? image.X (image.Min b) then image.X (image.Min b) else x in
  let y := if image.Y (image.Max b) <? y then image.Y (image.Max b) else y in
  let y := if y <? image.Y (image.Min b) then image.Y (image.Min b) else y in
  set_scrollOff (image.mkPoint x y) e.

Definition scrollRel (e : Editor) (dx dy : Z) : Editor :=
  scrollAbs e (GoInt.add (image.X (scrollOff e)) dx)
              (GoInt.add (image.Y (scrollOff e)) dy).

(** *** The caret *)

(** The inner loop of [layoutCaret]: walk the glyphs of the caret's line
    until the byte index [idx] meets the caret. *)
Fixpoint caretGlyphs (caret : Z) (gs : list text.Glyph)
         (idx carCol : Z) (x : fixed.Int26_6) : Z * fixed.Int26_6 :=
  match gs with
  | [] => (carCol, x)
  | g :: gs' =>
    if idx =? caret then (carCol, x)
    else caretGlyphs caret gs'
           (GoInt.add idx (utf8.RuneLen (text.Rune g)))
           (GoInt.add carCol 1)
           (fixed.add x (text.Advance g))
  end.

(** The outer loop of [layoutCaret] over the lines from [carLine] on. *)
Fixpoint caretLines (caret : Z) (ls : list text.Line)
         (carLine idx : Z) (prevDesc : fixed.Int26_6) (y : Z)
  : Z * Z * fixed.Int26_6 * Z :=
  match ls with
  | [] => (carLine, 0, 0, y)
  | l :: rest =>
    let y := GoInt.add y (fixed.Ceil (fixed.add prevDesc (text.Ascent l))) in
    let last := match rest with [] => true | _ => false end in
    if last || (caret <? GoInt.add idx (GoInt.len (text.Layout l))) then
      let '(carCol, x) := caretGlyphs caret (text.Layout l) idx 0 0 in
      (carLine, carCol, x, y)
    else
      caretLines caret rest (GoInt.add carLine 1)
                 (GoInt.add idx (text.Len l)) (text.Descent l) y
  end.

Definition layoutCaret (e : Editor) : option (Z * Z * fixed.Int26_6 * Z) :=
  let '(carLine, carCol, x, y) :=
    caretLines (editBuffer.caret (rr e)) (lines e) 0 0 0 0 in
  l <- GoInt.index (lines e) carLine ;;
  Some (carLine, carCol,
        fixed.add x (align (Alignment e) (text.Width l) (image.X (viewSize e))),
        y).

(** CaretPos returns the line & column numbers of the caret. *)
Definition CaretPos (e : Editor) : option (Z * Z) :=
  '(line, col, _, _) <- layoutCaret e ;;
  Some (line, col).

(** CaretCoords returns the x & y coordinates of the caret, relative to
    the editor itself. *)
Definition CaretCoords (e : Editor) : option (fixed.Int26_6 * Z) :=
  '(_, _, x, y) <- layoutCaret e ;;
  Some (x, y).

(** *** Moving the caret between lines *)

(** [n] times: step the caret back over the rune before it. *)
Fixpoint backRunes (n : nat) (b : editBuffer.t) : option editBuffer.t :=
  match n with
  | O => Some b
  | S n' =>
    '(_, s) <- editBuffer.runeBefore b (editBuffer.caret b) ;;
    backRunes n' (editBuffer.with_caret (GoInt.sub (editBuffer.caret b) s) b)
  end.

(** The lines with indices [from .. to - 1]. *)
Definition linesBetween (ls : list text.Line) (from to : Z) : list text.Line :=
  firstn (Z.to_nat (to - from)) (skipn (Z.to_nat from) ls).

(** The last loop of [moveToLine]: advance over the glyphs while the
    next position is strictly closer to [carX]. *)
Fixpoint closestRune (b : editBuffer.t) (carX carX2 : fixed.Int26_6)
         (gs : list text.Glyph) : option (editBuffer.t * fixed.Int26_6) :=
  match gs with
  | [] => Some (b, carX2)
  | g :: gs' =>
    if carX <=? carX2 then Some (b, carX2)
    else if fixed.sub carX carX2
            <=? fixed.sub (fixed.add carX2 (text.Advance g)) carX
    then Some (b, carX2)
    else
      '(_, s) <- editBuffer.runeAt b (editBuffer.caret b) ;;
      closestRune (editBuffer.with_caret (GoInt.add (editBuffer.caret b) s) b)
                  carX (fixed.add carX2 (text.Advance g)) gs'
  end.

(** The target line index of [moveToLine], brought into the lines. *)
Definition clampLine (e : Editor) (carLine2 : Z) : Z :=
  let carLine2 := if carLine2 <? 0 then 0 else carLine2 in
  if GoInt.len (lines e) <=? carLine2 then GoInt.sub (GoInt.len (lines e)) 1
  else carLine2.

(** Only move past the end of the last line. *)
Definition lineEnd (e : Editor) (carLine : Z) : Z :=
  if carLine <? GoInt.sub (GoInt.len (lines e)) 1 then 1 else 0.

Definition moveToLine (e : Editor) (carX : fixed.Int26_6) (carLine2 : Z)
  : option (Editor * fixed.Int26_6) :=
  '(carLine, carCol, _, _) <- layoutCaret e ;;
  let carLine2 := clampLine e carLine2 in
  (* Move to start of line. *)
  b <- backRunes (Z.to_nat carCol) (rr e) ;;
  (* Move to start of line2. *)
  let caret :=
    if carLine2 =? carLine then editBuffer.caret b
    else if carLine <? carLine2 then
      fold_left (fun c l => GoInt.add c (text.Len l))
                (linesBetween (lines e) carLine carLine2) (editBuffer.caret b)
    else
      fold_left (fun c l => GoInt.sub c (text.Len l))
                (rev (linesBetween (lines e) carLine2 carLine))
                (editBuffer.caret b) in
  let b := editBuffer.with_caret caret b in
  l2 <- GoInt.index (lines e) carLine2 ;;
  let carX2 := align (Alignment e) (text.Width l2) (image.X (viewSize e)) in
  let n := GoInt.sub (GoInt.len (text.Layout l2)) (lineEnd e carLine2) in
  (* Move to rune closest to previous horizontal position. *)
  '(b, carX2) <- closestRune b carX carX2
                   (firstn (Z.to_nat n) (text.Layout l2)) ;;
  Some (set_rr b e, fixed.sub carX carX2).

(** The loop of [moveCoord]: the index of the first line whose bottom
    edge reaches [target], or the number of lines. *)
Fixpoint coordLine (target : Z) (ls : list text.Line)
         (prevDesc : fixed.Int26_6) (carLine y : Z) : Z :=
  match ls with
  | [] => carLine
  | l :: rest =>
    let y := GoInt.add y (fixed.Ceil (fixed.add prevDesc (text.Ascent l))) in
    if target <=? GoInt.add y (fixed.Ceil (text.Descent l)) then carLine
    else coordLine target rest (text.Descent l) (GoInt.add carLine 1) y
  end.

Definition moveCoord (e : Editor) (pos : image.Point) : option Editor :=
  let carLine :=
    coordLine (GoInt.add (image.Y pos) (image.Y (scrollOff e)))
              (lines e) 0 0 0 in
  let x := fixed.I (GoInt.add (image.X pos) (image.X (scrollOff e))) in
  '(e, _) <- moveToLine e x carLine ;;
  Some e.

(** The loop of [movePages] over the lines after the first. *)
Fixpoint pageLine (y : Z) (ls : list text.Line)
         (prevDesc : fixed.Int26_6) (carLine2 y2 : Z) : Z :=
  match ls with
  | [] => carLine2
  | l :: rest =>
    if y <=? y2 then carLine2
    else
      let h := fixed.Ceil (fixed.add prevDesc (text.Ascent l)) in
      if GoInt.sub y y2 <=? GoInt.sub (GoInt.add y2 h) y then carLine2
      else pageLine y rest (text.Descent l) (GoInt.add carLine2 1)
                    (GoInt.add y2 h)
  end.

Definition movePages (e : Editor) (pages : Z) : option Editor :=
  '(_, _, carX, carY) <- layoutCaret e ;;
  let y := GoInt.add carY (GoInt.mul pages (image.Y (viewSize e))) in
  l0 <- GoInt.index (lines e) 0 ;;
  let carLine2 :=
    pageLine y (tl (lines e)) 0 0 (fixed.Ceil (text.Ascent l0)) in
  '(e', off) <- moveToLine e (fixed.add carX (carXOff e)) carLine2 ;;
  Some (set_carXOff off e').

(** The loop of [moveStart]: for [i] from [n - 1] down to [0]. *)
Fixpoint startRunes (n : nat) (layout : list text.Glyph)
         (b : editBuffer.t) (x : fixed.Int26_6)
  : option (editBuffer.t * fixed.Int26_6) :=
  match n with
  | O => Some (b, x)
  | S i =>
    '(_, s) <- editBuffer.runeBefore b (editBuffer.caret b) ;;
    g <- nth_error layout i ;;
    startRunes i layout
      (editBuffer.with_caret (GoInt.sub (editBuffer.caret b) s) b)
      (fixed.sub x (text.Advance g))
  end.

Definition moveStart (e : Editor) : option Editor :=
  '(carLine, carCol, x, _) <- layoutCaret e ;;
  l <- GoInt.index (lines e) carLine ;;
  '(b, x) <- startRunes (Z.to_nat carCol) (text.Layout l) (rr e) x ;;
  Some (set_carXOff (fixed.neg x) (set_rr b e)).

(** The loop of [moveEnd] over the glyphs from the caret's column on. *)
Fixpoint endRunes (gs : list text.Glyph) (b : editBuffer.t)
         (x : fixed.Int26_6) : option (editBuffer.t * fixed.Int26_6) :=
  match gs with
  | [] => Some (b, x)
  | g :: gs' =>
    '(_, s) <- editBuffer.runeAt b (editBuffer.caret b) ;;
    endRunes gs'
      (editBuffer.with_caret (GoInt.add (editBuffer.caret b) s) b)
      (fixed.add x (text.Advance g))
  end.

Definition moveEnd (e : Editor) : option Editor :=
  '(carLine, carCol, x, _) <- layoutCaret e ;;
  l <- GoInt.index (lines e) carLine ;;
  let n := GoInt.sub (GoInt.len (text.Layout l)) (lineEnd e carLine) in
  '(b, x) <- endRunes (skipn (Z.to_nat carCol)
                             (firstn (Z.to_nat n) (text.Layout l)))
                      (rr e) x ;;
  let a := align (Alignment e) (text.Width l) (image.X (viewSize e)) in
  Some (set_carXOff (fixed.sub (fixed.add (text.Width l) a) x) (set_rr b e)).

Definition scrollToCaret (e : Editor) : option Editor :=
  '(carLine, _, x, y) <- layoutCaret e ;;
  l <- GoInt.index (lines e) carLine ;;
  if SingleLine e then
    let d1 := GoInt.sub (fixed.Floor x) (image.X (scrollOff e)) in
    let d2 := GoInt.sub (fixed.Ceil x)
                (GoInt.add (image.X (scrollOff e)) (image.X (viewSize e))) in
    let dist := if d1 <? 0 then d1 else if 0 <? d2 then d2 else 0 in
    Some (scrollRel e dist 0)
  else
    let miny := GoInt.sub y (fixed.Ceil (text.Ascent l)) in
    let maxy := GoInt.add y (fixed.Ceil (text.Descent l)) in
    let d1 := GoInt.sub miny (image.Y (scrollOff e)) in
    let d2 := GoInt.sub maxy
                (GoInt.add (image.Y (scrollOff e)) (image.Y (viewSize e))) in
    let dist := if d1 <? 0 then d1 else if 0 <? d2 then d2 else 0 in
    Some (scrollRel e 0 dist).

(** NumLines returns the number of lines in the editor. *)
Definition NumLines (e : Editor) : option (Editor * Z) :=
  e <- makeValid e ;;
  Some (e, GoInt.len (lines e)).

(** *** Events *)

(** Focus requests the input focus for the Editor. *)
Definition Focus (e : Editor) : Editor := set_requestFocus true e.

(** Focused returns whether the editor is focused or not. *)
Definition Focused (e : Editor) : bool := focused e.

Definition newlineText : list byte := [strings.newline].

(** [command] runs an editing key; the flag tells whether the key was
    one. *)
Definition command (e : Editor) (k : key.Event) : option (Editor * bool) :=
  match key.EName k with
  | key.NameReturn | key.NameEnter =>
    e <- append e newlineText ;; Some (e, true)
  | key.NameDeleteBackward =>
    e <- Delete e (-1) ;; Some (e, true)
  | key.NameDeleteForward =>
    e <- Delete e 1 ;; Some (e, true)
  | key.NameUpArrow =>
    '(line, _, carX, _) <- layoutCaret e ;;
    '(e', off) <- moveToLine e (fixed.add carX (carXOff e)) (GoInt.sub line 1) ;;
    Some (set_carXOff off e', true)
  | key.NameDownArrow =>
    '(line, _, carX, _) <- layoutCaret e ;;
    '(e', off) <- moveToLine e (fixed.add carX (carXOff e)) (GoInt.add line 1) ;;
    Some (set_carXOff off e', true)
  | key.NameLeftArrow =>
    e <- Move e (-1) ;; Some (e, true)
  | key.NameRightArrow =>
    e <- Move e 1 ;; Some (e, true)
  | key.NamePageUp =>
    e <- movePages e (-1) ;; Some (e, true)
  | key.NamePageDown =>
    e <- movePages e 1 ;; Some (e, true)
  | key.NameHome =>
    e <- moveStart e ;; Some (e, true)
  | key.NameEnd =>
    e <- moveEnd e ;; Some (e, true)
  | key.NameOther _ => Some (e, false)
  end.

(** [if e.rr.Changed() { e.events = append(e.events, ChangeEvent{}) }] *)
Definition noteChange (e : Editor) : Editor :=
  let '(c, b) := editBuffer.Changed (rr e) in
  let e := set_rr b e in
  if c then set_events (events e ++ [ChangeEvent]) e else e.

(** The loop of [processKey] over the frame's events.  A submitting
    carriage return leaves the loop and the function at once. *)
Fixpoint keyLoop (e : Editor) (now : Z) (evs : list key.InputEvent)
  : option Editor :=
  match evs with
  | [] => Some e
  | ke :: rest =>
    let e := set_blinkStart now e in
    match ke with
    | key.FocusEvent f =>
      keyLoop (noteChange (set_focused f e)) now rest
    | key.KeyEvent k =>
      if negb (focused e) then keyLoop (noteChange e) now rest
      else if Submit e && key.isReturn (key.EName k)
              && negb (key.Contain (key.EModifiers k) key.ModShift)
      then Some (set_events (events e ++ [SubmitEvent (Text e)]) e)
      else
        '(e, ran) <- command e k ;;
        let e :=
          if ran then set_scroller (gesture.Stop (scroller e))
                        (set_caretScroll true e)
          else e in
        keyLoop (noteChange e) now rest
    | key.EditEvent s =>
      let e := set_scroller (gesture.Stop (scroller e))
                 (set_caretScroll true e) in
      e <- append e s ;;
      keyLoop (noteChange e) now rest
    | key.OtherEvent => keyLoop (noteChange e) now rest
    end
  end.

Definition processKey (e : Editor) (gtx : Context) : option Editor :=
  keyLoop (noteChange e) (Now gtx) (KeyEvents gtx).

Definition isPress (evt : gesture.ClickEvent) : bool :=
  match gesture.Type_ evt, gesture.Src evt with
  | gesture.TypePress, gesture.Mouse => true
  | gesture.TypeClick, gesture.Touch => true
  | _, _ => false
  end.

(** The loop of [processPointer] over the frame's clicks. *)
Fixpoint clickLoop (e : Editor) (now : Z) (evs : list gesture.ClickEvent)
  : option Editor :=
  match evs with
  | [] => Some e
  | evt :: rest =>
    if isPress evt then
      e <- moveCoord (set_blinkStart now e) (gesture.Position evt) ;;
      let e := set_requestFocus true e in
      let e :=
        match scroller e with
        | gesture.StateFlinging => e
        | _ => set_caretScroll true e
        end in
      clickLoop e now rest
    else clickLoop e now rest
  end.

Definition processPointer (e : Editor) (gtx : Context) : option Editor :=
  let sbounds := scrollBounds e in
  let '(smin, smax) :=
    if SingleLine e
    then (image.X (image.Min sbounds), image.X (image.Max sbounds))
    else (image.Y (image.Min sbounds), image.Y (image.Max sbounds)) in
  let sdist := ScrollDist gtx in
  let e := set_scroller (ScrollStateNow gtx) e in
  let e := if SingleLine e then scrollRel e sdist 0 else scrollRel e 0 sdist in
  let soff :=
    if SingleLine e then image.X (scrollOff e) else image.Y (scrollOff e) in
  e <- clickLoop e (Now gtx) (ClickEvents gtx) ;;
  if ((0 <? sdist) && (smax <=? soff)) || ((sdist <? 0) && (soff <=? smin))
  then Some (set_scroller (gesture.Stop (scroller e)) e)
  else Some e.

Definition processEvents (e : Editor) (gtx : Context) : option Editor :=
  match shaper e with
  | None => Some e (* Can't process events without a shaper. *)
  | Some _ =>
    e <- makeValid e ;;
    e <- processPointer e gtx ;;
    processKey e gtx
  end.

(** Events returns available editor events. *)
Definition Events (e : Editor) (gtx : Context) : option (Editor * list Event) :=
  e <- processEvents e gtx ;;
  Some (set_prevEvents 0 (set_events [] e), events e).

(** [layout] without its drawing operations: the viewport, the scroll
    adjustment, the scroll to the caret, and the blinking of the caret. *)
Definition layout (e : Editor) (gtx : Context) : option Editor :=
  e <- makeValid e ;;
  let e := set_viewSize
             (layout.Constrain (Constraints gtx) (layout.Size (dims e))) e in
  (* Adjust scrolling for new viewport and layout. *)
  let e := scrollRel e 0 0 in
  e <- (if caretScroll e then scrollToCaret (set_caretScroll false e)
        else Some e) ;;
  let e := set_caretOn false (set_requestFocus false e) in
  if focused e then
    let dt := Now gtx - blinkStart e in
    let blinking := dt <? maxBlinkDuration in
    Some (set_caretOn
            (focused e
             && (negb blinking
                 || (Z.rem dt timePerBlink <? timePerBlink / 2))) e)
  else Some e.

Definition sameShaper (a b : option text.Shaper) : bool :=
  match a, b with
  | None, None => true
  | Some s, Some s' => text.ident s =? text.ident s'
  | _, _ => false
  end.

(** Layout lays out the editor; [px] is the text size in pixels. *)
Definition Layout (e : Editor) (gtx : Context) (sh : option text.Shaper)
           (fnt : text.Font) (px : Z) : option Editor :=
  (* Flush events from before the previous frame. *)
  if (prevEvents e <? 0) || (GoInt.len (events e) <? prevEvents e) then None
  else
    let e := set_events (skipn (Z.to_nat (prevEvents e)) (events e)) e in
    let e := set_prevEvents (GoInt.len (events e)) e in
    let ts := fixed.I px in
    let e :=
      if negb (font e =? fnt) || negb (textSize e =? ts)
      then set_textSize ts (set_font fnt (invalidate e))
      else e in
    let mw :=
      if SingleLine e then inf
      else layout.Max (layout.Width (Constraints gtx)) in
    let e :=
      if negb (mw =? maxWidth e) then invalidate (set_maxWidth mw e)
      else e in
    let e :=
      if negb (sameShaper sh (shaper e)) then invalidate (set_shaper sh e)
      else e in
    e <- processEvents e gtx ;;
    layout e gtx.

End EditorMethods.

End editor.

(** ** The progress bar (package materialplus) *)

Module color.
Record RGBA : Type := mkRGBA { R : Z; G : Z; B : Z; A : Z }.
End color.

Module materialplus.

(** ProgressBar indicates the progress of a process. Height defines the
    thickness of the progressbar, BackgroundColor defines the color of the
    track, ProgressColor defines the color of the moving progress. *)
Record ProgressBar : Type := mkProgressBar {
  Height : Z;
  BackgroundColor : color.RGBA;
  ProgressColor : color.RGBA
}.

(** The drawing operations: a rounded clip rectangle of size [x] by [y]
    with corner radius [br] (each converted to [float32] when the operation
    is built), a colour and a painted rectangle. *)
Inductive Op : Type :=
| ClipRect (x y br : Z)
| ColorOp (c : color.RGBA)
| PaintOp (x y : Z).

(** The layout context of a drawing function: the constraints, the
    operations recorded so far and the dimensions last reported. *)
Record Context : Type := mkContext {
  Constraints : layout.Constraints;
  Ops : list Op;
  Dimensions : layout.Dimensions
}.

Section ProgressBarMethods.

(** [float64] and its arithmetic are kept abstract: the quotient, the
    product, the comparison [>], the conversions from and to [int] and
    the constant [100]. *)
Variable float64 : Type.
Variable fdiv fmul : float64 -> float64 -> float64.
Variable fgt : float64 -> float64 -> bool.
Variable ofInt : Z -> float64.
Variable toInt : float64 -> Z.
Variable f100 : float64.

(** Declared outside progressbar.go and taken as parameters: the
    package function [Fill], the constants of the package [values], and
    the toolkit's [layout.Stack{}.Layout] around one stacked child. *)
Variable Fill : Context -> color.RGBA -> Z -> Z -> Context.
Variable ProgressBarGray ProgressBarGreen : color.RGBA.
Variable DefaultProgressBarHeight : Z.
Variable Stacked : (Context -> Context) -> Context -> Context.

Definition WidthMax (gtx : Context) : Z :=
  layout.Max (layout.Width (Constraints gtx)).

(** borderedRectangle defines the dimensions of the rectangle, draws it
    and adds color it using the Fill method. *)
Definition borderedRectangle (gtx : Context) (c : color.RGBA) (x y : Z)
  : Context :=
  let br := Z.quot y 5 in
  let gtx := mkContext (Constraints gtx) (Ops gtx ++ [ClipRect x y br])
                       (Dimensions gtx) in
  Fill gtx c x y.

(** track lays out a rectangle to represent the level of progress yet to
    be completed. *)
Definition track (p : ProgressBar) (gtx : Context) : Context :=
  borderedRectangle gtx ProgressBarGray (WidthMax gtx) (Height p).

(** The width computed by [value], before its conversion to [int]. *)
Definition valueWidth (gtx : Context) (progress : float64) : float64 :=
  let width := fmul (fdiv progress f100) (ofInt (WidthMax gtx)) in
  if fgt width (ofInt (WidthMax gtx)) then ofInt (WidthMax gtx) else width.

(** value lays out a rectangle to represent the level of progress that
    has been completed. *)
Definition value (p : ProgressBar) (gtx : Context) (progress : float64)
  : Context :=
  borderedRectangle gtx (ProgressColor p)
                    (toInt (valueWidth gtx progress)) (Height p).

(** Layout lays out the track and level of progress on each other. *)
Definition Layout (p : ProgressBar) (gtx : Context) (progress : float64)
  : Context :=
  Stacked (fun gtx => value p (track p gtx) progress) gtx.

(** ProgressBar returns a new ProgressBar instance. *)
Definition NewProgressBar : ProgressBar :=
  mkProgressBar DefaultProgressBarHeight ProgressBarGray ProgressBarGreen.

End ProgressBarMethods.

End materialplus.

(** ** float64: IEEE 754 binary64 *)

Module float64.

Definition prec : Z := 53.
Definition emax : Z := 1024.

(** A [float64]: a zero, an infinity, NaN, or a finite number
    [(-1)^s * m * 2^e]. *)
Definition t : Type := spec_float.

(** The values of the type: the finite ones have a canonical mantissa
    and an exponent in range. *)
Definition valid (f : t) : Prop := valid_binary prec emax f = true.

(** The quotient and the product, rounded to nearest, ties to even. *)
Definition div (x y : t) : t := SFdiv prec emax x y.
Definition mul (x y : t) : t := SFmul prec emax x y.

(** [x > y] and [x >= y]: false when one of them is NaN. *)
Definition gt (x y : t) : bool := SFltb y x.
Definition ge (x y : t) : bool := SFleb y x.

(** [float64(z)] for an [int]: rounded to nearest, ties to even. *)
Definition ofInt (z : Z) : t := binary_normalize prec emax z 0 false.

(** The integer part of the positive number [m * 2^e]. *)
Definition intPart (m : positive) (e : Z) : Z :=
  if 0 <=? e then Zpos m * 2 ^ e else Z.quot (Zpos m) (2 ^ (- e)).

(** [int(f)]: the fraction is discarded.  When [f] is NaN, infinite, or
    beyond the range of [int], Go leaves the result to the
    implementation: [None]. *)
Definition trunc (f : t) : option Z :=
  match f with
  | S754_zero _ => Some 0
  | S754_finite s m e =>
    let v := intPart m e in
    let z := if s then - v else v in
    if (- 2 ^ 63 <=? z) && (z <? 2 ^ 63) then Some z else None
  | _ => None
  end.

(** [int(f)] on an implementation that answers [undef f] where Go leaves
    the result open. *)
Definition toInt (undef : t -> Z) (f : t) : Z :=
  match trunc f with
  | Some z => z
  | None => undef f
  end.

(** The constant [100] of [progress / 100]. *)
Definition c100 : t := ofInt 100.

Definition posInf : t := S754_infinity false.

(** A finite number of 53 digits that is at least 1. *)
Definition normal53 (m : positive) (e : Z) : Prop :=
  2 ^ 52 <= Zpos m < 2 ^ 53 /\ - 52 <= e.

End float64.

(** ** The progress bar on float64 *)

Module paint.

(** Modelled from the spec: [Fill] is declared in a file of package
    materialplus that is not among the sources and the spec does not
    describe it.  This instance records the colour and the painted
    rectangle and reports its size.  It instantiates the parameter [Fill]
    in examples only. *)
Definition Fill (gtx : materialplus.Context) (c : color.RGBA) (x y : Z)
  : materialplus.Context :=
  materialplus.mkContext
    (materialplus.Constraints gtx)
    (materialplus.Ops gtx ++ [materialplus.ColorOp c; materialplus.PaintOp x y])
    (layout.mkDimensions (image.mkPoint x y) 0).

(** Modelled from the spec: the toolkit's [layout.Stack{}.Layout] is not
    among the sources.  This instance runs its one stacked child in the
    context it is given.  It instantiates the parameter [Stacked] in
    examples only. *)
Definition Stacked (child : materialplus.Context -> materialplus.Context)
           (gtx : materialplus.Context) : materialplus.Context :=
  child gtx.

(** Sample colours for the track and for the progress. *)
Definition gray : color.RGBA := color.mkRGBA 230 234 237 255.
Definition green : color.RGBA := color.mkRGBA 65 190 83 255.

(** A bar ten pixels high. *)
Definition bar : materialplus.ProgressBar :=
  materialplus.mkProgressBar 10 gray green.

(** A context with no operations that leaves at most [w] pixels of
    width. *)
Definition frame (w : Z) : materialplus.Context :=
  materialplus.mkContext
    (layout.mkConstraints (layout.mkConstraint 0 w) (layout.mkConstraint 0 50))
    [] (layout.mkDimensions image.ZP 0).

(** An implementation on which [int(f)] is the least [int] where Go
    leaves it open, as on amd64. *)
Definition minInt (f : float64.t) : Z := - 2 ^ 63.

End paint.

Section ProgressBarFloat64.

Variable undef : float64.t -> Z.
Variable Fill : materialplus.Context -> color.RGBA -> Z -> Z
                -> materialplus.Context.
Variable ProgressBarGray : color.RGBA.
Variable Stacked : (materialplus.Context -> materialplus.Context)
                   -> materialplus.Context -> materialplus.Context.

(** The methods of the progress bar with [float64] as binary64. *)
Definition track64 : materialplus.ProgressBar -> materialplus.Context
                     -> materialplus.Context :=
  materialplus.track Fill ProgressBarGray.

Definition valueWidth64 : materialplus.Context -> float64.t -> float64.t :=
  materialplus.valueWidth float64.t float64.div float64.mul float64.gt
                          float64.ofInt float64.c100.

Definition value64 : materialplus.ProgressBar -> materialplus.Context
                     -> float64.t -> materialplus.Context :=
  materialplus.value float64.t float64.div float64.mul float64.gt
                     float64.ofInt (float64.toInt undef) float64.c100 Fill.

Definition Layout64 : materialplus.ProgressBar -> materialplus.Context
                      -> float64.t -> materialplus.Context :=
  materialplus.Layout float64.t float64.div float64.mul float64.gt
                      float64.ofInt (float64.toInt undef) float64.c100 Fill
                      ProgressBarGray Stacked.

End ProgressBarFloat64.

(** ** Instances of the helpers declared outside the sources *)

Module label.

(** Modelled from the spec: [align] is declared in a file of the editor
    package that is not among the sources and the spec does not describe
    it.  This instance is the text label's alignment: no offset at the
    start, the free width (floored to a pixel) at the end, half of it in
    the middle.  It instantiates the parameter [align] in examples only. *)
Definition align (a : text.Alignment) (width : fixed.Int26_6) (maxWidth : Z)
  : fixed.Int26_6 :=
  let mw := fixed.I maxWidth in
  match a with
  | text.Middle => fixed.I (fixed.Floor (Z.quot (fixed.sub mw width) 2))
  | text.End_ => fixed.I (fixed.Floor (fixed.sub mw width))
  | text.Start => 0
  end.

(** The loop of [linesDimens]: the height down to the last baseline and
    the largest width. *)
Fixpoint linesExtent (ls : list text.Line) (prevDesc width : fixed.Int26_6)
         (h : Z) : fixed.Int26_6 * Z :=
  match ls with
  | [] => (width, h)
  | l :: rest =>
    linesExtent rest (text.Descent l)
                (if width <? text.Width l then text.Width l else width)
                (GoInt.add h (fixed.Ceil (fixed.add prevDesc (text.Ascent l))))
  end.

(** Modelled from the spec: [linesDimens] is declared in a file of the
    editor package that is not among the sources and the spec does not
    describe it.  This instance is the text label's: the width of the
    widest line and the height from the top of the first line to the
    bottom of the last.  It instantiates the parameter [linesDimens] in
    examples only. *)
Definition linesDimens (ls : list text.Line) : layout.Dimensions :=
  match ls with
  | [] => layout.mkDimensions image.ZP 0
  | l0 :: _ =>
    let '(width, h) := linesExtent ls 0 0 0 in
    let h := GoInt.add h (fixed.Ceil (text.Descent (last ls l0))) in
    layout.mkDimensions (image.mkPoint (fixed.Ceil width) h)
                        (GoInt.sub h (fixed.Ceil (text.Ascent l0)))
  end.

(** Modelled from the spec: the [maskedReader] is declared in a file of
    the editor package that is not among the sources and the spec does not
    describe it.  This instance shows one mask byte for every byte of the
    text.  It instantiates the parameter [maskedReader] in examples only. *)
Definition maskedReader (mask : Z) (txt : list byte) : list byte :=
  map (fun _ => match Byte.of_N (Z.to_N mask) with
                | Some b => b
                | None => x2a
                end) txt.

(** Modelled from the spec: the constant [inf] is declared in a file of
    the editor package that is not among the sources. *)
Definition inf : Z := 1000000.

End label.

(** ** Sample editors *)

Module sample.

Import editor.

(** A glyph seven pixels wide. *)
Definition glyph (r : Z) : text.Glyph := text.mkGlyph r 448.

(** The newline glyph takes no width. *)
Definition nl : text.Glyph := text.mkGlyph 10 0.

(** A line of the given glyphs and byte length, 12 pixels above and 4
    pixels below its baseline. *)
Definition line (gs : list text.Glyph) (n : Z) : text.Line :=
  text.mkLine gs n (fold_right (fun g w => text.Advance g + w) 0 gs) 768 256.

(** A focused editor holding [txt] with the caret at byte [caret], laid
    out as [ls], with the dimensions of these lines, in a viewport
    [view]. *)
Definition editorOf (single submit : bool) (txt : list byte) (caret : Z)
           (ls : list text.Line) (view : image.Point) : Editor :=
  mkEditor text.Start single submit 0 0 None 1024 0 true
           (editBuffer.mk caret txt false) 0 view true ls
           (label.linesDimens ls) false false false 0
           gesture.StateIdle image.ZP [] 0.

(** The text "a" on one line. *)
Definition oneLine : list text.Line := [line [glyph 97] 1].

(** A multi-line editor whose content (7 by 16 pixels) is smaller than
    its viewport (100 by 50), as a frame with these minimum constraints
    leaves it. *)
Definition small : Editor :=
  editorOf false false [x61] 1 oneLine (image.mkPoint 100 50).

(** A multi-line editor whose content is taller than its viewport. *)
Definition tall : Editor :=
  editorOf false false [x61] 1 oneLine (image.mkPoint 7 10).

(** The text "\u00e9\na": U+00E9 takes two bytes. *)
Definition accentText : list byte := [xc3; xa9; x0a; x61].

Definition accentLines : list text.Line :=
  [line [glyph 233; nl] 3; line [glyph 97] 1].

(** The caret stands after "\u00e9", before the newline of the first line. *)
Definition accent : Editor :=
  editorOf false false accentText 2 accentLines (image.mkPoint 100 50).

End sample.

(** * Vocabulary of the properties *)

Import editor.

(** The claim's reading: the point lies in the rectangle. *)
Definition inRect (b : image.Rectangle) (p : image.Point) : Prop :=
  image.X (image.Min b) <= image.X p <= image.X (image.Max b)
  /\ image.Y (image.Min b) <= image.Y p <= image.Y (image.Max b).

(** What the two clamps of [scrollAbs] establish: never below the minimum,
    and not above the maximum unless the maximum is below the minimum. *)
Definition clampedTo (b : image.Rectangle) (p : image.Point) : Prop :=
  image.X (image.Min b) <= image.X p
  /\ image.Y (image.Min b) <= image.Y p
  /\ (image.X (image.Min b) <= image.X (image.Max b) ->
      image.X p <= image.X (image.Max b))
  /\ (image.Y (image.Min b) <= image.Y (image.Max b) ->
      image.Y p <= image.Y (image.Max b)).

(** The text [append] writes: stripped of newlines in single-line mode. *)
Definition appendText (e : Editor) (s : list byte) : list byte :=
  if SingleLine e then strings.stripNewlines s else s.

(** The editor [append] leaves when the caret is within the text. *)
Definition appended (e : Editor) (s : list byte) : Editor :=
  let t := appendText e s in
  let n := Z.to_nat (editBuffer.caret (rr e)) in
  set_rr (editBuffer.mk
            (GoInt.add (editBuffer.caret (rr e)) (GoInt.len t))
            (firstn n (Text e) ++ t ++ skipn n (Text e))
            (editBuffer.changed (rr e) || (0 <? GoInt.len t)))
         (set_valid false (set_carXOff 0 e)).

(** The claim's reading of "inserts a newline, producing a ChangeEvent". *)
Definition insertsNewline (e e' : Editor) : Prop :=
  let n := Z.to_nat (editBuffer.caret (rr e)) in
  Text e' = firstn n (Text e) ++ [strings.newline] ++ skipn n (Text e)
  /\ In ChangeEvent (events e').

(** The editor after a carriage return that is not a submission. *)
Definition afterReturn (now : Z) (e : Editor) : Editor :=
  let x := appended (set_blinkStart now e) newlineText in
  noteChange (set_scroller (gesture.Stop (scroller x)) (set_caretScroll true x)).

(** Coordinates far from the ends of a Go [int]. *)
Definition small (z : Z) : Prop := - 2 ^ 61 <= z <= 2 ^ 61.

Definition clamp (mn mx v : Z) : Z := Z.max mn (Z.min v mx).

(** Two editors with the same text, layout and viewport. *)
Definition sameLayout (e1 e2 : Editor) : Prop :=
  rr e1 = rr e2 /\ lines e1 = lines e2 /\ Alignment e1 = Alignment e2
  /\ viewSize e1 = viewSize e2 /\ SingleLine e1 = SingleLine e2
  /\ dims e1 = dims e2.

(** The coordinate of a point along the editor's scroll axis: horizontal
    in single-line mode, vertical otherwise. *)
Definition along (e : Editor) (p : image.Point) : Z :=
  if SingleLine e then image.X p else image.Y p.

Section Vocabulary.

Variable align : text.Alignment -> fixed.Int26_6 -> Z -> fixed.Int26_6.

(** The extent of the caret along the scroll axis, in pixels: from the
    floor to the ceiling of its [x] in single-line mode, and from
    [y - ascent] to [y + descent] of its line otherwise. *)
Definition caretSpan (e : Editor) : option (Z * Z) :=
  '(carLine, _, x, y) <- layoutCaret align e ;;
  l <- GoInt.index (lines e) carLine ;;
  Some (if SingleLine e then (fixed.Floor x, fixed.Ceil x)
        else (GoInt.sub y (fixed.Ceil (text.Ascent l)),
              GoInt.add y (fixed.Ceil (text.Descent l)))).

(** The caret, of extent [span], lies in the viewport when the scroll
    offset along the axis is [o]. *)
Definition visibleAt (e : Editor) (o : Z) (span : Z * Z) : Prop :=
  o <= fst span /\ snd span <= o + along e (viewSize e).

(** The scroll offsets the bounds allow along the axis. *)
Definition admissible (e : Editor) (o : Z) : Prop :=
  let b := scrollBounds align e in
  along e (image.Min b) <= o
  <= Z.max (along e (image.Min b)) (along e (image.Max b)).

(** After a scroll to the caret: [caretScroll] is cleared and the caret,
    which has an extent, lies in the viewport if some offset the bounds
    allow shows it, the coordinates being small. *)
Definition caretShown (e : Editor) : Prop :=
  exists span,
    caretSpan e = Some span
    /\ caretScroll e = false
    /\ (small (along e (image.Min (scrollBounds align e))) ->
        small (along e (image.Max (scrollBounds align e))) ->
        small (along e (viewSize e)) ->
        small (fst span) -> small (snd span) ->
        (exists o, admissible e o /\ visibleAt e o span) ->
        visibleAt e (along e (scrollOff e)) span).

End Vocabulary.

(** The distance [scrollToCaret] scrolls by. *)
Definition caretDist (e : Editor) (span : Z * Z) : Z :=
  let off := along e (scrollOff e) in
  let d1 := GoInt.sub (fst span) off in
  let d2 := GoInt.sub (snd span) (GoInt.add off (along e (viewSize e))) in
  if d1 <? 0 then d1 else if 0 <? d2 then d2 else 0.

(** The viewport [layout] gives the editor. *)
Definition viewOf (e : Editor) (gtx : Context) : Editor :=
  set_viewSize (layout.Constrain (Constraints gtx) (layout.Size (dims e))) e.

(** The byte offset at which line [k] starts. *)
Fixpoint lineStart (ls : list text.Line) (k : nat) {struct k} : Z :=
  match k, ls with
  | S k', l :: rest => text.Len l + lineStart rest k'
  | _, _ => 0
  end.

(** The number of glyphs of a line that begin before the caret, the
    line's first glyph beginning at byte [idx]. *)
Fixpoint glyphsBefore (caret idx : Z) (gs : list text.Glyph) : Z :=
  match gs with
  | [] => 0
  | g :: gs' =>
    (if idx <? caret then 1 else 0)
    + glyphsBefore caret (idx + utf8.RuneLen (text.Rune g)) gs'
  end.

(** A layout in which every rune takes one byte: each glyph is one byte
    long and the length of a line is the number of its glyphs. *)
Definition singleByteLine (l : text.Line) : Prop :=
  text.Len l = GoInt.len (text.Layout l)
  /\ Forall (fun g => utf8.RuneLen (text.Rune g) = 1) (text.Layout l).

(** The sum of the advances of the first [k] glyphs. *)
Fixpoint advanceSum (gs : list text.Glyph) (k : nat) {struct k} : Z :=
  match k, gs with
  | S k', g :: rest => text.Advance g + advanceSum rest k'
  | _, _ => 0
  end.

(** [n] times: step the caret forward over the rune at it. *)
Fixpoint forwardRunes (n : nat) (b : editBuffer.t) : option editBuffer.t :=
  match n with
  | O => Some b
  | S n' =>
    '(_, s) <- editBuffer.runeAt b (editBuffer.caret b) ;;
    forwardRunes n' (editBuffer.with_caret (GoInt.add (editBuffer.caret b) s) b)
  end.

(** The bottom edge of line [k], as the loop of [moveCoord] computes it. *)
Fixpoint bottomEdge (ls : list text.Line) (prevDesc : fixed.Int26_6) (y : Z)
         (k : nat) {struct ls} : Z :=
  match ls with
  | [] => y
  | l :: rest =>
    let y := GoInt.add y (fixed.Ceil (fixed.add prevDesc (text.Ascent l))) in
    match k with
    | O => GoInt.add y (fixed.Ceil (text.Descent l))
    | S k' => bottomEdge rest (text.Descent l) y k'
    end
  end.

(** A text of one-byte runes only. *)
Definition ascii (s : list byte) : Prop := Forall (fun b => utf8.bv b < 128) s.

(** The number of bytes of some lines. *)
Fixpoint sumLen (ls : list text.Line) : Z :=
  match ls with
  | [] => 0
  | l :: rest => text.Len l + sumLen rest
  end.

(** An editor laid out with one byte and one glyph to every rune: the
    text is one-byte runes, the lines partition it, the caret is within
    it, no glyph has a negative advance, and the sizes are far from the
    ends of a Go [int]. *)
Definition oneByteLayout (e : Editor) : Prop :=
  ascii (editBuffer.content (rr e))
  /\ Forall singleByteLine (lines e)
  /\ Forall (fun l => Forall (fun g => 0 <= text.Advance g) (text.Layout l))
            (lines e)
  /\ lines e <> []
  /\ lineStart (lines e) (length (lines e)) = Len e
  /\ 0 <= editBuffer.caret (rr e) <= Len e
  /\ Len e <= 2 ^ 61
  /\ GoInt.len (lines e) <= 2 ^ 61.

(** ** Sample frames and editors *)

(** A frame that leaves at most 7 by 10 pixels. *)
Definition frame7by10 : Context :=
  mkContext (layout.mkConstraints (layout.mkConstraint 0 7)
                                  (layout.mkConstraint 0 10))
            0 [] [] 0 gesture.StateIdle.

(** A frame whose constraints ask for 100 by 50 pixels at least. *)
Definition minimum50 : Context :=
  mkContext (layout.mkConstraints (layout.mkConstraint 100 100)
                                  (layout.mkConstraint 50 50))
            0 [] [] 0 gesture.StateIdle.

(** A frame holding one Return key event without modifiers. *)
Definition returnFrame : Context :=
  mkContext (layout.mkConstraints (layout.mkConstraint 0 100)
                                  (layout.mkConstraint 0 50))
            0 [key.KeyEvent (key.mkEvent key.NameReturn 0)] [] 0
            gesture.StateIdle.

(** The focused multi-line editor "a" with [Submit] set. *)
Definition submitA : Editor :=
  sample.editorOf false true [x61] 1 sample.oneLine (image.mkPoint 7 10).

(** The focused single-line editor "ab" with [Submit] not set. *)
Definition singleLineAB : Editor :=
  sample.editorOf true false [x61; x62] 1
    [sample.line [sample.glyph 97; sample.glyph 98] 2]
    (image.mkPoint 100 16).

(** A single-line editor holding "a", a glyph half a pixel wide, with the
    caret after it and [caretScroll] set. *)
Definition halfPixel : Editor :=
  set_caretScroll true
    (sample.editorOf true false [x61] 1
       [text.mkLine [text.mkGlyph 97 32] 1 32 768 256]
       (image.mkPoint 1 16)).

(** A frame whose constraints leave no width. *)
Definition noWidth : Context :=
  mkContext (layout.mkConstraints (layout.mkConstraint 0 0)
                                  (layout.mkConstraint 0 16))
            0 [] [] 0 gesture.StateIdle.

(** The multi-line editor holding "a\nb" with the caret at the end, on
    the second line, and [caretScroll] set. *)
Definition twoLines : Editor :=
  set_caretScroll true
    (sample.editorOf false false [x61; x0a; x62] 3
       [sample.line [sample.glyph 97; sample.nl] 2;
        sample.line [sample.glyph 98] 1]
       (image.mkPoint 7 32)).

(** A frame that leaves 20 pixels of height. *)
Definition height20 : Context :=
  mkContext (layout.mkConstraints (layout.mkConstraint 0 7)
                                  (layout.mkConstraint 0 20))
            0 [] [] 0 gesture.StateIdle.

(** The editor holding "\u00e9\na" with the caret at the end. *)
Definition accentEnd : Editor :=
  sample.editorOf false false sample.accentText 4 sample.accentLines
                  (image.mkPoint 100 50).

(** ** Vocabulary of the further properties *)

(** The settings that processing a frame's events leaves as they are. *)
Definition sameSettings (e e' : Editor) : Prop :=
  Alignment e' = Alignment e /\ SingleLine e' = SingleLine e
  /\ Submit e' = Submit e /\ Mask e' = Mask e /\ font e' = font e
  /\ shaper e' = shaper e /\ textSize e' = textSize e
  /\ maxWidth e' = maxWidth e /\ prevEvents e' = prevEvents e.

(** The editor scrolls along one axis only: sideways in single-line
    mode, up and down otherwise. *)
Definition scrollsOnAxis (e : Editor) : Prop :=
  (SingleLine e = false -> image.X (scrollOff e) = 0)
  /\ (SingleLine e = true -> image.Y (scrollOff e) = 0).

(** The baseline of line [k], as the loop of [layoutCaret] computes it:
    each line adds the ceiling of the descent of the line above and of
    its own ascent. *)
Fixpoint baseline (ls : list text.Line) (prevDesc : fixed.Int26_6) (y : Z)
         (k : nat) {struct ls} : Z :=
  match ls with
  | [] => y
  | l :: rest =>
    let y := GoInt.add y (fixed.Ceil (fixed.add prevDesc (text.Ascent l))) in
    match k with
    | O => y
    | S k' => baseline rest (text.Descent l) y k'
    end
  end.

(** A line whose glyph positions fit the fixed-point type: no advance is
    negative and their sum is below [2^31]. *)
Definition fitsFixed (l : text.Line) : Prop :=
  Forall (fun g => 0 <= text.Advance g) (text.Layout l)
  /\ advanceSum (text.Layout l) (length (text.Layout l)) < 2 ^ 31
  /\ GoInt.len (text.Layout l) <= 2 ^ 61.

(** The line that holds byte [caret] of the text, the lines [ls]
    starting at byte [idx]: the first line that ends behind the caret,
    and the last line for a caret at the end of the text. *)
Fixpoint lineOfByte (ls : list text.Line) (caret idx : Z) : nat :=
  match ls with
  | [] => 0%nat
  | l :: rest =>
    match rest with
    | [] => 0%nat
    | _ :: _ =>
      if caret <? idx + text.Len l then 0%nat
      else S (lineOfByte rest caret (idx + text.Len l))
    end
  end.

(** A line whose ascent and descent are not negative and are below
    [2^24], that is [2^18] pixels. *)
Definition metricsFit (l : text.Line) : Prop :=
  0 <= text.Ascent l <= 2 ^ 24 /\ 0 <= text.Descent l <= 2 ^ 24.

Section CaretByBytes.

Variable align : text.Alignment -> fixed.Int26_6 -> Z -> fixed.Int26_6.

(** The extent of the caret along the scroll axis, found from the bytes
    of the text and not by [layoutCaret]: the caret is on the line that
    holds its byte offset, behind the glyphs that begin before it.  In
    single-line mode the extent is from the floor to the ceiling of the
    caret's [x], otherwise from the top to the bottom of its line. *)
Definition caretExtent (e : Editor) : Z * Z :=
  let c := editBuffer.caret (rr e) in
  let k := lineOfByte (lines e) c 0 in
  match nth_error (lines e) k with
  | None => (0, 0)
  | Some l =>
    if SingleLine e then
      let j := Z.to_nat (glyphsBefore c (lineStart (lines e) k)
                                      (text.Layout l)) in
      let x := fixed.add (advanceSum (text.Layout l) j)
                         (align (Alignment e) (text.Width l)
                                (image.X (viewSize e))) in
      (fixed.Floor x, fixed.Ceil x)
    else
      let y := baseline (lines e) 0 0 k in
      (GoInt.sub y (fixed.Ceil (text.Ascent l)),
       GoInt.add y (fixed.Ceil (text.Descent l)))
  end.

(** The sizes at which a scroll to the caret is free of wrap-around: the
    scroll bounds, the viewport, the text and the caret's extent are
    below [2^61] in magnitude; and, in multi-line mode, the caret's line
    lies within the height of the text. *)
Definition caretInRange (e : Editor) : Prop :=
  let span := caretExtent e in
  let b := scrollBounds align e in
  small (along e (image.Min b)) /\ small (along e (image.Max b))
  /\ small (along e (viewSize e))
  /\ small (along e (layout.Size (dims e)))
  /\ small (fst span) /\ small (snd span)
  /\ (SingleLine e = false ->
      0 <= fst span /\ snd span <= image.Y (layout.Size (dims e))).

(** The caret is in view.  In multi-line mode: if the caret's line is no
    higher than the viewport, it lies within
    [scrollOff.Y .. scrollOff.Y + viewSize.Y].  In single-line mode: if
    some offset that the scroll bounds allow shows the caret's pixel
    extent, it lies within [scrollOff.X .. scrollOff.X + viewSize.X]. *)
Definition caretInView (e : Editor) : Prop :=
  let span := caretExtent e in
  (SingleLine e = false ->
   snd span - fst span <= image.Y (viewSize e) ->
   image.Y (scrollOff e) <= fst span
   /\ snd span <= image.Y (scrollOff e) + image.Y (viewSize e))
  /\ (SingleLine e = true ->
      (exists o, admissible align e o
                 /\ o <= fst span /\ snd span <= o + image.X (viewSize e)) ->
      image.X (scrollOff e) <= fst span
      /\ snd span <= image.X (scrollOff e) + image.X (viewSize e)).

End CaretByBytes.

(** The editor holding "a\nb" with the caret at the start. *)
Definition twoLinesHome : Editor :=
  sample.editorOf false false [x61; x0a; x62] 0
    [sample.line [sample.glyph 97; sample.nl] 2;
     sample.line [sample.glyph 98] 1]
    (image.mkPoint 7 32).

(** [e'] shows the text of [e] as [e] has it laid out, or is marked for a
    new layout. *)
Definition keepsLayout (e e' : Editor) : Prop :=
  valid e' = false
  \/ (valid e' = valid e /\ lines e' = lines e /\ dims e' = dims e
      /\ editBuffer.content (rr e') = editBuffer.content (rr e)).

(** The events of [e'] are those of [e] followed by new ones. *)
Definition queuedAfter (e e' : Editor) : Prop :=
  exists new, events e' = events e ++ new.

(** What processing events does to an editor: the settings stay, the
    layout stays or is marked stale, and events are only added. *)
Definition processed (e e' : Editor) : Prop :=
  sameSettings e e' /\ keepsLayout e e' /\ queuedAfter e e'.

Section LayoutCache.

Variable linesDimens : list text.Line -> layout.Dimensions.
Variable maskedReader : Z -> list byte -> list byte.

(** The laid-out lines are those of the text: an editor marked valid
    holds what [layoutText] answers for its text and settings. *)
Definition upToDate (e : Editor) : Prop :=
  valid e = true ->
  layoutText linesDimens maskedReader e (shaper e) = Some (lines e, dims e).

End LayoutCache.

(** A key press or release, as against a focus or an edit event. *)
Definition isKeyEvent (ke : key.InputEvent) : bool :=
  match ke with
  | key.KeyEvent _ => true
  | _ => false
  end.

(** Whether [layout] shows the caret: only in a focused editor, all the
    time once ten seconds have passed since the last event, and before
    that in the first half of every second. *)
Definition blinkOf (e : Editor) (gtx : Context) : bool :=
  focused e
  && (negb (Now gtx - blinkStart e <? maxBlinkDuration)
      || (Z.rem (Now gtx - blinkStart e) timePerBlink <? timePerBlink / 2)).

(** The steps [Layout] takes before it processes the frame's events:
    the events from before the previous frame are flushed, and the font
    and text size, the width and the shaper of the call replace the
    editor's, marking the layout stale, where they differ. *)
Definition flushed (e : Editor) : Editor :=
  let e := set_events (skipn (Z.to_nat (prevEvents e)) (events e)) e in
  set_prevEvents (GoInt.len (events e)) e.

Definition withFont (fnt : text.Font) (ts : fixed.Int26_6) (e : Editor)
  : Editor :=
  if negb (font e =? fnt) || negb (textSize e =? ts)
  then set_textSize ts (set_font fnt (invalidate e))
  else e.

Definition withMaxWidth (mw : Z) (e : Editor) : Editor :=
  if negb (mw =? maxWidth e) then invalidate (set_maxWidth mw e) else e.

Definition withShaper (sh : option text.Shaper) (e : Editor) : Editor :=
  if negb (sameShaper sh (shaper e)) then invalidate (set_shaper sh e) else e.

(** [e'] is [e] with other layout settings: what does not bear on the
    layout stays, and the layout is marked stale unless its settings stay
    too. *)
Definition resettled (e e' : Editor) : Prop :=
  Alignment e' = Alignment e /\ SingleLine e' = SingleLine e
  /\ Submit e' = Submit e /\ Mask e' = Mask e /\ rr e' = rr e
  /\ events e' = events e /\ prevEvents e' = prevEvents e
  /\ (valid e' = false
      \/ (valid e' = valid e /\ lines e' = lines e /\ dims e' = dims e
          /\ font e' = font e /\ textSize e' = textSize e
          /\ maxWidth e' = maxWidth e /\ shaper e' = shaper e)).

(** The lines of a text for the examples' shaper: every byte is a glyph
    seven pixels wide, a line ends behind each newline, and no line is
    wrapped. *)
Fixpoint monoLines (txt : list byte) (cur : list text.Glyph)
  : list text.Line :=
  match txt with
  | [] => [sample.line (rev cur) (GoInt.len cur)]
  | b :: rest =>
    if Byte.eqb b strings.newline
    then sample.line (rev (sample.nl :: cur)) (GoInt.len cur + 1)
         :: monoLines rest []
    else monoLines rest (sample.glyph (utf8.bv b) :: cur)
  end.

(** A shaper for the examples. *)
Definition monoShaper : text.Shaper :=
  text.mkShaper 1 (fun _ _ _ txt => monoLines txt []).

(** The zero value of [Editor], as a program declares it. *)
Definition zeroEditor : Editor :=
  mkEditor text.Start false false 0 0 None 0 0 false editBuffer.empty 0
           image.ZP false [] (layout.mkDimensions image.ZP 0) false false
           false 0 gesture.StateIdle image.ZP [] 0.

(** A frame of at most 100 by 50 pixels at time [now] with the given key
    and click events. *)
Definition frameOf (now : Z) (keys : list key.InputEvent)
           (clicks : list gesture.ClickEvent) : Context :=
  mkContext (layout.mkConstraints (layout.mkConstraint 0 100)
                                  (layout.mkConstraint 0 50))
            now keys clicks 0 gesture.StateIdle.

(** A frame in which the editor gets the focus and the letter "a". *)
Definition frameEdit : Context :=
  frameOf 5 [key.FocusEvent true; key.EditEvent [x61]] [].

(** A frame without events. *)
Definition frameIdle : Context := frameOf 6 [] [].

(** The zero editor with the examples' shaper. *)
Definition shapedEditor : Editor := set_shaper (Some monoShaper) zeroEditor.

(** A frame with a press of the Delete key. *)
Definition frameDelete : Context :=
  frameOf 7 [key.KeyEvent (key.mkEvent key.NameDeleteBackward 0)] [].

(** A frame with a mouse press at the top left corner. *)
Definition framePress : Context :=
  frameOf 8 []
    [gesture.mkClick gesture.TypePress gesture.Mouse (image.mkPoint 0 0)].

(** * Properties *)

(** ** Machine arithmetic *)

Lemma wrap_small (w z : Z) :
  0 < w -> - 2 ^ (w - 1) <= z < 2 ^ (w - 1) -> GoInt.wrap w z = z.
Proof.
  intros Hw Hz. unfold GoInt.wrap.
  assert (E : 2 ^ w = 2 * 2 ^ (w - 1)).
  { replace w with (Z.succ (w - 1)) at 1 by lia. apply Z.pow_succ_r. lia. }
  rewrite Z.mod_small; lia.
Qed.

Lemma wrap_range (w z : Z) :
  0 < w -> - 2 ^ (w - 1) <= GoInt.wrap w z < 2 ^ (w - 1).
Proof.
  intros Hw. unfold GoInt.wrap.
  assert (E : 2 ^ w = 2 * 2 ^ (w - 1)).
  { replace w with (Z.succ (w - 1)) at 1 by lia. apply Z.pow_succ_r. lia. }
  assert (P : 0 < 2 ^ (w - 1)) by (apply Z.pow_pos_nonneg; lia).
  pose proof (Z.mod_pos_bound (z + 2 ^ (w - 1)) (2 ^ w)). lia.
Qed.

(** ** Scrolling stays within the scroll bounds (C1) *)

Section Scrolling.

Variable align : text.Alignment -> fixed.Int26_6 -> Z -> fixed.Int26_6.
Variable linesDimens : list text.Line -> layout.Dimensions.
Variable maskedReader : Z -> list byte -> list byte.
Variable inf : Z.

Lemma scrollBounds_set_scrollOff (e : Editor) (p : image.Point) :
  scrollBounds align (set_scrollOff p e) = scrollBounds align e.
Proof. reflexivity. Qed.

Lemma scrollAbs_offset (e : Editor) (x y : Z) :
  let b := scrollBounds align e in
  scrollOff (scrollAbs align e x y)
  = image.mkPoint
      (Z.max (image.X (image.Min b)) (Z.min x (image.X (image.Max b))))
      (Z.max (image.Y (image.Min b)) (Z.min y (image.Y (image.Max b)))).
Proof.
  intros b. unfold scrollAbs. rewrite scrollBounds_set_scrollOff. fold b.
  cbn [scrollOff set_scrollOff]. clearbody b. f_equal.
  - destruct (Z.ltb_spec (image.X (image.Max b)) x);
      [ destruct (Z.ltb_spec (image.X (image.Max b)) (image.X (image.Min b)))
      | destruct (Z.ltb_spec x (image.X (image.Min b))) ]; lia.
  - destruct (Z.ltb_spec (image.Y (image.Max b)) y);
      [ destruct (Z.ltb_spec (image.Y (image.Max b)) (image.Y (image.Min b)))
      | destruct (Z.ltb_spec y (image.Y (image.Min b))) ]; lia.
Qed.

Lemma scrollBounds_scrollAbs (e : Editor) (x y : Z) :
  scrollBounds align (scrollAbs align e x y) = scrollBounds align e.
Proof. reflexivity. Qed.

Lemma scrollAbs_clamped (e : Editor) (x y : Z) :
  clampedTo (scrollBounds align (scrollAbs align e x y))
            (scrollOff (scrollAbs align e x y)).
Proof.
  rewrite scrollBounds_scrollAbs, scrollAbs_offset.
  generalize (scrollBounds align e). intros b.
  unfold clampedTo. cbn [image.X image.Y]. lia.
Qed.

Lemma scrollToCaret_is_scrollRel (e e' : Editor) :
  scrollToCaret align e = Some e' ->
  exists dx dy, e' = scrollRel align e dx dy.
Proof.
  unfold scrollToCaret, bind. intros H.
  destruct (layoutCaret align e) as [[[[carLine carCol] x] y]|]; [|discriminate].
  destruct (GoInt.index (lines e) carLine) as [l|]; [|discriminate].
  destruct (SingleLine e); inversion H; eauto.
Qed.

Lemma scroll_frame (e : Editor) (a b c : bool) :
  scrollBounds align (set_caretOn a (set_requestFocus b e)) = scrollBounds align e
  /\ scrollOff (set_caretOn a (set_requestFocus b e)) = scrollOff e
  /\ scrollBounds align (set_caretOn c (set_caretOn a (set_requestFocus b e)))
     = scrollBounds align e
  /\ scrollOff (set_caretOn c (set_caretOn a (set_requestFocus b e))) = scrollOff e.
Proof. repeat split. Qed.

Lemma layout_ends_with_scrollRel (e e' : Editor) (gtx : Context) :
  layout align linesDimens maskedReader e gtx = Some e' ->
  exists e1 dx dy,
    scrollBounds align e' = scrollBounds align (scrollRel align e1 dx dy)
    /\ scrollOff e' = scrollOff (scrollRel align e1 dx dy).
Proof.
  unfold layout, bind. intros H.
  destruct (makeValid linesDimens maskedReader e) as [e1|]; [|discriminate H].
  remember (set_viewSize (layout.Constrain (Constraints gtx)
                                           (layout.Size (dims e1))) e1) as e2 eqn:E2.
  clear E2.
  remember (scrollRel align e2 0 0) as e3 eqn:E3.
  assert (S : exists e4 dx dy,
             (if caretScroll e3 then scrollToCaret align (set_caretScroll false e3)
              else Some e3) = Some (scrollRel align e4 dx dy)
             \/ (if caretScroll e3
                 then scrollToCaret align (set_caretScroll false e3)
                 else Some e3) = None).
  { destruct (caretScroll e3).
    - destruct (scrollToCaret align (set_caretScroll false e3)) as [e4|] eqn:E4.
      + apply scrollToCaret_is_scrollRel in E4. destruct E4 as (dx & dy & ->).
        exists (set_caretScroll false e3), dx, dy. now left.
      + exists e3, 0, 0. now right.
    - exists e2, 0, 0. left. now rewrite E3. }
  destruct S as (e4 & dx & dy & [S | S]); rewrite S in H; [|discriminate H].
  exists e4, dx, dy. clear S E3.
  generalize dependent (scrollRel align e4 dx dy). intros e5 H.
  destruct (scroll_frame e5 false false
              (focused (set_caretOn false (set_requestFocus false e5))
               && (negb (Now gtx - blinkStart (set_caretOn false (set_requestFocus false e5)) <? maxBlinkDuration)
                   || (Z.rem (Now gtx - blinkStart (set_caretOn false (set_requestFocus false e5))) timePerBlink <? timePerBlink / 2))))
    as (F1 & F2 & F3 & F4).
  destruct (focused (set_caretOn false (set_requestFocus false e5)));
    injection H as <-; split; assumption.
Qed.

(** [Layout] ends with [layout]. *)
Lemma Layout_ends_with_layout (e e' : Editor) (gtx : Context)
      (sh : option text.Shaper) (fnt : text.Font) (px : Z) :
  Layout align linesDimens maskedReader inf e gtx sh fnt px = Some e' ->
  exists e0, layout align linesDimens maskedReader e0 gtx = Some e'.
Proof.
  unfold Layout. destruct (_ || _); [discriminate|].
  cbv zeta. unfold bind at 1.
  destruct (processEvents align linesDimens maskedReader _ gtx) as [e0|];
    [|discriminate].
  intros H. exists e0. exact H.
Qed.

(** C1, as the code has it: after [scrollAbs] and [scrollRel], and after
    the adjustments made by [scrollToCaret], by [layout] and so by
    [Layout], the scroll offset is the requested offset clamped first to
    at most [b.Max] and then to at least [b.Min], [b] being the rectangle
    of [scrollBounds]: on each axis it is never below [b.Min], and never
    above [b.Max] when [b.Min <= b.Max]. *)
Theorem scroll_offset_clamped (e : Editor) :
  (forall x y,
      let e' := scrollAbs align e x y in
      let b := scrollBounds align e' in
      image.X (scrollOff e')
      = Z.max (image.X (image.Min b)) (Z.min x (image.X (image.Max b)))
      /\ image.Y (scrollOff e')
         = Z.max (image.Y (image.Min b)) (Z.min y (image.Y (image.Max b)))
      /\ clampedTo b (scrollOff e'))
  /\ (forall dx dy,
         clampedTo (scrollBounds align (scrollRel align e dx dy))
                   (scrollOff (scrollRel align e dx dy)))
  /\ (forall e',
         scrollToCaret align e = Some e' ->
         clampedTo (scrollBounds align e') (scrollOff e'))
  /\ (forall gtx e',
         layout align linesDimens maskedReader e gtx = Some e' ->
         clampedTo (scrollBounds align e') (scrollOff e'))
  /\ (forall gtx sh fnt px e',
         Layout align linesDimens maskedReader inf e gtx sh fnt px = Some e' ->
         clampedTo (scrollBounds align e') (scrollOff e')).
Proof.
  split; [|split; [|split; [|split]]].
  - intros x y e' b. subst e' b. rewrite scrollAbs_offset.
    split; [reflexivity|]. split; [reflexivity|].
    rewrite <- scrollAbs_offset. apply scrollAbs_clamped.
  - intros dx dy. apply scrollAbs_clamped.
  - intros e' H. apply scrollToCaret_is_scrollRel in H.
    destruct H as (dx & dy & ->). apply scrollAbs_clamped.
  - intros gtx e' H. apply layout_ends_with_scrollRel in H.
    destruct H as (e1 & dx & dy & -> & ->). apply scrollAbs_clamped.
  - intros gtx sh fnt px e' H. apply Layout_ends_with_layout in H.
    destruct H as (e0 & H). apply layout_ends_with_scrollRel in H.
    destruct H as (e1 & dx & dy & -> & ->). apply scrollAbs_clamped.
Qed.

End Scrolling.

(** C1 as stated fails where the viewport is larger than the content.
    The multi-line editor [sample.small] has content 16 pixels high in a
    viewport 50 pixels high: the bounds have [Max.Y = -34 < 0 = Min.Y],
    and [scrollAbs], as well as [layout] under a minimum height of 50,
    leaves the offset at [Min.Y = 0], above [Max.Y]. *)
Lemma scroll_offset_in_bounds_counterexample :
  ~ inRect (scrollBounds label.align (scrollAbs label.align sample.small 0 0))
           (scrollOff (scrollAbs label.align sample.small 0 0))
  /\ exists e',
      layout label.align label.linesDimens label.maskedReader
             sample.small minimum50 = Some e'
      /\ image.Y (image.Max (scrollBounds label.align e')) = -34
      /\ image.Y (scrollOff e') = 0
      /\ ~ inRect (scrollBounds label.align e') (scrollOff e').
Proof.
  split.
  - unfold inRect. intros [_ [_ H]]. vm_compute in H. exact (H eq_refl).
  - eexists. split; [vm_compute; reflexivity|].
    split; [reflexivity|]. split; [reflexivity|].
    unfold inRect. intros [_ [_ H]]. vm_compute in H. exact (H eq_refl).
Qed.

(** The clamping at work on [sample.tall], whose bounds are [0 .. 6]
    vertically: a request for offset 99 ends at 6, inside the bounds, and
    so do the scroll to the caret and the layout of a frame. *)
Lemma scroll_offset_clamped_witness :
  inRect (scrollBounds label.align (scrollAbs label.align sample.tall 0 99))
         (scrollOff (scrollAbs label.align sample.tall 0 99))
  /\ match scrollToCaret label.align sample.tall with
     | Some e' => clampedTo (scrollBounds label.align e') (scrollOff e')
     | None => False
     end
  /\ match layout label.align label.linesDimens label.maskedReader
                  sample.tall frame7by10 with
     | Some e' => clampedTo (scrollBounds label.align e') (scrollOff e')
     | None => False
     end
  /\ match Layout label.align label.linesDimens label.maskedReader label.inf
                  (set_maxWidth 7 sample.tall) frame7by10 None 0 16 with
     | Some e' => clampedTo (scrollBounds label.align e') (scrollOff e')
     | None => False
     end.
Proof.
  destruct (scroll_offset_clamped label.align label.linesDimens
              label.maskedReader label.inf sample.tall)
    as (Habs & _ & Hcaret & Hlayout & _).
  destruct (scroll_offset_clamped label.align label.linesDimens
              label.maskedReader label.inf (set_maxWidth 7 sample.tall))
    as (_ & _ & _ & _ & HLayout).
  split; [|split; [|split]].
  - destruct (Habs 0 99) as (_ & _ & Hx & Hy & Hx' & Hy').
    unfold inRect.
    repeat split;
      [ exact Hx | apply Hx'; vm_compute; discriminate
      | exact Hy | apply Hy'; vm_compute; discriminate ].
  - destruct (scrollToCaret label.align sample.tall) as [e'|] eqn:E.
    + apply Hcaret. reflexivity.
    + vm_compute in E. discriminate E.
  - match goal with
    | |- match ?t with _ => _ end => destruct t as [e'|] eqn:E
    end.
    + apply (Hlayout _ _ E).
    + vm_compute in E. discriminate E.
  - match goal with
    | |- match ?t with _ => _ end => destruct t as [e'|] eqn:E
    end.
    + apply (HLayout _ _ _ _ _ E).
    + vm_compute in E. discriminate E.
Defined.

(** ** Setting and inserting text (C7, C10) *)

Lemma inside_spec (b : editBuffer.t) (idx : Z) :
  editBuffer.inside b idx = true <-> 0 <= idx <= editBuffer.len b.
Proof. unfold editBuffer.inside. rewrite andb_true_iff, !Z.leb_le. tauto. Qed.

(** C7: after [SetText(s)] the editor holds exactly [s], whatever it held
    before and whether or not [SingleLine] is set: [Text()] returns [s],
    [Len()] is the length of [s], and [carXOff] is 0. *)
Theorem SetText_Text (e : Editor) (s : list byte) :
  exists e',
    SetText e s = Some e'
    /\ Text e' = s
    /\ Len e' = GoInt.len s
    /\ carXOff e' = 0
    /\ SingleLine e' = SingleLine e.
Proof.
  unfold SetText, prepend, editBuffer.prepend, bind.
  cbn [rr set_rr set_carXOff editBuffer.empty editBuffer.caret
       editBuffer.content editBuffer.inside editBuffer.len GoInt.len
       length Z.of_nat Z.leb Z.compare andb Z.to_nat firstn skipn app].
  eexists. split; [reflexivity|].
  unfold Text, Len, editBuffer.len, editBuffer.String, invalidate.
  cbn [rr set_rr set_carXOff set_valid carXOff SingleLine editBuffer.content].
  rewrite app_nil_r. repeat split.
Qed.

Lemma stripNewlines_length (s : list byte) :
  (length (strings.stripNewlines s) <= length s)%nat.
Proof. apply filter_length_le. Qed.

Lemma stripNewlines_clean (s : list byte) :
  strings.countNewlines (strings.stripNewlines s) = 0%nat.
Proof.
  unfold strings.countNewlines, strings.stripNewlines.
  induction s as [|b s IH]; [reflexivity|].
  cbn [filter]. destruct (Byte.eqb b strings.newline) eqn:E; cbn [negb].
  - exact IH.
  - cbn [filter]. rewrite E. exact IH.
Qed.

Lemma stripNewlines_no_newline (s : list byte) :
  ~ In strings.newline (strings.stripNewlines s).
Proof.
  unfold strings.stripNewlines. rewrite filter_In. intros [_ H].
  rewrite (Byte.byte_dec_lb (x := strings.newline) eq_refl) in H. discriminate H.
Qed.

Lemma countNewlines_app (s t : list byte) :
  strings.countNewlines (s ++ t)
  = (strings.countNewlines s + strings.countNewlines t)%nat.
Proof.
  unfold strings.countNewlines. now rewrite filter_app, length_app.
Qed.

Lemma countNewlines_insert (n : nat) (s t : list byte) :
  strings.countNewlines (firstn n s ++ t ++ skipn n s)
  = (strings.countNewlines s + strings.countNewlines t)%nat.
Proof.
  rewrite <- (firstn_skipn n s) at 3.
  rewrite !countNewlines_app. lia.
Qed.

Lemma append_appended (e : Editor) (s : list byte) :
  0 <= editBuffer.caret (rr e) <= Len e ->
  append e s = Some (appended e s).
Proof.
  intros H. apply inside_spec in H.
  unfold append, prepend, editBuffer.prepend, bind. fold (appendText e s).
  rewrite H. destruct e. reflexivity.
Qed.

Lemma append_out_of_range (e : Editor) (s : list byte) :
  ~ 0 <= editBuffer.caret (rr e) <= Len e -> append e s = None.
Proof.
  intros H. unfold append, prepend, editBuffer.prepend, bind.
  destruct (editBuffer.inside (rr e) (editBuffer.caret (rr e))) eqn:E;
    [|reflexivity].
  apply inside_spec in E. contradiction.
Qed.

Lemma noteChange_rr (e : Editor) :
  rr (noteChange e)
  = editBuffer.mk (editBuffer.caret (rr e)) (editBuffer.content (rr e)) false.
Proof.
  unfold noteChange, editBuffer.Changed.
  destruct (editBuffer.changed (rr e)); reflexivity.
Qed.

Lemma noteChange_events (e : Editor) :
  events (noteChange e)
  = events e ++ (if editBuffer.changed (rr e) then [ChangeEvent] else []).
Proof.
  unfold noteChange, editBuffer.Changed.
  destruct (editBuffer.changed (rr e)); cbn [events set_events set_rr];
    [reflexivity | now rewrite app_nil_r].
Qed.

Lemma noteChange_fields (e : Editor) :
  SingleLine (noteChange e) = SingleLine e
  /\ Submit (noteChange e) = Submit e
  /\ focused (noteChange e) = focused e
  /\ Text (noteChange e) = Text e
  /\ Len (noteChange e) = Len e
  /\ editBuffer.caret (rr (noteChange e)) = editBuffer.caret (rr e).
Proof.
  unfold Text, Len, editBuffer.String, editBuffer.len.
  rewrite noteChange_rr. cbn [editBuffer.content editBuffer.caret].
  unfold noteChange, editBuffer.Changed.
  destruct (editBuffer.changed (rr e)); repeat split.
Qed.

Lemma appended_single_line (e : Editor) (s : list byte) :
  SingleLine e = true ->
  0 <= editBuffer.caret (rr e) <= Len e ->
  Len e + GoInt.len s <= GoInt.max_int ->
  let t := strings.stripNewlines s in
  let n := Z.to_nat (editBuffer.caret (rr e)) in
  Text (appended e s) = firstn n (Text e) ++ t ++ skipn n (Text e)
  /\ editBuffer.caret (rr (appended e s))
     = editBuffer.caret (rr e) + GoInt.len t
  /\ strings.countNewlines (Text (appended e s))
     = strings.countNewlines (Text e).
Proof.
  intros HS Hc Hl t n.
  unfold appended, appendText. rewrite HS. fold t. fold n.
  unfold Text at 1 3. unfold editBuffer.String.
  cbn [rr set_rr editBuffer.content editBuffer.caret].
  split; [reflexivity|]. split.
  - unfold GoInt.add. apply wrap_small; [lia|].
    pose proof (stripNewlines_length s) as L.
    unfold Len, editBuffer.len, GoInt.len, GoInt.max_int in *. fold t in L.
    change (2 ^ (64 - 1)) with 9223372036854775808.
    change (2 ^ 63 - 1) with 9223372036854775807 in Hl. lia.
  - unfold Text at 1. unfold editBuffer.String.
    cbn [rr set_rr editBuffer.content].
    rewrite countNewlines_insert. unfold t.
    rewrite stripNewlines_clean. lia.
Qed.

(** C10: in single-line mode [Insert(s)], and a keyboard edit event
    carrying [s], put [s] without its newline bytes at the caret and move
    the caret forward by the number of bytes put there; the text gains no
    newline.  (The caret is within the text, and the text with [s] fits a
    Go [int], as for every Go string.) *)
Theorem Insert_single_line
        (align : text.Alignment -> fixed.Int26_6 -> Z -> fixed.Int26_6)
        (e : Editor) (s : list byte) (gtx : Context) :
  SingleLine e = true ->
  0 <= editBuffer.caret (rr e) <= Len e ->
  Len e + GoInt.len s <= GoInt.max_int ->
  let t := strings.stripNewlines s in
  let n := Z.to_nat (editBuffer.caret (rr e)) in
  ~ In strings.newline t
  /\ (exists e',
         Insert e s = Some e'
         /\ Text e' = firstn n (Text e) ++ t ++ skipn n (Text e)
         /\ editBuffer.caret (rr e') = editBuffer.caret (rr e) + GoInt.len t
         /\ strings.countNewlines (Text e') = strings.countNewlines (Text e))
  /\ (KeyEvents gtx = [key.EditEvent s] ->
      exists e',
        processKey align e gtx = Some e'
        /\ Text e' = firstn n (Text e) ++ t ++ skipn n (Text e)
        /\ editBuffer.caret (rr e') = editBuffer.caret (rr e) + GoInt.len t
        /\ strings.countNewlines (Text e') = strings.countNewlines (Text e)).
Proof.
  intros HS Hc Hl t n.
  split; [apply stripNewlines_no_newline|]. split.
  - exists (invalidate (set_caretScroll true (appended e s))).
    split.
    + unfold Insert. rewrite (append_appended e s Hc). reflexivity.
    + exact (appended_single_line e s HS Hc Hl).
  - intros Hev. unfold processKey. rewrite Hev. cbn [keyLoop].
    destruct (noteChange_fields e) as (F1 & _ & _ & F4 & F5 & F6).
    set (e1 := set_scroller _ _).
    assert (G : SingleLine e1 = true
                /\ Text e1 = Text e
                /\ Len e1 = Len e
                /\ editBuffer.caret (rr e1) = editBuffer.caret (rr e)).
    { subst e1. rewrite <- F1, <- F4, <- F5, <- F6 in *. repeat split; assumption. }
    clearbody e1. destruct G as (G1 & G2 & G3 & G4).
    rewrite append_appended by (rewrite G3, G4; exact Hc).
    cbn [bind]. eexists. split; [reflexivity|].
    destruct (noteChange_fields (appended e1 s)) as (_ & _ & _ & -> & _ & ->).
    subst n t. rewrite <- G2, <- G4.
    apply appended_single_line; [exact G1 | now rewrite G3, G4 | now rewrite G3].
Qed.

(** The single-line editor "ab" with the caret between the letters
    receives "x\ny": the text becomes "axyb" and the caret moves by two. *)
Lemma Insert_single_line_witness :
  let e := singleLineAB in
  let gtx := mkContext (layout.mkConstraints (layout.mkConstraint 0 100)
                                             (layout.mkConstraint 0 16))
                       0 [key.EditEvent [x78; x0a; x79]] [] 0
                       gesture.StateIdle in
  (exists e',
      Insert e [x78; x0a; x79] = Some e'
      /\ Text e' = [x61; x78; x79; x62]
      /\ editBuffer.caret (rr e') = 3)
  /\ (exists e',
         processKey label.align e gtx = Some e'
         /\ Text e' = [x61; x78; x79; x62]
         /\ editBuffer.caret (rr e') = 3).
Proof.
  intros e gtx.
  destruct (Insert_single_line label.align e [x78; x0a; x79] gtx)
    as (_ & (e' & H1 & H2 & H3 & _) & K).
  - reflexivity.
  - vm_compute. split; discriminate.
  - vm_compute. discriminate.
  - split.
    + exists e'. split; [exact H1|]. split; [exact H2 | exact H3].
    + destruct (K eq_refl) as (e'' & K1 & K2 & K3 & _).
      exists e''. split; [exact K1|]. split; [exact K2 | exact K3].
Defined.

(** ** The carriage return key (C9) *)

Section CarriageReturn.

Variable align : text.Alignment -> fixed.Int26_6 -> Z -> fixed.Int26_6.

Lemma keyLoop_submit (e : Editor) (now : Z) (k : key.Event)
      (rest : list key.InputEvent) :
  focused e = true ->
  Submit e = true ->
  key.isReturn (key.EName k) = true ->
  key.Contain (key.EModifiers k) key.ModShift = false ->
  keyLoop align e now (key.KeyEvent k :: rest)
  = Some (set_events (events e ++ [SubmitEvent (Text e)])
                     (set_blinkStart now e)).
Proof.
  intros Hf Hs Hr Hm. cbn [keyLoop]. cbv zeta.
  change (focused (set_blinkStart now e)) with (focused e).
  change (Submit (set_blinkStart now e)) with (Submit e).
  rewrite Hf, Hs, Hr, Hm. reflexivity.
Qed.

Lemma keyLoop_return (e : Editor) (now : Z) (k : key.Event)
      (rest : list key.InputEvent) :
  focused e = true ->
  key.isReturn (key.EName k) = true ->
  Submit e = false \/ key.Contain (key.EModifiers k) key.ModShift = true ->
  0 <= editBuffer.caret (rr e) <= Len e ->
  keyLoop align e now (key.KeyEvent k :: rest)
  = keyLoop align (afterReturn now e) now rest.
Proof.
  intros Hf Hr Hs Hc. cbn [keyLoop]. cbv zeta.
  change (focused (set_blinkStart now e)) with (focused e).
  change (Submit (set_blinkStart now e)) with (Submit e).
  rewrite Hf, Hr. cbn [negb].
  replace (Submit e && true
           && negb (key.Contain (key.EModifiers k) key.ModShift)) with false
    by (destruct Hs as [-> | ->]; [reflexivity | now rewrite andb_false_r]).
  assert (C : command align (set_blinkStart now e) k
              = Some (appended (set_blinkStart now e) newlineText, true)).
  { unfold command.
    destruct (key.EName k); try discriminate Hr;
      rewrite (append_appended (set_blinkStart now e) newlineText Hc);
      reflexivity. }
  rewrite C. reflexivity.
Qed.

Lemma afterReturn_fields (now : Z) (e : Editor) :
  editBuffer.changed (rr e) = false ->
  let t := appendText e newlineText in
  let n := Z.to_nat (editBuffer.caret (rr e)) in
  Text (afterReturn now e) = firstn n (Text e) ++ t ++ skipn n (Text e)
  /\ editBuffer.caret (rr (afterReturn now e))
     = GoInt.add (editBuffer.caret (rr e)) (GoInt.len t)
  /\ events (afterReturn now e)
     = events e ++ (if 0 <? GoInt.len t then [ChangeEvent] else [])
  /\ caretScroll (afterReturn now e) = true.
Proof.
  intros Hch t n. unfold afterReturn. cbv zeta.
  set (x := appended (set_blinkStart now e) newlineText).
  set (y := set_scroller (gesture.Stop (scroller x)) (set_caretScroll true x)).
  assert (Y : rr y = editBuffer.mk
                       (GoInt.add (editBuffer.caret (rr e)) (GoInt.len t))
                       (firstn n (Text e) ++ t ++ skipn n (Text e))
                       (0 <? GoInt.len t)
              /\ events y = events e /\ caretScroll y = true).
  { subst y x. unfold appended. cbv zeta.
    change (appendText (set_blinkStart now e) newlineText) with t.
    cbn [rr set_rr set_scroller set_caretScroll set_blinkStart events
         caretScroll set_valid set_carXOff].
    rewrite Hch. repeat split. }
  clearbody y. clear x. destruct Y as (Y1 & Y2 & Y3).
  unfold Text at 1. unfold editBuffer.String.
  rewrite noteChange_rr, noteChange_events, Y1, Y2.
  cbn [editBuffer.content editBuffer.caret editBuffer.changed].
  repeat split.
  unfold noteChange, editBuffer.Changed. rewrite Y1.
  cbn [editBuffer.changed editBuffer.caret editBuffer.content].
  destruct (0 <? GoInt.len t); exact Y3.
Qed.

(** C9, as the code has it.  For a focused editor, a Return or Enter key
    event with [Submit] set and Shift not held appends a [SubmitEvent]
    with the whole text, leaves the text as it is and ends [processKey],
    whatever events follow in the frame.  With Shift held, or [Submit]
    not set, the key instead goes to [append]: outside single-line mode it
    inserts a newline at the caret and a [ChangeEvent] follows; in
    single-line mode the newline is stripped, the text stays as it is and
    no [ChangeEvent] follows.  In both cases the remaining events are
    processed. *)
Theorem carriage_return (e : Editor) (now : Z) (k : key.Event)
        (rest : list key.InputEvent) :
  focused e = true ->
  key.isReturn (key.EName k) = true ->
  (Submit e = true ->
   key.Contain (key.EModifiers k) key.ModShift = false ->
   exists e',
     keyLoop align e now (key.KeyEvent k :: rest) = Some e'
     /\ keyLoop align e now [key.KeyEvent k] = Some e'
     /\ Text e' = Text e
     /\ events e' = events e ++ [SubmitEvent (Text e)])
  /\ (Submit e = false \/ key.Contain (key.EModifiers k) key.ModShift = true ->
      editBuffer.changed (rr e) = false ->
      0 <= editBuffer.caret (rr e) <= Len e ->
      exists e',
        keyLoop align e now (key.KeyEvent k :: rest) = keyLoop align e' now rest
        /\ caretScroll e' = true
        /\ (SingleLine e = false ->
            insertsNewline e e'
            /\ editBuffer.caret (rr e')
               = GoInt.add (editBuffer.caret (rr e)) 1
            /\ events e' = events e ++ [ChangeEvent])
        /\ (SingleLine e = true ->
            Text e' = Text e /\ events e' = events e)).
Proof.
  intros Hf Hr. split.
  - intros Hs Hm. eexists. split; [|split].
    + apply keyLoop_submit; assumption.
    + apply keyLoop_submit; assumption.
    + split; reflexivity.
  - intros Hs Hch Hc. exists (afterReturn now e).
    split; [apply keyLoop_return; assumption|].
    destruct (afterReturn_fields now e Hch) as (T & C & E & S).
    split; [exact S|]. unfold appendText in T, C, E.
    split; intros HS; rewrite HS in T, C, E.
    + change (0 <? GoInt.len newlineText) with true in E. cbv iota in E.
      change (GoInt.len newlineText) with 1 in C.
      unfold insertsNewline. rewrite T, E. repeat split.
      * apply in_or_app. right. left. reflexivity.
      * exact C.
    + change (strings.stripNewlines newlineText) with (@nil byte) in T, E.
      change (0 <? GoInt.len (@nil byte)) with false in E. cbv iota in E.
      rewrite T, E. cbn [app]. rewrite app_nil_r, firstn_skipn.
      split; reflexivity.
Qed.

End CarriageReturn.

(** C9 as stated fails in single-line mode: the focused editor
    [singleLineAB] has [Submit] unset, and a Return key leaves its text
    "ab" unchanged and produces no event. *)
Lemma carriage_return_counterexample :
  exists e',
    processKey label.align singleLineAB returnFrame = Some e'
    /\ Text e' = Text singleLineAB
    /\ events e' = []
    /\ ~ insertsNewline singleLineAB e'.
Proof.
  eexists. split; [vm_compute; reflexivity|].
  split; [reflexivity|]. split; [reflexivity|].
  intros [H _]. vm_compute in H. discriminate H.
Qed.

(** Return in the focused multi-line editor [sample.tall] (text "a",
    caret at the end, [Submit] unset): the text becomes "a\n".  With
    [Submit] set, the text stays and a [SubmitEvent] carries it. *)
Lemma carriage_return_witness :
  (exists e',
      processKey label.align sample.tall returnFrame = Some e'
      /\ Text e' = [x61; x0a]
      /\ events e' = [ChangeEvent])
  /\ (exists e',
         processKey label.align submitA returnFrame = Some e'
         /\ Text e' = [x61]
         /\ events e' = [SubmitEvent [x61]]).
Proof.
  split.
  - destruct (carriage_return label.align sample.tall 0
                (key.mkEvent key.NameReturn 0) [] eq_refl eq_refl)
      as [_ H].
    destruct (H (or_introl eq_refl) eq_refl) as (e' & L & _ & N & _).
    + vm_compute. split; discriminate.
    + destruct (N eq_refl) as ((T & _) & _ & E).
      exists e'. split; [|split].
      * exact L.
      * exact T.
      * exact E.
  - destruct (carriage_return label.align submitA 0
                (key.mkEvent key.NameReturn 0) [] eq_refl eq_refl)
      as [H _].
    destruct (H eq_refl eq_refl) as (e' & L & _ & T & E).
    exists e'. split; [|split].
    + exact L.
    + exact T.
    + exact E.
Defined.

(** ** Scrolling to the caret (C3) *)

Lemma add_small (a b : Z) : small a -> small b -> GoInt.add a b = a + b.
Proof.
  unfold small, GoInt.add. intros Ha Hb. apply wrap_small; [lia|].
  change (2 ^ 61) with 2305843009213693952 in *.
  change (2 ^ (64 - 1)) with 9223372036854775808. lia.
Qed.

Lemma sub_small (a b : Z) : small a -> small b -> GoInt.sub a b = a - b.
Proof.
  unfold small, GoInt.sub. intros Ha Hb. apply wrap_small; [lia|].
  change (2 ^ 61) with 2305843009213693952 in *.
  change (2 ^ (64 - 1)) with 9223372036854775808. lia.
Qed.

Lemma scroll_into_view (mn mx view off lo hi : Z) :
  small mn -> small mx -> small view -> small lo -> small hi ->
  mn <= off <= Z.max mn mx ->
  (exists o, mn <= o <= Z.max mn mx /\ o <= lo /\ hi <= o + view) ->
  let d1 := GoInt.sub lo off in
  let d2 := GoInt.sub hi (GoInt.add off view) in
  let dist := if d1 <? 0 then d1 else if 0 <? d2 then d2 else 0 in
  let off' := clamp mn mx (GoInt.add off dist) in
  off' <= lo /\ hi <= off' + view.
Proof.
  intros Hmn Hmx Hv Hlo Hhi Hoff (o & Ho & Hol & Hoh).
  assert (Soff : small off) by (unfold small in *; lia).
  assert (E1 : GoInt.sub lo off = lo - off) by (apply sub_small; assumption).
  assert (E0 : GoInt.add off view = off + view) by (apply add_small; assumption).
  assert (E2 : GoInt.sub hi (off + view) = hi - (off + view)).
  { unfold GoInt.sub. apply wrap_small; [lia|]. unfold small in *.
    change (2 ^ 61) with 2305843009213693952 in *.
    change (2 ^ (64 - 1)) with 9223372036854775808. lia. }
  cbv zeta. rewrite E0, E1, E2.
  assert (E3 : forall dist, - 2 ^ 62 <= dist <= 2 ^ 62 ->
                            GoInt.add off dist = off + dist).
  { intros dist Hd. unfold GoInt.add. apply wrap_small; [lia|].
    unfold small in *.
    change (2 ^ 61) with 2305843009213693952 in *.
    change (2 ^ 62) with 4611686018427387904 in *.
    change (2 ^ (64 - 1)) with 9223372036854775808. lia. }
  unfold clamp, small in *.
  change (2 ^ 61) with 2305843009213693952 in *.
  change (2 ^ 62) with 4611686018427387904 in *.
  destruct (Z.ltb_spec (lo - off) 0);
    [|destruct (Z.ltb_spec 0 (hi - (off + view)))];
    rewrite E3 by lia; lia.
Qed.

Section ScrollToCaret.

Variable align : text.Alignment -> fixed.Int26_6 -> Z -> fixed.Int26_6.
Variable linesDimens : list text.Line -> layout.Dimensions.
Variable maskedReader : Z -> list byte -> list byte.
Variable inf : Z.

Lemma sameLayout_refl (e : Editor) : sameLayout e e.
Proof. repeat split. Qed.

Lemma sameLayout_trans (e1 e2 e3 : Editor) :
  sameLayout e1 e2 -> sameLayout e2 e3 -> sameLayout e1 e3.
Proof.
  unfold sameLayout. intros (A1 & A2 & A3 & A4 & A5 & A6)
                            (B1 & B2 & B3 & B4 & B5 & B6).
  repeat split; congruence.
Qed.

Lemma sameLayout_scrollBounds (e1 e2 : Editor) :
  sameLayout e1 e2 -> scrollBounds align e1 = scrollBounds align e2.
Proof.
  intros (_ & Hl & Ha & Hv & Hs & Hd).
  unfold scrollBounds. now rewrite Hl, Ha, Hv, Hs, Hd.
Qed.

Lemma sameLayout_caretSpan (e1 e2 : Editor) :
  sameLayout e1 e2 -> caretSpan align e1 = caretSpan align e2.
Proof.
  intros (Hr & Hl & Ha & Hv & Hs & _).
  unfold caretSpan, layoutCaret. now rewrite Hr, Hl, Ha, Hv, Hs.
Qed.

Lemma sameLayout_scrollRel (e : Editor) (dx dy : Z) :
  sameLayout (scrollRel align e dx dy) e
  /\ caretScroll (scrollRel align e dx dy) = caretScroll e.
Proof. repeat split. Qed.

Lemma scrollRel_along (e : Editor) (dist : Z) :
  let b := scrollBounds align e in
  let e' := if SingleLine e then scrollRel align e dist 0
            else scrollRel align e 0 dist in
  along e (scrollOff e')
  = clamp (along e (image.Min b)) (along e (image.Max b))
          (GoInt.add (along e (scrollOff e)) dist).
Proof.
  cbv zeta. unfold along, clamp.
  destruct (SingleLine e); unfold scrollRel; rewrite scrollAbs_offset;
    reflexivity.
Qed.

Lemma scrollRel_admissible (e : Editor) (dx dy : Z) :
  admissible align e (along e (scrollOff (scrollRel align e dx dy))).
Proof.
  unfold admissible, along, scrollRel. rewrite scrollAbs_offset.
  generalize (scrollBounds align e). intros b.
  destruct (SingleLine e); cbn [image.X image.Y]; lia.
Qed.

Lemma scrollToCaret_span (e : Editor) (span : Z * Z) :
  caretSpan align e = Some span ->
  scrollToCaret align e
  = Some (if SingleLine e then scrollRel align e (caretDist e span) 0
          else scrollRel align e 0 (caretDist e span)).
Proof.
  unfold caretSpan, scrollToCaret, caretDist, along, bind.
  destruct (layoutCaret align e) as [[[[carLine carCol] x] y]|]; [|discriminate].
  destruct (GoInt.index (lines e) carLine) as [l|]; [|discriminate].
  destruct (SingleLine e); intros [= <-]; reflexivity.
Qed.

Lemma scrollToCaret_total (e : Editor) :
  caretSpan align e = None <-> scrollToCaret align e = None.
Proof.
  unfold caretSpan, scrollToCaret, bind.
  destruct (layoutCaret align e) as [[[[carLine carCol] x] y]|]; [|tauto].
  destruct (GoInt.index (lines e) carLine) as [l|]; [|tauto].
  destruct (SingleLine e); split; discriminate.
Qed.

(** [scrollToCaret] brings the caret into view whenever an admissible
    offset shows it. *)
Lemma scrollToCaret_visible (e : Editor) (span : Z * Z) :
  caretSpan align e = Some span ->
  admissible align e (along e (scrollOff e)) ->
  small (along e (image.Min (scrollBounds align e))) ->
  small (along e (image.Max (scrollBounds align e))) ->
  small (along e (viewSize e)) ->
  small (fst span) -> small (snd span) ->
  (exists o, admissible align e o /\ visibleAt e o span) ->
  exists e',
    scrollToCaret align e = Some e'
    /\ sameLayout e' e
    /\ caretScroll e' = caretScroll e
    /\ visibleAt e (along e (scrollOff e')) span.
Proof.
  intros Hspan Hoff Hmn Hmx Hv Hlo Hhi (o & Ho & Hvis).
  rewrite (scrollToCaret_span e span Hspan).
  eexists. split; [reflexivity|].
  split; [destruct (SingleLine e); apply sameLayout_scrollRel|].
  split; [destruct (SingleLine e); apply sameLayout_scrollRel|].
  pose proof (scrollRel_along e (caretDist e span)) as A. cbv zeta in A.
  rewrite A. unfold visibleAt, caretDist.
  apply scroll_into_view; try assumption.
  exists o. split; [exact Ho | exact Hvis].
Qed.

Lemma sameLayout_along (e1 e2 : Editor) (p : image.Point) :
  sameLayout e1 e2 -> along e1 p = along e2 p.
Proof. intros (_ & _ & _ & _ & Hs & _). unfold along. now rewrite Hs. Qed.

Lemma sameLayout_visibleAt (e1 e2 : Editor) (o : Z) (span : Z * Z) :
  sameLayout e1 e2 -> visibleAt e1 o span -> visibleAt e2 o span.
Proof.
  intros H. unfold visibleAt.
  rewrite (sameLayout_along e1 e2 _ H).
  destruct H as (_ & _ & _ & -> & _). tauto.
Qed.

Lemma sameLayout_admissible (e1 e2 : Editor) (o : Z) :
  sameLayout e1 e2 -> admissible align e1 o -> admissible align e2 o.
Proof.
  intros H. unfold admissible. cbv zeta.
  rewrite (sameLayout_scrollBounds e1 e2 H).
  now rewrite !(sameLayout_along e1 e2 _ H).
Qed.

Lemma sameLayout_sym (e1 e2 : Editor) : sameLayout e1 e2 -> sameLayout e2 e1.
Proof.
  unfold sameLayout. intros (A1 & A2 & A3 & A4 & A5 & A6).
  repeat split; congruence.
Qed.

Lemma makeValid_caretScroll (e e1 : Editor) :
  makeValid linesDimens maskedReader e = Some e1 ->
  caretScroll e1 = caretScroll e.
Proof.
  unfold makeValid, bind. destruct (valid e); [now intros [= <-]|].
  destruct (layoutText linesDimens maskedReader e (shaper e)) as [[ls d]|];
    [|discriminate].
  now intros [= <-].
Qed.

Lemma layout_steps (e e' : Editor) (gtx : Context) :
  layout align linesDimens maskedReader e gtx = Some e' ->
  exists e1 e4,
    makeValid linesDimens maskedReader e = Some e1
    /\ (if caretScroll e1
        then scrollToCaret align
               (set_caretScroll false (scrollRel align (viewOf e1 gtx) 0 0))
        else Some (scrollRel align (viewOf e1 gtx) 0 0)) = Some e4
    /\ sameLayout e' e4
    /\ scrollOff e' = scrollOff e4
    /\ caretScroll e' = caretScroll e4.
Proof.
  unfold layout, bind. intros H.
  destruct (makeValid linesDimens maskedReader e) as [e1|]; [|discriminate H].
  exists e1. fold (viewOf e1 gtx) in H.
  change (caretScroll (scrollRel align (viewOf e1 gtx) 0 0))
    with (caretScroll e1) in H.
  destruct (if caretScroll e1
            then scrollToCaret align
                   (set_caretScroll false (scrollRel align (viewOf e1 gtx) 0 0))
            else Some (scrollRel align (viewOf e1 gtx) 0 0)) as [e4|];
    [|discriminate H].
  exists e4. split; [reflexivity|]. split; [reflexivity|].
  destruct (focused (set_caretOn false (set_requestFocus false e4)));
    injection H as <-; repeat split.
Qed.

(** *** Only [layout] clears [caretScroll] *)

Ltac open_bind H :=
  repeat match type of H with
         | bind ?x _ = Some _ =>
           let E := fresh "E" in
           destruct x as [?|] eqn:E; cbn [bind] in H; [|discriminate H]
         | (let '(_, _) := ?p in _) = Some _ => destruct p
         | (if ?c then _ else _) = Some _ => destruct c
         end.

Lemma moveToLine_caretScroll (e e' : Editor) (carX r : fixed.Int26_6)
      (carLine2 : Z) :
  moveToLine align e carX carLine2 = Some (e', r) ->
  caretScroll e' = caretScroll e.
Proof.
  unfold moveToLine. intros H. open_bind H. now injection H as <- _.
Qed.

Lemma append_caretScroll (e e' : Editor) (s : list byte) :
  append e s = Some e' -> caretScroll e' = caretScroll e.
Proof.
  unfold append, prepend, bind.
  destruct (editBuffer.prepend (rr e) _) as [b|]; [|discriminate].
  now intros [= <-].
Qed.

Lemma noteChange_caretScroll (e : Editor) :
  caretScroll (noteChange e) = caretScroll e.
Proof.
  unfold noteChange, editBuffer.Changed.
  now destruct (editBuffer.changed (rr e)).
Qed.

Lemma Delete_caretScroll (e e' : Editor) (runes : Z) :
  Delete e runes = Some e' -> caretScroll e' = caretScroll e.
Proof.
  unfold Delete, bind.
  destruct (editBuffer.deleteRunes (rr e) runes); [|discriminate].
  now intros [= <-].
Qed.

Lemma Move_caretScroll (e e' : Editor) (distance : Z) :
  Move e distance = Some e' -> caretScroll e' = caretScroll e.
Proof.
  unfold Move, bind.
  destruct (editBuffer.move (rr e) distance); [|discriminate].
  now intros [= <-].
Qed.

Lemma movePages_caretScroll (e e' : Editor) (pages : Z) :
  movePages align e pages = Some e' -> caretScroll e' = caretScroll e.
Proof.
  unfold movePages, bind.
  destruct (layoutCaret align e) as [[[[carLine carCol] x] y]|];
    [|discriminate].
  destruct (GoInt.index (lines e) 0); [|discriminate].
  destruct (moveToLine align e _ _) as [[e1 off]|] eqn:M; [|discriminate].
  intros [= <-]. apply moveToLine_caretScroll in M. exact M.
Qed.

Lemma moveStart_caretScroll (e e' : Editor) :
  moveStart align e = Some e' -> caretScroll e' = caretScroll e.
Proof.
  unfold moveStart, bind.
  destruct (layoutCaret align e) as [[[[carLine carCol] x] y]|];
    [|discriminate].
  destruct (GoInt.index (lines e) carLine); [|discriminate].
  destruct (startRunes _ _ _ _) as [[b x']|]; [|discriminate].
  now intros [= <-].
Qed.

Lemma moveEnd_caretScroll (e e' : Editor) :
  moveEnd align e = Some e' -> caretScroll e' = caretScroll e.
Proof.
  unfold moveEnd, bind.
  destruct (layoutCaret align e) as [[[[carLine carCol] x] y]|];
    [|discriminate].
  destruct (GoInt.index (lines e) carLine); [|discriminate].
  destruct (endRunes _ _ _) as [[b x']|]; [|discriminate].
  now intros [= <-].
Qed.

Lemma command_caretScroll (e e' : Editor) (k : key.Event) (ran : bool) :
  command align e k = Some (e', ran) -> caretScroll e' = caretScroll e.
Proof.
  unfold command. intros H.
  destruct (key.EName k); unfold bind in H;
    try (match type of H with
         | match ?x with _ => _ end = _ =>
           destruct x as [e1|] eqn:E; [|discriminate H]
         end;
         injection H as <- _;
         first [ now apply append_caretScroll in E
               | now apply Delete_caretScroll in E
               | now apply Move_caretScroll in E
               | now apply movePages_caretScroll in E
               | now apply moveStart_caretScroll in E
               | now apply moveEnd_caretScroll in E ]).
  - destruct (layoutCaret align e) as [[[[line carCol] x] y]|];
      [|discriminate H].
    destruct (moveToLine align e _ _) as [[e1 off]|] eqn:M; [|discriminate H].
    injection H as <- _. apply moveToLine_caretScroll in M. exact M.
  - destruct (layoutCaret align e) as [[[[line carCol] x] y]|];
      [|discriminate H].
    destruct (moveToLine align e _ _) as [[e1 off]|] eqn:M; [|discriminate H].
    injection H as <- _. apply moveToLine_caretScroll in M. exact M.
  - now injection H as <- _.
Qed.

Lemma keyLoop_caretScroll (evs : list key.InputEvent) (e e' : Editor) (now : Z) :
  keyLoop align e now evs = Some e' ->
  caretScroll e = true -> caretScroll e' = true.
Proof.
  revert e. induction evs as [|ke rest IH]; intros e H Hc.
  - cbn in H. now injection H as <-.
  - cbn [keyLoop] in H. cbv zeta in H.
    destruct ke as [f|k|s|].
    + apply IH in H; [exact H|]. now rewrite noteChange_caretScroll.
    + destruct (negb (focused (set_blinkStart now e))).
      { apply IH in H; [exact H|]. now rewrite noteChange_caretScroll. }
      destruct (_ && _ && _).
      { now injection H as <-. }
      unfold bind in H.
      destruct (command align (set_blinkStart now e) k) as [[e1 ran]|] eqn:C;
        [|discriminate H].
      apply IH in H; [exact H|]. rewrite noteChange_caretScroll.
      destruct ran; [reflexivity|].
      apply command_caretScroll in C. now rewrite C.
    + unfold bind in H.
      destruct (append _ s) as [e1|] eqn:A; [|discriminate H].
      apply IH in H; [exact H|]. rewrite noteChange_caretScroll.
      apply append_caretScroll in A. now rewrite A.
    + apply IH in H; [exact H|]. now rewrite noteChange_caretScroll.
Qed.

Lemma clickLoop_caretScroll (evs : list gesture.ClickEvent) (e e' : Editor)
      (now : Z) :
  clickLoop align e now evs = Some e' ->
  caretScroll e = true -> caretScroll e' = true.
Proof.
  revert e. induction evs as [|evt rest IH]; intros e H Hc.
  - cbn in H. now injection H as <-.
  - cbn [clickLoop] in H. destruct (isPress evt); [|now apply IH in H].
    unfold bind, moveCoord in H.
    destruct (moveToLine align _ _ _) as [[e1 r]|] eqn:M; [|discriminate H].
    cbn [bind] in H. apply moveToLine_caretScroll in M.
    apply IH in H; [exact H|].
    destruct (scroller (set_requestFocus true e1)); try reflexivity.
    cbn. now rewrite M.
Qed.

Lemma processPointer_caretScroll (e e' : Editor) (gtx : Context) :
  processPointer align e gtx = Some e' ->
  caretScroll e = true -> caretScroll e' = true.
Proof.
  unfold processPointer. intros H Hc.
  destruct (if SingleLine e then _ else _) as [smin smax].
  cbv zeta in H.
  remember (if SingleLine (set_scroller (ScrollStateNow gtx) e)
            then scrollRel align (set_scroller (ScrollStateNow gtx) e)
                           (ScrollDist gtx) 0
            else scrollRel align (set_scroller (ScrollStateNow gtx) e) 0
                           (ScrollDist gtx)) as e2 eqn:E2.
  assert (C2 : caretScroll e2 = true).
  { rewrite E2. destruct (SingleLine (set_scroller (ScrollStateNow gtx) e));
      exact Hc. }
  clear E2. unfold bind in H.
  destruct (clickLoop align e2 (Now gtx) (ClickEvents gtx)) as [e3|] eqn:K;
    [|discriminate H].
  apply clickLoop_caretScroll in K; [|exact C2].
  destruct (_ || _); injection H as <-; exact K.
Qed.

Lemma processEvents_caretScroll (e e' : Editor) (gtx : Context) :
  processEvents align linesDimens maskedReader e gtx = Some e' ->
  caretScroll e = true -> caretScroll e' = true.
Proof.
  unfold processEvents, processKey, bind. intros H Hc.
  destruct (shaper e); [|now injection H as <-].
  destruct (makeValid linesDimens maskedReader e) as [e1|] eqn:V;
    [|discriminate H].
  apply makeValid_caretScroll in V.
  destruct (processPointer align e1 gtx) as [e2|] eqn:P; [|discriminate H].
  apply processPointer_caretScroll in P; [|congruence].
  apply keyLoop_caretScroll in H; [exact H|].
  now rewrite noteChange_caretScroll.
Qed.

Lemma layout_shows_caret (e e' : Editor) (gtx : Context) :
  layout align linesDimens maskedReader e gtx = Some e' ->
  caretScroll e = true ->
  caretShown align e'.
Proof.
  intros H Hcs. apply layout_steps in H.
  destruct H as (e1 & e4 & H1 & H4 & L & O & C).
  rewrite (makeValid_caretScroll e e1 H1), Hcs in H4.
  set (e3 := set_caretScroll false (scrollRel align (viewOf e1 gtx) 0 0)) in *.
  assert (A3 : admissible align e3 (along e3 (scrollOff e3))).
  { apply (sameLayout_admissible (viewOf e1 gtx) e3); [repeat split|].
    apply (scrollRel_admissible (viewOf e1 gtx) 0 0). }
  assert (C3 : caretScroll e3 = false) by reflexivity.
  clearbody e3. clear H1 Hcs e1.
  destruct (caretSpan align e3) as [span|] eqn:S3;
    [|apply scrollToCaret_total in S3; rewrite S3 in H4; discriminate H4].
  assert (L4 : sameLayout e4 e3 /\ caretScroll e4 = caretScroll e3).
  { rewrite (scrollToCaret_span e3 span S3) in H4. injection H4 as <-.
    destruct (SingleLine e3); apply sameLayout_scrollRel. }
  destruct L4 as (L4 & C4).
  assert (L3 : sameLayout e' e3) by (eapply sameLayout_trans; eassumption).
  unfold caretShown. exists span. split; [|split].
  - now rewrite (sameLayout_caretSpan e' e3 L3).
  - now rewrite C, C4.
  - rewrite (sameLayout_scrollBounds e' e3 L3).
    rewrite !(sameLayout_along e' e3 _ L3).
    assert (Hv : viewSize e' = viewSize e3)
      by (destruct L3 as (_ & _ & _ & Hv & _); exact Hv).
    rewrite Hv.
    intros Hmn Hmx Hview Hlo Hhi (o & Ho & Hvis).
    destruct (scrollToCaret_visible e3 span S3 A3 Hmn Hmx Hview Hlo Hhi)
      as (e4' & E4 & _ & _ & V).
    { exists o. split.
      - apply (sameLayout_admissible e' e3 o L3 Ho).
      - apply (sameLayout_visibleAt e' e3 o span L3 Hvis). }
    rewrite E4 in H4. injection H4 as ->.
    apply (sameLayout_visibleAt e3 e').
    + apply sameLayout_sym. exact L3.
    + now rewrite O.
Qed.


Lemma Layout_steps (e e' : Editor) (gtx : Context)
      (sh : option text.Shaper) (fnt : text.Font) (px : Z) :
  Layout align linesDimens maskedReader inf e gtx sh fnt px = Some e' ->
  exists e0,
    layout align linesDimens maskedReader e0 gtx = Some e'
    /\ (caretScroll e = true -> caretScroll e0 = true).
Proof.
  unfold Layout. destruct (_ || _); [discriminate|].
  cbv zeta. unfold bind at 1.
  match goal with
  | |- match processEvents _ _ _ ?em _ with _ => _ end = _ -> _ =>
    remember em as eM eqn:EM;
      assert (CM : caretScroll eM = caretScroll e)
        by (rewrite EM;
            repeat match goal with
                   | |- context [if ?c then _ else _] => destruct c
                   end; reflexivity);
      clear EM
  end.
  destruct (processEvents align linesDimens maskedReader eM gtx) as [e0|] eqn:P;
    [|discriminate].
  intros H. exists e0. split; [exact H|].
  intros Hc. apply (processEvents_caretScroll eM e0 gtx P). congruence.
Qed.

End ScrollToCaret.

(** ** The caret's line and column (C5) *)

Section Caret.

Variable align : text.Alignment -> fixed.Int26_6 -> Z -> fixed.Int26_6.

Lemma caretLines_line (caret : Z) (ls : list text.Line)
      (carLine idx : Z) (prevDesc : fixed.Int26_6) (y : Z) :
  ls <> [] ->
  0 <= carLine -> carLine + GoInt.len ls <= GoInt.max_int ->
  let '(carLine', _, _, _) := caretLines caret ls carLine idx prevDesc y in
  carLine <= carLine' < carLine + GoInt.len ls.
Proof.
  revert carLine idx prevDesc y.
  induction ls as [|l rest IH]; intros carLine idx prevDesc y Hne H0 Hmax;
    [contradiction|].
  cbn [caretLines]. cbv zeta.
  unfold GoInt.len in *. cbn [length] in *.
  destruct rest as [|l' rest'].
  - cbn [orb].
    destruct (caretGlyphs caret (text.Layout l) idx 0 0) as [carCol x].
    cbn [length]. lia.
  - cbn [orb].
    destruct (caret <? GoInt.add idx (Z.of_nat (length (text.Layout l)))).
    + destruct (caretGlyphs caret (text.Layout l) idx 0 0) as [carCol x].
      cbn [length]. lia.
    + assert (E : GoInt.add carLine 1 = carLine + 1).
      { unfold GoInt.add. apply wrap_small; [lia|].
        unfold GoInt.max_int in Hmax. cbn [length] in Hmax.
        change (2 ^ 63 - 1) with 9223372036854775807 in Hmax.
        change (2 ^ (64 - 1)) with 9223372036854775808. lia. }
      rewrite E.
      specialize (IH (carLine + 1) (GoInt.add idx (text.Len l))
                     (text.Descent l)
                     (GoInt.add y (fixed.Ceil (fixed.add prevDesc (text.Ascent l))))).
      destruct (caretLines caret (l' :: rest') (carLine + 1)
                  (GoInt.add idx (text.Len l)) (text.Descent l)
                  (GoInt.add y (fixed.Ceil (fixed.add prevDesc (text.Ascent l)))))
        as [[[carLine' carCol'] x'] y'].
      cbn [length] in *.
      assert (carLine + 1 <= carLine'
              < carLine + 1 + Z.of_nat (S (length rest'))).
      { apply IH; [discriminate | lia | lia]. }
      lia.
Qed.

Lemma index_in_range {A : Type} (l : list A) (i : Z) :
  0 <= i < GoInt.len l -> exists a, GoInt.index l i = Some a.
Proof.
  intros H. unfold GoInt.index, GoInt.len in *.
  destruct (Z.ltb_spec i 0); [lia|].
  destruct (nth_error l (Z.to_nat i)) as [a|] eqn:E; [eauto|].
  apply nth_error_None in E. lia.
Qed.

(** With at least one line, [layoutCaret]
    does not panic and its line index is within the lines, so neither
    [CaretPos] nor [CaretCoords] panics. *)
Lemma layoutCaret_safe (e : Editor) :
  lines e <> [] ->
  GoInt.len (lines e) <= GoInt.max_int ->
  exists carLine carCol x y,
    layoutCaret align e = Some (carLine, carCol, x, y)
    /\ 0 <= carLine < GoInt.len (lines e)
    /\ CaretPos align e = Some (carLine, carCol)
    /\ CaretCoords align e = Some (x, y).
Proof.
  intros Hne Hlen. unfold CaretPos, CaretCoords, layoutCaret.
  pose proof (caretLines_line (editBuffer.caret (rr e)) (lines e) 0 0 0 0 Hne)
    as R.
  destruct (caretLines (editBuffer.caret (rr e)) (lines e) 0 0 0 0)
    as [[[carLine carCol] x] y].
  assert (Hr : 0 <= carLine < GoInt.len (lines e)) by (apply R; lia).
  destruct (index_in_range (lines e) carLine Hr) as [l ->].
  cbn [bind]. eauto 10.
Qed.

Lemma layoutCaret_no_lines (e : Editor) :
  lines e = [] -> layoutCaret align e = None.
Proof. intros H. unfold layoutCaret. rewrite H. reflexivity. Qed.

Lemma caretGlyphs_single_byte (caret : Z) (gs : list text.Glyph)
      (idx carCol : Z) (x : fixed.Int26_6) :
  Forall (fun g => utf8.RuneLen (text.Rune g) = 1) gs ->
  idx <= caret <= idx + GoInt.len gs ->
  - 2 ^ 61 <= idx -> caret <= 2 ^ 61 ->
  0 <= carCol -> carCol + GoInt.len gs <= 2 ^ 61 ->
  fst (caretGlyphs caret gs idx carCol x) = carCol + (caret - idx).
Proof.
  revert idx carCol x. unfold GoInt.len.
  induction gs as [|g gs IH]; intros idx carCol x Hg Hc Hi Hm H0 Hl.
  - cbn in *. lia.
  - cbn [caretGlyphs]. cbn [length] in Hc, Hl.
    change (2 ^ 61) with 2305843009213693952 in *.
    destruct (Z.eqb_spec idx caret) as [->|Hne]; [cbn [fst]; lia|].
    inversion Hg as [|g' gs' Hg1 Hg2]; subst. rewrite Hg1.
    rewrite !add_small
      by (unfold small; change (2 ^ 61) with 2305843009213693952; lia).
    rewrite IH; try assumption; try lia.
Qed.

Lemma glyphsBefore_past (caret : Z) (gs : list text.Glyph) (idx : Z) :
  Forall (fun g => utf8.RuneLen (text.Rune g) = 1) gs ->
  caret <= idx ->
  glyphsBefore caret idx gs = 0.
Proof.
  revert idx. induction gs as [|g gs IH]; intros idx Hg Hc; [reflexivity|].
  cbn [glyphsBefore]. inversion Hg as [|g' gs' Hg1 Hg2]; subst. rewrite Hg1.
  destruct (Z.ltb_spec idx caret); [lia|].
  rewrite IH; [lia | assumption | lia].
Qed.

Lemma glyphsBefore_single_byte (caret : Z) (gs : list text.Glyph) (idx : Z) :
  Forall (fun g => utf8.RuneLen (text.Rune g) = 1) gs ->
  idx <= caret <= idx + GoInt.len gs ->
  glyphsBefore caret idx gs = caret - idx.
Proof.
  revert idx. unfold GoInt.len.
  induction gs as [|g gs IH]; intros idx Hg Hc.
  - cbn in *. lia.
  - cbn [glyphsBefore]. cbn [length] in Hc.
    inversion Hg as [|g' gs' Hg1 Hg2]; subst. rewrite Hg1.
    destruct (Z.ltb_spec idx caret).
    + rewrite IH; [lia | assumption | lia].
    + rewrite glyphsBefore_past; [lia | assumption | lia].
Qed.

Lemma lineStart_nonneg (ls : list text.Line) (k : nat) :
  Forall singleByteLine ls -> 0 <= lineStart ls k.
Proof.
  revert k. induction ls as [|l rest IH]; intros [|k] H; cbn; try lia.
  inversion H as [|? ? [Hl _] Hr]; subst.
  specialize (IH k Hr). unfold GoInt.len in Hl. lia.
Qed.

Lemma caretLines_single_byte (caret : Z) (ls : list text.Line)
      (carLine idx : Z) (prevDesc : fixed.Int26_6) (y : Z) :
  Forall singleByteLine ls -> ls <> [] ->
  idx <= caret <= idx + lineStart ls (length ls) ->
  0 <= idx -> idx + lineStart ls (length ls) <= 2 ^ 61 ->
  0 <= carLine -> carLine + GoInt.len ls <= 2 ^ 61 ->
  exists (k : nat) (carCol : Z) (x : fixed.Int26_6) (y' : Z),
    caretLines caret ls carLine idx prevDesc y
    = (carLine + Z.of_nat k, carCol, x, y')
    /\ (k < length ls)%nat
    /\ idx + lineStart ls k + carCol = caret
    /\ 0 <= carCol <= GoInt.len (text.Layout (nth k ls (text.mkLine [] 0 0 0 0)))
    /\ carCol = glyphsBefore caret (idx + lineStart ls k)
                             (text.Layout (nth k ls (text.mkLine [] 0 0 0 0))).
Proof.
  revert carLine idx prevDesc y.
  induction ls as [|l rest IH];
    intros carLine idx prevDesc y Hs Hne Hc Hi Ht H0 Hn; [contradiction|].
  inversion Hs as [|? ? [Hl Hg] Hr]; subst.
  pose proof (lineStart_nonneg rest (length rest) Hr) as Hpos.
  cbn [length lineStart] in Hc, Ht.
  unfold GoInt.len in Hn, Hl. cbn [length] in Hn.
  change (2 ^ 61) with 2305843009213693952 in *.
  cbn [caretLines]. cbv zeta.
  assert (Eadd : GoInt.add idx (GoInt.len (text.Layout l))
                 = idx + text.Len l).
  { rewrite Hl. apply add_small; unfold small, GoInt.len;
      change (2 ^ 61) with 2305843009213693952; lia. }
  rewrite Eadd.
  assert (Here : idx <= caret <= idx + GoInt.len (text.Layout l) ->
          exists (carCol : Z) (x : fixed.Int26_6),
            caretGlyphs caret (text.Layout l) idx 0 0 = (carCol, x)
            /\ idx + 0 + carCol = caret
            /\ 0 <= carCol <= GoInt.len (text.Layout l)
            /\ carCol = glyphsBefore caret (idx + 0) (text.Layout l)).
  { intros Hin.
    pose proof (caretGlyphs_single_byte caret (text.Layout l) idx 0 0 Hg Hin)
      as G.
    destruct (caretGlyphs caret (text.Layout l) idx 0 0) as [carCol x].
    cbn [fst] in G. exists carCol, x.
    change (2 ^ 61) with 2305843009213693952 in G.
    unfold GoInt.len in *.
    rewrite G by lia. rewrite Z.add_0_r.
    rewrite glyphsBefore_single_byte by (unfold GoInt.len; assumption).
    repeat split; lia. }
  destruct rest as [|l' rest'].
  - cbn [orb]. cbn [length lineStart] in Hc.
    destruct Here as (carCol & x & E & P1 & P2 & P3);
      [unfold GoInt.len; lia|].
    rewrite E. exists 0%nat, carCol, x.
    eexists. cbn [nth lineStart Z.of_nat length].
    rewrite Z.add_0_r. split; [reflexivity|].
    split; [lia|]. split; [lia|]. split; [lia|]. exact P3.
  - cbn [orb]. destruct (Z.ltb_spec caret (idx + text.Len l)) as [Hlt|Hge].
    + destruct Here as (carCol & x & E & P1 & P2 & P3);
        [unfold GoInt.len; lia|].
      rewrite E. exists 0%nat, carCol, x.
      eexists. cbn [nth lineStart Z.of_nat length].
      rewrite Z.add_0_r. split; [reflexivity|].
      split; [lia|]. split; [lia|]. split; [lia|]. exact P3.
    + rewrite (add_small carLine 1)
        by (unfold small; change (2 ^ 61) with 2305843009213693952; lia).
      rewrite (add_small idx (text.Len l))
        by (unfold small; change (2 ^ 61) with 2305843009213693952; lia).
      destruct (IH (carLine + 1) (idx + text.Len l) (text.Descent l)
                   (GoInt.add y (fixed.Ceil (fixed.add prevDesc (text.Ascent l))))
                   Hr)
        as (k & carCol & x & y' & E & Hk & P1 & P2 & P3);
        try (change (2 ^ 61) with 2305843009213693952);
        try (unfold GoInt.len; cbn [length] in *; lia);
        [discriminate|].
      rewrite E. exists (S k), carCol, x, y'.
      cbn [nth lineStart length].
      split.
      { replace (carLine + Z.of_nat (S k)) with (carLine + 1 + Z.of_nat k)
          by lia.
        reflexivity. }
      split; [cbn [length] in Hk |- *; lia|].
      split; [lia|]. split; [exact P2|].
      rewrite P3. f_equal. lia.
Qed.

(** Where every rune takes one byte, [layoutCaret] is right: the caret's
    byte offset is the start of the line it answers plus the column it
    answers, and the column is the number of glyphs of that line before
    the caret. *)
Lemma layoutCaret_single_byte (e : Editor) :
  Forall singleByteLine (lines e) -> lines e <> [] ->
  0 <= editBuffer.caret (rr e) <= lineStart (lines e) (length (lines e)) ->
  lineStart (lines e) (length (lines e)) <= 2 ^ 61 ->
  GoInt.len (lines e) <= 2 ^ 61 ->
  exists (k : nat) (carCol : Z) (x : fixed.Int26_6) (y : Z) (l : text.Line),
    layoutCaret align e = Some (Z.of_nat k, carCol, x, y)
    /\ nth_error (lines e) k = Some l
    /\ lineStart (lines e) k + carCol = editBuffer.caret (rr e)
    /\ 0 <= carCol <= GoInt.len (text.Layout l)
    /\ carCol = glyphsBefore (editBuffer.caret (rr e))
                             (lineStart (lines e) k) (text.Layout l).
Proof.
  intros Hs Hne Hc Ht Hn. unfold layoutCaret.
  destruct (caretLines_single_byte (editBuffer.caret (rr e)) (lines e)
              0 0 0 0 Hs Hne)
    as (k & carCol & x & y & E & Hk & P1 & P2 & P3);
    try (change (2 ^ 61) with 2305843009213693952 in *; lia).
  rewrite E. cbn [Z.add] in *.
  unfold GoInt.index.
  destruct (Z.ltb_spec (Z.of_nat k) 0); [lia|].
  rewrite Nat2Z.id.
  destruct (nth_error (lines e) k) as [l|] eqn:El;
    [|apply nth_error_None in El; lia].
  rewrite (nth_error_nth _ _ (text.mkLine [] 0 0 0 0) El) in P2, P3.
  cbn [bind]. exists k, carCol. eexists. exists y, l.
  split; [reflexivity|]. repeat split; try assumption; lia.
Qed.

End Caret.

(** C5 on a two-byte rune.  In [sample.accent] the text is "\u00e9\na", laid
    out as the lines "\u00e9\n" (bytes 0 to 2) and "a" (byte 3), and the caret
    is at byte 2, after "\u00e9" on the first line, where two steps to the left
    from the end of the text put it.  [layoutCaret] compares the byte
    index with the number of glyphs of the first line, passes it over,
    and answers line 1, column 1: on that line no glyph precedes the
    caret, and the caret's own line is line 0, where one glyph does. *)
Theorem layoutCaret_two_byte_rune :
  Move accentEnd (-2) = Some sample.accent
  /\ 0 <= editBuffer.caret (rr sample.accent) <= Len sample.accent
  /\ layoutCaret label.align sample.accent = Some (1, 1, 448, 28)
  /\ CaretPos label.align sample.accent = Some (1, 1)
  /\ lineStart (lines sample.accent) 1 = 3
  /\ glyphsBefore (editBuffer.caret (rr sample.accent)) 3 [sample.glyph 97] = 0
  /\ lineStart (lines sample.accent) 0 = 0
  /\ glyphsBefore (editBuffer.caret (rr sample.accent)) 0
                  [sample.glyph 233; sample.nl] = 1.
Proof.
  split; [vm_compute; reflexivity|].
  split; [vm_compute; split; discriminate|].
  repeat split.
Qed.

(** ** Moving the caret to a line (C2) and to a click (C4) *)

Lemma advanceSum_nonneg (gs : list text.Glyph) (k : nat) :
  Forall (fun g => 0 <= text.Advance g) gs -> 0 <= advanceSum gs k.
Proof.
  revert k. induction gs as [|g gs IH]; intros [|k] H; cbn; try lia.
  inversion H as [|? ? Hg Hr]; subst. specialize (IH k Hr). lia.
Qed.

Lemma advanceSum_mono (gs : list text.Glyph) (j : nat) :
  Forall (fun g => 0 <= text.Advance g) gs ->
  advanceSum gs j <= advanceSum gs (length gs).
Proof.
  revert j. induction gs as [|g gs IH]; intros [|j] H; cbn; try lia.
  - inversion H as [|? ? Hg Hr]; subst.
    pose proof (advanceSum_nonneg gs (length gs) Hr). lia.
  - inversion H as [|? ? Hg Hr]; subst. specialize (IH j Hr). lia.
Qed.

Lemma int32_exact (z : Z) : - 2 ^ 31 <= z < 2 ^ 31 -> GoInt.wrap 32 z = z.
Proof. intros H. apply wrap_small; [lia | exact H]. Qed.

(** The last loop of [moveToLine] stops at a position closest to [carX]
    among the positions before and after each glyph it may pass, when the
    advances are not negative and the positions fit the fixed-point
    type; the caret has then moved forward by as many runes. *)
Lemma closestRune_closest (gs : list text.Glyph) (b b' : editBuffer.t)
      (carX carX2 x' : fixed.Int26_6) :
  Forall (fun g => 0 <= text.Advance g) gs ->
  - 2 ^ 29 <= carX <= 2 ^ 29 ->
  - 2 ^ 29 <= carX2 ->
  carX2 + advanceSum gs (length gs) <= 2 ^ 29 ->
  closestRune b carX carX2 gs = Some (b', x') ->
  exists k : nat,
    (k <= length gs)%nat
    /\ x' = carX2 + advanceSum gs k
    /\ forwardRunes k b = Some b'
    /\ forall j : nat,
        (j <= length gs)%nat ->
        Z.abs (carX - x') <= Z.abs (carX - (carX2 + advanceSum gs j)).
Proof.
  revert b carX2. change (2 ^ 29) with 536870912.
  induction gs as [|g gs IH]; intros b carX2 Hg Hx Hlo Hhi H.
  - cbn in H. injection H as <- <-. exists 0%nat. cbn.
    repeat split; try lia.
    intros [|j] Hj; cbn; lia.
  - inversion Hg as [|? ? Hg1 Hg2]; subst.
    pose proof (advanceSum_nonneg gs (length gs) Hg2) as Hs.
    cbn [length advanceSum] in Hhi.
    cbn [closestRune] in H.
    assert (Ea : fixed.add carX2 (text.Advance g) = carX2 + text.Advance g)
      by (apply int32_exact; change (2 ^ 31) with 2147483648; lia).
    assert (Es : fixed.sub carX carX2 = carX - carX2)
      by (apply int32_exact; change (2 ^ 31) with 2147483648; lia).
    assert (Es' : fixed.sub (carX2 + text.Advance g) carX
                  = carX2 + text.Advance g - carX)
      by (apply int32_exact; change (2 ^ 31) with 2147483648; lia).
    rewrite Ea, Es, Es' in H.
    assert (Stay : forall j : nat,
               (j <= length (g :: gs))%nat ->
               carX <= carX2
               \/ carX - carX2 <= carX2 + text.Advance g - carX ->
               Z.abs (carX - carX2)
               <= Z.abs (carX - (carX2 + advanceSum (g :: gs) j))).
    { intros [|j] Hj Hc; cbn [advanceSum]; [lia|].
      pose proof (advanceSum_nonneg gs j Hg2). lia. }
    destruct (Z.leb_spec carX carX2) as [Hle|Hgt].
    { injection H as <- <-. exists 0%nat. cbn [advanceSum forwardRunes].
      split; [lia|]. split; [lia|]. split; [reflexivity|].
      intros j Hj. apply Stay; [exact Hj | now left]. }
    destruct (Z.leb_spec (carX - carX2) (carX2 + text.Advance g - carX))
      as [Hle|Hgt'].
    { injection H as <- <-. exists 0%nat. cbn [advanceSum forwardRunes].
      split; [lia|]. split; [lia|]. split; [reflexivity|].
      intros j Hj. apply Stay; [exact Hj | now right]. }
    unfold bind in H.
    destruct (editBuffer.runeAt b (editBuffer.caret b)) as [[r s]|] eqn:R;
      [|discriminate H].
    apply IH in H; try assumption; try lia.
    destruct H as (k & Hk & Hx' & Hf & Hmin).
    exists (S k). cbn [length advanceSum forwardRunes].
    split; [lia|]. split; [lia|]. split.
    { rewrite R. cbn [bind]. exact Hf. }
    intros [|j] Hj; cbn [advanceSum].
    + specialize (Hmin 0%nat (Nat.le_0_l _)). cbn [advanceSum] in Hmin. lia.
    + specialize (Hmin j). cbn [length] in Hj.
      replace (carX2 + (text.Advance g + advanceSum gs j))
        with (carX2 + text.Advance g + advanceSum gs j) by lia.
      apply Hmin. lia.
Qed.

(** The loop of [moveCoord] answers the first line whose bottom edge is
    at or below the target, counted from [carLine], or the number of
    lines when there is none. *)
Lemma coordLine_first (target : Z) (ls : list text.Line)
      (prevDesc : fixed.Int26_6) (carLine y : Z) :
  0 <= carLine -> carLine + GoInt.len ls <= 2 ^ 61 ->
  exists k : nat,
    coordLine target ls prevDesc carLine y = carLine + Z.of_nat k
    /\ (k <= length ls)%nat
    /\ (forall j : nat, (j < k)%nat -> bottomEdge ls prevDesc y j < target)
    /\ ((k < length ls)%nat -> target <= bottomEdge ls prevDesc y k).
Proof.
  revert prevDesc carLine y. unfold GoInt.len.
  change (2 ^ 61) with 2305843009213693952.
  induction ls as [|l rest IH]; intros prevDesc carLine y H0 Hn.
  - exists 0%nat. cbn. repeat split; try lia.
  - cbn [coordLine]. cbv zeta. cbn [length] in Hn.
    set (y1 := GoInt.add y (fixed.Ceil (fixed.add prevDesc (text.Ascent l)))).
    destruct (Z.leb_spec target (GoInt.add y1 (fixed.Ceil (text.Descent l))))
      as [Hle|Hgt].
    + exists 0%nat. cbn [Z.of_nat length bottomEdge]. fold y1.
      split; [lia|]. split; [lia|]. split; [intros j Hj; lia|].
      intros _. exact Hle.
    + rewrite (add_small carLine 1)
        by (unfold small; change (2 ^ 61) with 2305843009213693952; lia).
      destruct (IH (text.Descent l) (carLine + 1) y1) as (k & E & Hk & Hb & Ha);
        [lia | lia |].
      exists (S k). rewrite E. cbn [length bottomEdge]. fold y1.
      split; [lia|]. split; [lia|]. split.
      * intros [|j] Hj; [exact Hgt | apply Hb; lia].
      * intros Hlt. apply Ha. lia.
Qed.

(** *** Text of one-byte runes *)

Lemma DecodeRune_ascii (b : byte) (s : list byte) :
  utf8.bv b < 128 -> utf8.DecodeRune (b :: s) = (utf8.bv b, 1).
Proof.
  intros H. unfold utf8.DecodeRune.
  destruct (Z.ltb_spec (utf8.bv b) 128); [reflexivity | lia].
Qed.

Lemma DecodeLastRune_ascii (s : list byte) (b : byte) :
  utf8.bv b < 128 -> utf8.DecodeLastRune (s ++ [b]) = (utf8.bv b, 1).
Proof.
  intros H. unfold utf8.DecodeLastRune.
  rewrite length_app. cbn [length]. rewrite Nat.add_1_r.
  rewrite app_nth2 by lia. rewrite Nat.sub_diag. cbn [nth].
  destruct (Z.ltb_spec (utf8.bv b) 128); [reflexivity | lia].
Qed.

Lemma runeAt_ascii (b : editBuffer.t) (idx : Z) :
  ascii (editBuffer.content b) ->
  0 <= idx < editBuffer.len b ->
  exists r, editBuffer.runeAt b idx = Some (r, 1).
Proof.
  intros Ha Hi. unfold editBuffer.runeAt.
  rewrite (proj2 (inside_spec b idx)) by lia.
  unfold editBuffer.len, GoInt.len in Hi.
  destruct (skipn (Z.to_nat idx) (editBuffer.content b)) as [|c s] eqn:E.
  - apply (f_equal (@length byte)) in E. rewrite length_skipn in E.
    cbn in E. lia.
  - assert (Hc : In c (editBuffer.content b)).
    { rewrite <- (firstn_skipn (Z.to_nat idx)). rewrite E.
      apply in_or_app. right. left. reflexivity. }
    unfold ascii in Ha. rewrite Forall_forall in Ha.
    rewrite (DecodeRune_ascii c s (Ha c Hc)). eauto.
Qed.

Lemma runeBefore_ascii (b : editBuffer.t) (idx : Z) :
  ascii (editBuffer.content b) ->
  0 < idx <= editBuffer.len b ->
  exists r, editBuffer.runeBefore b idx = Some (r, 1).
Proof.
  intros Ha Hi. unfold editBuffer.runeBefore.
  rewrite (proj2 (inside_spec b idx)) by lia.
  unfold editBuffer.len, GoInt.len in Hi.
  destruct (exists_last (l := firstn (Z.to_nat idx) (editBuffer.content b)))
    as (s & c & E).
  { intros E. apply (f_equal (@length byte)) in E.
    rewrite length_firstn in E. cbn in E. lia. }
  rewrite E.
  assert (Hc : In c (editBuffer.content b)).
  { rewrite <- (firstn_skipn (Z.to_nat idx)). rewrite E.
    apply in_or_app. left. apply in_or_app. right. left. reflexivity. }
  unfold ascii in Ha. rewrite Forall_forall in Ha.
  rewrite (DecodeLastRune_ascii s c (Ha c Hc)). eauto.
Qed.

Lemma backRunes_ascii (n : nat) (b : editBuffer.t) :
  ascii (editBuffer.content b) ->
  Z.of_nat n <= editBuffer.caret b <= editBuffer.len b ->
  editBuffer.len b <= 2 ^ 61 ->
  backRunes n b
  = Some (editBuffer.with_caret (editBuffer.caret b - Z.of_nat n) b).
Proof.
  change (2 ^ 61) with 2305843009213693952.
  revert b. induction n as [|n IH]; intros b Ha Hc Hl.
  - cbn [backRunes Z.of_nat]. rewrite Z.sub_0_r. now destruct b.
  - cbn [backRunes].
    destruct (runeBefore_ascii b (editBuffer.caret b) Ha) as [r ->]; [lia|].
    cbn [bind].
    rewrite sub_small
      by (unfold small; change (2 ^ 61) with 2305843009213693952; lia).
    rewrite IH; cbn [editBuffer.with_caret editBuffer.caret editBuffer.content];
      try assumption; try (unfold editBuffer.len in *; cbn; lia).
    f_equal. unfold editBuffer.with_caret. cbn. f_equal. lia.
Qed.

Lemma forwardRunes_ascii (n : nat) (b : editBuffer.t) :
  ascii (editBuffer.content b) ->
  0 <= editBuffer.caret b ->
  editBuffer.caret b + Z.of_nat n <= editBuffer.len b ->
  editBuffer.len b <= 2 ^ 61 ->
  forwardRunes n b
  = Some (editBuffer.with_caret (editBuffer.caret b + Z.of_nat n) b).
Proof.
  change (2 ^ 61) with 2305843009213693952.
  revert b. induction n as [|n IH]; intros b Ha H0 Hc Hl.
  - cbn [forwardRunes Z.of_nat]. rewrite Z.add_0_r. now destruct b.
  - cbn [forwardRunes].
    destruct (runeAt_ascii b (editBuffer.caret b) Ha) as [r ->]; [lia|].
    cbn [bind].
    rewrite add_small
      by (unfold small; change (2 ^ 61) with 2305843009213693952; lia).
    rewrite IH; cbn [editBuffer.with_caret editBuffer.caret editBuffer.content];
      try assumption; try (unfold editBuffer.len in *; cbn; lia).
    f_equal. unfold editBuffer.with_caret. cbn. f_equal. lia.
Qed.

Lemma closestRune_ascii (gs : list text.Glyph) (b : editBuffer.t)
      (carX carX2 : fixed.Int26_6) :
  ascii (editBuffer.content b) ->
  0 <= editBuffer.caret b ->
  editBuffer.caret b + GoInt.len gs <= editBuffer.len b ->
  editBuffer.len b <= 2 ^ 61 ->
  exists b' x', closestRune b carX carX2 gs = Some (b', x').
Proof.
  change (2 ^ 61) with 2305843009213693952. unfold GoInt.len.
  revert b carX2. induction gs as [|g gs IH]; intros b carX2 Ha H0 Hc Hl.
  - cbn. eauto.
  - cbn [closestRune]. cbn [length] in Hc.
    destruct (carX <=? carX2); [eauto|].
    destruct (fixed.sub carX carX2
              <=? fixed.sub (fixed.add carX2 (text.Advance g)) carX); [eauto|].
    destruct (runeAt_ascii b (editBuffer.caret b) Ha) as [r ->]; [lia|].
    cbn [bind].
    rewrite add_small
      by (unfold small; change (2 ^ 61) with 2305843009213693952; lia).
    apply IH; cbn [editBuffer.with_caret editBuffer.caret editBuffer.content];
      try assumption; try (unfold editBuffer.len in *; cbn; lia).
Qed.

Lemma sumLen_nonneg (ls : list text.Line) :
  Forall (fun l => 0 <= text.Len l) ls -> 0 <= sumLen ls.
Proof.
  induction 1 as [|l ls Hl _ IH]; cbn; lia.
Qed.

Lemma sumLen_app (l1 l2 : list text.Line) :
  sumLen (l1 ++ l2) = sumLen l1 + sumLen l2.
Proof. induction l1 as [|l l1 IH]; cbn; lia. Qed.

Lemma sumLen_rev (ls : list text.Line) : sumLen (rev ls) = sumLen ls.
Proof.
  induction ls as [|l ls IH]; [reflexivity|].
  cbn [rev]. rewrite sumLen_app, IH. cbn. lia.
Qed.

Lemma fold_add_sumLen (ls : list text.Line) (c : Z) :
  Forall (fun l => 0 <= text.Len l) ls ->
  0 <= c -> c + sumLen ls <= 2 ^ 61 ->
  fold_left (fun c l => GoInt.add c (text.Len l)) ls c = c + sumLen ls.
Proof.
  change (2 ^ 61) with 2305843009213693952.
  revert c. induction ls as [|l ls IH]; intros c H H0 Hm.
  - cbn. lia.
  - inversion H as [|? ? Hl Hr]; subst. cbn [fold_left sumLen].
    cbn [sumLen] in Hm.
    pose proof (sumLen_nonneg ls Hr).
    rewrite add_small
      by (unfold small; change (2 ^ 61) with 2305843009213693952; lia).
    rewrite IH; [lia | assumption | lia | lia].
Qed.

Lemma fold_sub_sumLen (ls : list text.Line) (c : Z) :
  Forall (fun l => 0 <= text.Len l) ls ->
  c <= 2 ^ 61 -> 0 <= c - sumLen ls ->
  fold_left (fun c l => GoInt.sub c (text.Len l)) ls c = c - sumLen ls.
Proof.
  change (2 ^ 61) with 2305843009213693952.
  revert c. induction ls as [|l ls IH]; intros c H H0 Hm.
  - cbn. lia.
  - inversion H as [|? ? Hl Hr]; subst. cbn [fold_left sumLen].
    cbn [sumLen] in Hm.
    pose proof (sumLen_nonneg ls Hr).
    rewrite sub_small
      by (unfold small; change (2 ^ 61) with 2305843009213693952; lia).
    rewrite IH; [lia | assumption | lia | lia].
Qed.

Lemma sumLen_between (ls : list text.Line) (n m : nat) :
  (n <= m <= length ls)%nat ->
  sumLen (firstn (m - n) (skipn n ls)) = lineStart ls m - lineStart ls n.
Proof.
  revert ls m. induction n as [|n IH]; intros ls m H.
  - rewrite Nat.sub_0_r. cbn [skipn].
    replace (lineStart ls 0) with 0 by (destruct ls; reflexivity).
    rewrite Z.sub_0_r. clear H. revert ls.
    induction m as [|m IHm]; intros [|l ls]; cbn [firstn sumLen lineStart];
      try reflexivity.
    now rewrite IHm.
  - destruct ls as [|l ls]; [cbn in H; lia|].
    destruct m as [|m]; [lia|].
    cbn [skipn lineStart Nat.sub]. rewrite IH by (cbn in H; lia). lia.
Qed.

Lemma linesBetween_sumLen (ls : list text.Line) (n m : nat) :
  (n <= m <= length ls)%nat ->
  sumLen (linesBetween ls (Z.of_nat n) (Z.of_nat m))
  = lineStart ls m - lineStart ls n.
Proof.
  intros H. unfold linesBetween.
  replace (Z.to_nat (Z.of_nat m - Z.of_nat n)) with (m - n)%nat by lia.
  rewrite Nat2Z.id. now apply sumLen_between.
Qed.

Lemma lineStart_mono (ls : list text.Line) (n m : nat) :
  Forall singleByteLine ls -> (n <= m)%nat ->
  lineStart ls n <= lineStart ls m.
Proof.
  intros Hs. revert n m.
  induction Hs as [|l ls [Hl _] _ IH]; intros n m H.
  - destruct n, m; cbn; lia.
  - destruct n as [|n], m as [|m]; cbn [lineStart]; try lia.
    + pose proof (IH 0%nat m (Nat.le_0_l _)).
      replace (lineStart ls 0) with 0 in * by (destruct ls; reflexivity).
      unfold GoInt.len in Hl. lia.
    + specialize (IH n m). lia.
Qed.

Lemma Forall_firstn_skipn {A : Type} (P : A -> Prop) (n : nat) (l : list A) :
  Forall P l -> Forall P (firstn n l) /\ Forall P (skipn n l).
Proof.
  intros H. rewrite <- (firstn_skipn n l) in H.
  now apply Forall_app in H.
Qed.

Lemma lineStart_S (ls : list text.Line) (k : nat) (l : text.Line) :
  nth_error ls k = Some l -> lineStart ls (S k) = lineStart ls k + text.Len l.
Proof.
  revert k. induction ls as [|l0 ls IH]; intros [|k] H; try discriminate H.
  - cbn in H. injection H as ->. cbn [lineStart].
    replace (lineStart ls 0) with 0 by (destruct ls; reflexivity). lia.
  - cbn [nth_error] in H.
    change (lineStart (l0 :: ls) (S (S k)))
      with (text.Len l0 + lineStart ls (S k)).
    change (lineStart (l0 :: ls) (S k)) with (text.Len l0 + lineStart ls k).
    rewrite (IH k H). lia.
Qed.

Lemma singleByteLine_Len (ls : list text.Line) :
  Forall singleByteLine ls -> Forall (fun l => 0 <= text.Len l) ls.
Proof.
  apply Forall_impl. intros l [H _]. unfold GoInt.len in H. lia.
Qed.

Lemma clampLine_range (e : Editor) (carLine2 : Z) :
  lines e <> [] -> GoInt.len (lines e) <= 2 ^ 61 ->
  clampLine e carLine2
  = Z.max 0 (Z.min carLine2 (GoInt.len (lines e) - 1))
  /\ 0 <= clampLine e carLine2 < GoInt.len (lines e).
Proof.
  intros Hne Hl. unfold clampLine.
  assert (0 < GoInt.len (lines e)).
  { unfold GoInt.len. destruct (lines e); [contradiction | cbn; lia]. }
  rewrite sub_small
    by (unfold small in *; change (2 ^ 61) with 2305843009213693952 in *; lia).
  destruct (Z.ltb_spec carLine2 0);
    [destruct (Z.leb_spec (GoInt.len (lines e)) 0)
    |destruct (Z.leb_spec (GoInt.len (lines e)) carLine2)]; lia.
Qed.

Section MoveToLine.

Variable align : text.Alignment -> fixed.Int26_6 -> Z -> fixed.Int26_6.

(** Where every rune takes one byte, [moveToLine] is right: it
    moves the caret onto the clamped target line, to the rune whose
    position is closest to [carX] among those it may reach (all but the
    last of a line that is not the last), and returns [carX] minus the
    position reached. *)
Lemma moveToLine_single_byte (e : Editor) (carX : fixed.Int26_6)
      (carLine2 : Z) (l2 : text.Line) :
  oneByteLayout e ->
  let c := Z.to_nat (clampLine e carLine2) in
  nth_error (lines e) c = Some l2 ->
  let a := align (Alignment e) (text.Width l2) (image.X (viewSize e)) in
  let gs := firstn (Z.to_nat (GoInt.len (text.Layout l2)
                              - lineEnd e (clampLine e carLine2)))
                   (text.Layout l2) in
  - 2 ^ 29 <= carX <= 2 ^ 29 ->
  - 2 ^ 29 <= a ->
  a + advanceSum gs (length gs) <= 2 ^ 29 ->
  exists k : nat,
    (k <= length gs)%nat
    /\ moveToLine align e carX carLine2
       = Some (set_rr (editBuffer.with_caret
                         (lineStart (lines e) c + Z.of_nat k) (rr e)) e,
               carX - (a + advanceSum gs k))
    /\ forall j : nat,
        (j <= length gs)%nat ->
        Z.abs (carX - (a + advanceSum gs k))
        <= Z.abs (carX - (a + advanceSum gs j)).
Proof.
  intros (Ha & Hs & Hadv & Hne & Htot & Hc & Hl & Hn) c Hl2 a gs Hx Hlo Hhi.
  destruct (layoutCaret_single_byte align e Hs Hne)
    as (k0 & carCol & x & y & l & EL & Hk0 & P1 & P2 & _);
    [rewrite Htot; exact Hc | rewrite Htot; exact Hl | exact Hn |].
  destruct (clampLine_range e carLine2 Hne Hn) as (_ & Hcl).
  assert (Ec : clampLine e carLine2 = Z.of_nat c) by (subst c; lia).
  pose proof (lineStart_nonneg (lines e) k0 Hs) as Hk0pos.
  pose proof (lineStart_nonneg (lines e) c Hs) as Hcpos.
  assert (Hk0len : (k0 < length (lines e))%nat)
    by (apply nth_error_Some; congruence).
  assert (Hclen : (c < length (lines e))%nat)
    by (apply nth_error_Some; congruence).
  pose proof (lineStart_mono (lines e) k0 (length (lines e)) Hs
                (Nat.lt_le_incl _ _ Hk0len)) as Mk0.
  pose proof (lineStart_mono (lines e) (S c) (length (lines e)) Hs Hclen)
    as Mc.
  rewrite (lineStart_S (lines e) c l2 Hl2) in Mc. rewrite Htot in Mk0, Mc.
  assert (Hl2s : singleByteLine l2).
  { rewrite Forall_forall in Hs. apply Hs. eapply nth_error_In. exact Hl2. }
  destruct Hl2s as [Hlen2 _].
  assert (Hlen2pos : 0 <= text.Len l2) by (unfold GoInt.len in Hlen2; lia).
  change (2 ^ 61) with 2305843009213693952 in *.
  unfold moveToLine. rewrite EL. cbn [bind].
  rewrite backRunes_ascii;
    [ | exact Ha | fold (Len e); lia
      | fold (Len e); change (2 ^ 61) with 2305843009213693952; lia ].
  cbn [bind]. rewrite Z2Nat.id by lia.
  set (b1 := editBuffer.with_caret (editBuffer.caret (rr e) - carCol) (rr e)).
  assert (Ecar :
    (if clampLine e carLine2 =? Z.of_nat k0 then editBuffer.caret b1
     else if Z.of_nat k0 <? clampLine e carLine2
          then fold_left (fun c0 l0 => GoInt.add c0 (text.Len l0))
                 (linesBetween (lines e) (Z.of_nat k0) (clampLine e carLine2))
                 (editBuffer.caret b1)
          else fold_left (fun c0 l0 => GoInt.sub c0 (text.Len l0))
                 (rev (linesBetween (lines e) (clampLine e carLine2)
                                    (Z.of_nat k0)))
                 (editBuffer.caret b1))
    = lineStart (lines e) c).
  { rewrite Ec. subst b1. cbn [editBuffer.with_caret editBuffer.caret].
    replace (editBuffer.caret (rr e) - carCol) with (lineStart (lines e) k0)
      by lia.
    destruct (Z.eqb_spec (Z.of_nat c) (Z.of_nat k0)) as [E|N].
    - apply Nat2Z.inj in E. now rewrite E.
    - destruct (Z.ltb_spec (Z.of_nat k0) (Z.of_nat c)) as [Lt|Ge].
      + pose proof (linesBetween_sumLen (lines e) k0 c) as S.
        rewrite fold_add_sumLen.
        * rewrite S by lia. lia.
        * apply singleByteLine_Len. unfold linesBetween.
          apply Forall_firstn_skipn. apply Forall_firstn_skipn. exact Hs.
        * exact Hk0pos.
        * rewrite S by lia. change (2 ^ 61) with 2305843009213693952. lia.
      + pose proof (linesBetween_sumLen (lines e) c k0) as S.
        rewrite fold_sub_sumLen.
        * rewrite sumLen_rev, S by lia. lia.
        * apply Forall_rev. apply singleByteLine_Len. unfold linesBetween.
          apply Forall_firstn_skipn. apply Forall_firstn_skipn. exact Hs.
        * change (2 ^ 61) with 2305843009213693952. lia.
        * rewrite sumLen_rev, S by lia. lia. }
  rewrite Ecar. clear Ecar.
  assert (Ei : GoInt.index (lines e) (clampLine e carLine2) = Some l2).
  { unfold GoInt.index. rewrite Ec.
    destruct (Z.ltb_spec (Z.of_nat c) 0); [lia|]. now rewrite Nat2Z.id. }
  rewrite Ei. cbn [bind]. fold a.
  assert (Hend : 0 <= lineEnd e (clampLine e carLine2) <= 1).
  { unfold lineEnd. destruct (_ <? _); lia. }
  rewrite (sub_small (GoInt.len (text.Layout l2)))
    by (unfold small; change (2 ^ 61) with 2305843009213693952; lia).
  fold gs.
  set (b2 := editBuffer.with_caret (lineStart (lines e) c) b1).
  assert (Hgs : GoInt.len gs <= GoInt.len (text.Layout l2)).
  { unfold gs, GoInt.len. rewrite length_firstn. lia. }
  assert (Hb2 : editBuffer.content b2 = editBuffer.content (rr e)
                /\ editBuffer.caret b2 = lineStart (lines e) c
                /\ editBuffer.len b2 = Len e) by (repeat split).
  destruct Hb2 as (B1 & B2 & B3).
  destruct (closestRune_ascii gs b2 carX a) as (b' & x' & ECl);
    [ rewrite B1; exact Ha | lia | lia
    | rewrite B3; change (2 ^ 61) with 2305843009213693952; lia | ].
  rewrite ECl. cbn [bind].
  apply closestRune_closest in ECl; try assumption.
  2:{ apply Forall_firstn_skipn. rewrite Forall_forall in Hadv.
      apply Hadv. eapply nth_error_In. exact Hl2. }
  destruct ECl as (k & Hk & Hx' & Hf & Hmin).
  rewrite forwardRunes_ascii in Hf;
    [ | rewrite B1; exact Ha | lia | unfold GoInt.len in *; lia
      | rewrite B3; change (2 ^ 61) with 2305843009213693952; lia ].
  injection Hf as <-. subst x'.
  exists k. split; [exact Hk|]. split; [|exact Hmin].
  pose proof (advanceSum_nonneg gs k) as N1.
  pose proof (advanceSum_mono gs k) as N2.
  assert (Hg : Forall (fun g => 0 <= text.Advance g) gs).
  { apply Forall_firstn_skipn. rewrite Forall_forall in Hadv.
    apply Hadv. eapply nth_error_In. exact Hl2. }
  specialize (N1 Hg). specialize (N2 Hg).
  assert (Esub : fixed.sub carX (a + advanceSum gs k)
                 = carX - (a + advanceSum gs k)).
  { unfold fixed.sub. apply int32_exact.
    change (2 ^ 29) with 536870912 in *.
    change (2 ^ 31) with 2147483648. lia. }
  rewrite Esub. reflexivity.
Qed.

(** Where every rune takes one byte, [moveCoord] is right: the
    caret goes to the line [coordLine] selects, brought into the lines,
    and on it to the rune closest to the horizontal position of the
    press. *)
Lemma moveCoord_single_byte (e : Editor) (pos : image.Point) (l2 : text.Line) :
  oneByteLayout e ->
  let carLine := coordLine (GoInt.add (image.Y pos) (image.Y (scrollOff e)))
                           (lines e) 0 0 0 in
  let carX := fixed.I (GoInt.add (image.X pos) (image.X (scrollOff e))) in
  let c := Z.to_nat (clampLine e carLine) in
  nth_error (lines e) c = Some l2 ->
  let a := align (Alignment e) (text.Width l2) (image.X (viewSize e)) in
  let gs := firstn (Z.to_nat (GoInt.len (text.Layout l2)
                              - lineEnd e (clampLine e carLine)))
                   (text.Layout l2) in
  - 2 ^ 29 <= carX <= 2 ^ 29 ->
  - 2 ^ 29 <= a ->
  a + advanceSum gs (length gs) <= 2 ^ 29 ->
  exists k : nat,
    (k <= length gs)%nat
    /\ moveCoord align e pos
       = Some (set_rr (editBuffer.with_caret
                         (lineStart (lines e) c + Z.of_nat k) (rr e)) e)
    /\ forall j : nat,
        (j <= length gs)%nat ->
        Z.abs (carX - (a + advanceSum gs k))
        <= Z.abs (carX - (a + advanceSum gs j)).
Proof.
  intros Hw carLine carX c Hl2 a gs Hx Hlo Hhi.
  destruct (moveToLine_single_byte e carX carLine l2 Hw Hl2 Hx Hlo Hhi)
    as (k & Hk & E & Hmin).
  exists k. split; [exact Hk|]. split; [|exact Hmin].
  unfold moveCoord. fold carLine. fold carX. rewrite E. reflexivity.
Qed.

End MoveToLine.

(** [twoLines] holds "a\nb" with the caret at the end, on line 1: moved
    to line 0 at [carX = 0], the caret goes to byte 0. *)
Example moveToLine_single_byte_example :
  oneByteLayout twoLines
  /\ exists e',
      moveToLine label.align twoLines 0 0 = Some (e', 0)
      /\ editBuffer.caret (rr e') = 0.
Proof.
  assert (W : oneByteLayout twoLines).
  { unfold oneByteLayout, ascii, singleByteLine.
    split; [repeat constructor|].
    split; [repeat constructor|].
    split; [repeat constructor; vm_compute; discriminate|].
    split; [discriminate|]. split; [reflexivity|].
    split; [vm_compute; split; discriminate|].
    split; vm_compute; discriminate. }
  split; [exact W|].
  destruct (moveToLine_single_byte label.align twoLines 0 0
              (sample.line [sample.glyph 97; sample.nl] 2) W eq_refl)
    as (k & Hk & E & Hmin).
  - vm_compute. split; discriminate.
  - vm_compute. discriminate.
  - vm_compute. discriminate.
  - assert (K : k = 0%nat).
    { specialize (Hmin 0%nat (Nat.le_0_l _)).
      destruct k as [|[|k]]; [reflexivity | | vm_compute in Hk; lia].
      vm_compute in Hmin. exfalso. apply Hmin. reflexivity. }
    subst k. rewrite E. eexists. split; [reflexivity|]. reflexivity.
Qed.

(** C2 on a two-byte rune.  In [sample.accent] (text "\u00e9\na", caret at
    byte 2 on the first line) [moveToLine] starts from the line and
    column of [layoutCaret], line 1 and column 1.  Asked for line 0 at
    [carX = 0], it steps one rune back, to byte 0, takes the length of
    line 0 off, and leaves the caret at byte -3, outside the text, where
    line 0 starts at byte 0.  Asked for line 0 at [carX = 448], it then
    reads the rune at byte -3 and panics, and so does the Up key.  Asked
    for line 1 at [carX = 0], it leaves the caret at byte 0, on line 0,
    where line 1 starts at byte 3. *)
Theorem moveToLine_two_byte_rune :
  (exists e',
      moveToLine label.align sample.accent 0 0 = Some (e', 0)
      /\ editBuffer.caret (rr e') = -3
      /\ lineStart (lines sample.accent) 0 = 0)
  /\ moveToLine label.align sample.accent 448 0 = None
  /\ command label.align sample.accent (key.mkEvent key.NameUpArrow 0) = None
  /\ (exists e',
         moveToLine label.align sample.accent 0 1 = Some (e', 0)
         /\ editBuffer.caret (rr e') = 0
         /\ lineStart (lines sample.accent) 1 = 3).
Proof.
  split; [|split; [|split]].
  - eexists. split; [vm_compute; reflexivity|]. split; reflexivity.
  - vm_compute. reflexivity.
  - vm_compute. reflexivity.
  - eexists. split; [vm_compute; reflexivity|]. split; reflexivity.
Qed.

(** C4 on a two-byte rune.  A press at the top left corner of
    [sample.accent] selects line 0, whose bottom edge is at 16, and
    [moveToLine] leaves the caret at byte -3 instead of byte 0; a press
    seven pixels to the right panics. *)
Theorem moveCoord_two_byte_rune :
  coordLine (0 + image.Y (scrollOff sample.accent)) (lines sample.accent) 0 0 0
  = 0
  /\ (exists e',
         moveCoord label.align sample.accent (image.mkPoint 0 0) = Some e'
         /\ editBuffer.caret (rr e') = -3)
  /\ moveCoord label.align sample.accent (image.mkPoint 7 0) = None.
Proof.
  split; [reflexivity|]. split.
  - eexists. split; [vm_compute; reflexivity|]. reflexivity.
  - vm_compute. reflexivity.
Qed.

(** ** The colour of the progress bar's track (C8) *)

(** C8: [Layout] draws the track with the constant [ProgressBarGray] and
    never reads [BackgroundColor]: two progress bars that differ only in
    that field record the same operations in every context and for every
    progress, whatever [Fill], the stack and the float arithmetic do. *)
Theorem track_ignores_BackgroundColor
        (float64 : Type) (fdiv fmul : float64 -> float64 -> float64)
        (fgt : float64 -> float64 -> bool) (ofInt : Z -> float64)
        (toInt : float64 -> Z) (f100 : float64)
        (Fill : materialplus.Context -> color.RGBA -> Z -> Z
                -> materialplus.Context)
        (ProgressBarGray : color.RGBA)
        (Stacked : (materialplus.Context -> materialplus.Context)
                   -> materialplus.Context -> materialplus.Context)
        (height : Z) (bg1 bg2 progressColor : color.RGBA)
        (gtx : materialplus.Context) (progress : float64) :
  let p1 := materialplus.mkProgressBar height bg1 progressColor in
  let p2 := materialplus.mkProgressBar height bg2 progressColor in
  materialplus.Layout float64 fdiv fmul fgt ofInt toInt f100 Fill
                      ProgressBarGray Stacked p1 gtx progress
  = materialplus.Layout float64 fdiv fmul fgt ofInt toInt f100 Fill
                        ProgressBarGray Stacked p2 gtx progress
  /\ materialplus.track Fill ProgressBarGray p1 gtx
     = Fill (materialplus.mkContext
               (materialplus.Constraints gtx)
               (materialplus.Ops gtx
                ++ [materialplus.ClipRect (materialplus.WidthMax gtx) height
                                          (Z.quot height 5)])
               (materialplus.Dimensions gtx))
            ProgressBarGray (materialplus.WidthMax gtx) height
  /\ materialplus.track Fill ProgressBarGray p1 gtx
     = materialplus.track Fill ProgressBarGray p2 gtx.
Proof. repeat split. Qed.

(** * Further properties of the editor *)

(** ** Scrolling *)

Section FurtherScrolling.

Variable align : text.Alignment -> fixed.Int26_6 -> Z -> fixed.Int26_6.
Variable linesDimens : list text.Line -> layout.Dimensions.
Variable maskedReader : Z -> list byte -> list byte.
Variable inf : Z.

Lemma scrollAbs_set (e : Editor) (x y : Z) :
  scrollAbs align e x y
  = set_scrollOff (scrollOff (scrollAbs align e x y)) e.
Proof. reflexivity. Qed.

Lemma set_scrollOff_twice (e : Editor) (p q : image.Point) :
  set_scrollOff p (set_scrollOff q e) = set_scrollOff p e.
Proof. reflexivity. Qed.

Lemma scrollAbs_fixed (e : Editor) (x y : Z) :
  let e' := scrollAbs align e x y in
  scrollAbs align e' (image.X (scrollOff e')) (image.Y (scrollOff e')) = e'
  /\ (small (image.X (scrollOff e')) -> small (image.Y (scrollOff e')) ->
      scrollRel align e' 0 0 = e').
Proof.
  intros e'.
  assert (I : scrollAbs align e' (image.X (scrollOff e'))
                        (image.Y (scrollOff e')) = e').
  { subst e'. set (p := scrollOff (scrollAbs align e x y)).
    assert (P : p = image.mkPoint
                      (Z.max (image.X (image.Min (scrollBounds align e)))
                             (Z.min x (image.X (image.Max (scrollBounds align e)))))
                      (Z.max (image.Y (image.Min (scrollBounds align e)))
                             (Z.min y (image.Y (image.Max (scrollBounds align e))))))
      by apply scrollAbs_offset.
    rewrite (scrollAbs_set e x y). fold p. clearbody p.
    rewrite scrollAbs_set, scrollAbs_offset, scrollBounds_set_scrollOff.
    rewrite set_scrollOff_twice. f_equal. rewrite P.
    generalize (scrollBounds align e). intros b.
    cbn [image.X image.Y]. f_equal; lia. }
  split; [exact I|].
  intros Hx Hy. unfold scrollRel.
  rewrite !add_small
    by (try assumption; unfold small;
        change (2 ^ 61) with 2305843009213693952; lia).
  rewrite !Z.add_0_r. exact I.
Qed.

(** Scrolling is idempotent: a request for the offset the editor
    already has after [scrollAbs] changes nothing, and neither does
    [scrollRel(0, 0)], the adjustment [layout] makes in every frame. *)
Theorem scrollAbs_idempotent (e : Editor) (x y : Z) :
  let e' := scrollAbs align e x y in
  scrollAbs align e' (image.X (scrollOff e')) (image.Y (scrollOff e')) = e'
  /\ (small (image.X (scrollOff e')) -> small (image.Y (scrollOff e')) ->
      scrollRel align e' 0 0 = e').
Proof. apply scrollAbs_fixed. Qed.

Lemma clamped_on_axis (e : Editor) :
  clampedTo (scrollBounds align e) (scrollOff e) -> scrollsOnAxis e.
Proof.
  unfold clampedTo, scrollsOnAxis, scrollBounds.
  destruct (SingleLine e); cbn [image.X image.Y image.Min image.Max image.ZP];
    intros (Hx & Hy & Hx' & Hy'); split; intros E; try discriminate E; lia.
Qed.

(** A multi-line editor never scrolls sideways and a single-line editor
    never scrolls up or down: after [scrollAbs], [scrollRel],
    [scrollToCaret], [layout] and [Layout] the offset across the scroll
    axis is 0, whatever offset was asked for. *)
Theorem scroll_stays_on_axis (e : Editor) :
  (forall x y, scrollsOnAxis (scrollAbs align e x y))
  /\ (forall dx dy, scrollsOnAxis (scrollRel align e dx dy))
  /\ (forall e', scrollToCaret align e = Some e' -> scrollsOnAxis e')
  /\ (forall gtx e',
         layout align linesDimens maskedReader e gtx = Some e' ->
         scrollsOnAxis e')
  /\ (forall gtx sh fnt px e',
         Layout align linesDimens maskedReader inf e gtx sh fnt px = Some e' ->
         scrollsOnAxis e').
Proof.
  split; [|split; [|split; [|split]]].
  - intros x y. apply clamped_on_axis, scrollAbs_clamped.
  - intros dx dy. apply clamped_on_axis, scrollAbs_clamped.
  - intros e' H. apply scrollToCaret_is_scrollRel in H.
    destruct H as (dx & dy & ->). apply clamped_on_axis, scrollAbs_clamped.
  - intros gtx e' H. apply clamped_on_axis.
    apply layout_ends_with_scrollRel in H.
    destruct H as (e1 & dx & dy & -> & ->). apply scrollAbs_clamped.
  - intros gtx sh fnt px e' H. apply clamped_on_axis.
    apply Layout_ends_with_layout in H. destruct H as (e0 & H).
    apply layout_ends_with_scrollRel in H.
    destruct H as (e1 & dx & dy & -> & ->). apply scrollAbs_clamped.
Qed.

(** Content that fits the viewport along the scroll axis cannot be
    scrolled: whatever offset is asked for, [scrollAbs] leaves the offset
    at the minimum of the scroll bounds, which is the origin in
    multi-line mode.  (Sizes below [2^61], so that no [int] wraps.) *)
Theorem scroll_pinned_when_content_fits (e : Editor) (x y : Z) :
  small (along e (layout.Size (dims e))) ->
  small (along e (viewSize e)) ->
  small (along e (image.Min (scrollBounds align e))) ->
  along e (layout.Size (dims e)) <= along e (viewSize e) ->
  scrollOff (scrollAbs align e x y) = image.Min (scrollBounds align e)
  /\ (SingleLine e = false -> scrollOff (scrollAbs align e x y) = image.ZP).
Proof.
  intros Hd Hv Hm Hfit.
  assert (E : scrollOff (scrollAbs align e x y)
              = image.Min (scrollBounds align e)).
  { rewrite scrollAbs_offset. revert Hd Hv Hm Hfit.
    unfold along, scrollBounds, small, GoInt.sub, GoInt.add.
    change (2 ^ 61) with 2305843009213693952.
    destruct (SingleLine e);
      cbn [image.X image.Y image.Min image.Max image.ZP];
      intros Hd Hv Hm Hfit.
    - set (minX := match lines e with
                   | [] => 0
                   | l0 :: _ =>
                     if 0 <? fixed.Floor (align (Alignment e) (text.Width l0)
                                                (image.X (viewSize e)))
                     then 0
                     else fixed.Floor (align (Alignment e) (text.Width l0)
                                             (image.X (viewSize e)))
                   end) in *.
      clearbody minX.
      rewrite (wrap_small 64 (image.X (layout.Size (dims e)) + minX))
        by (change (2 ^ (64 - 1)) with 9223372036854775808; lia).
      rewrite wrap_small
        by (change (2 ^ (64 - 1)) with 9223372036854775808; lia).
      f_equal; lia.
    - rewrite wrap_small
        by (change (2 ^ (64 - 1)) with 9223372036854775808; lia).
      unfold image.ZP. f_equal; lia. }
  split; [exact E|].
  intros S. rewrite E. unfold scrollBounds. rewrite S. reflexivity.
Qed.

End FurtherScrolling.

(** [sample.tall] scrolled to offset 99 ends at offset 6, and asking for
    offset 6 again, or scrolling by nothing, leaves it there. *)
Lemma scrollAbs_idempotent_witness :
  let e' := scrollAbs label.align sample.tall 0 99 in
  scrollOff e' = image.mkPoint 0 6
  /\ scrollAbs label.align e' 0 6 = e'
  /\ scrollRel label.align e' 0 0 = e'.
Proof.
  intros e'.
  destruct (scrollAbs_idempotent label.align sample.tall 0 99) as [I R].
  split; [reflexivity|]. split; [exact I|].
  apply R; vm_compute; split; discriminate.
Defined.

(** The multi-line editor [sample.tall], asked for the offset (5, 3),
    scrolls to (0, 3); the single-line editor [singleLineAB], asked for
    the same, has no vertical offset. *)
Lemma scroll_stays_on_axis_witness :
  image.X (scrollOff (scrollAbs label.align sample.tall 5 3)) = 0
  /\ image.Y (scrollOff (scrollAbs label.align sample.tall 5 3)) = 3
  /\ image.Y (scrollOff (scrollAbs label.align singleLineAB 5 3)) = 0.
Proof.
  destruct (scroll_stays_on_axis label.align label.linesDimens
              label.maskedReader label.inf sample.tall) as [A _].
  destruct (scroll_stays_on_axis label.align label.linesDimens
              label.maskedReader label.inf singleLineAB) as [B _].
  split; [|split].
  - apply (A 5 3). reflexivity.
  - reflexivity.
  - apply (B 5 3). reflexivity.
Defined.

(** [sample.small] shows 16 pixels of text in a viewport of 50: asked
    for the offset (0, 9), it stays at the origin. *)
Lemma scroll_pinned_when_content_fits_witness :
  scrollOff (scrollAbs label.align sample.small 0 9) = image.ZP.
Proof.
  destruct (scroll_pinned_when_content_fits label.align sample.small 0 9)
    as [_ Z].
  - vm_compute. split; discriminate.
  - vm_compute. split; discriminate.
  - vm_compute. split; discriminate.
  - vm_compute. discriminate.
  - apply Z. reflexivity.
Defined.

(** ** The caret's position and coordinates *)

Section FurtherCaret.

Variable align : text.Alignment -> fixed.Int26_6 -> Z -> fixed.Int26_6.

(** [CaretPos] and [CaretCoords] panic exactly when the editor has no
    laid-out line, as before its first layout: [layoutCaret] then indexes
    the empty [lines]. *)
Theorem CaretPos_panics_iff_no_lines (e : Editor) :
  GoInt.len (lines e) <= GoInt.max_int ->
  (CaretPos align e = None <-> lines e = [])
  /\ (CaretCoords align e = None <-> lines e = []).
Proof.
  intros Hl. destruct (lines e) as [|l ls] eqn:E.
  - unfold CaretPos, CaretCoords.
    rewrite (layoutCaret_no_lines align e E). cbn [bind]. tauto.
  - destruct (layoutCaret_safe align e) as (carLine & carCol & x & y & _ & _ & P & C).
    + rewrite E. discriminate.
    + rewrite E. exact Hl.
    + rewrite P, C. split; split; discriminate.
Qed.

Lemma caretGlyphs_advance (caret : Z) (gs : list text.Glyph)
      (idx carCol : Z) (x : fixed.Int26_6) :
  Forall (fun g => 0 <= text.Advance g) gs ->
  0 <= carCol -> carCol + GoInt.len gs <= 2 ^ 61 ->
  0 <= x -> x + advanceSum gs (length gs) < 2 ^ 31 ->
  exists k : nat,
    (k <= length gs)%nat
    /\ caretGlyphs caret gs idx carCol x
       = (carCol + Z.of_nat k, x + advanceSum gs k).
Proof.
  revert idx carCol x. unfold GoInt.len.
  change (2 ^ 61) with 2305843009213693952.
  change (2 ^ 31) with 2147483648.
  induction gs as [|g gs IH]; intros idx carCol x Hg H0 Hl Hx Hs.
  - exists 0%nat. cbn. split; [lia|]. f_equal; lia.
  - cbn [caretGlyphs]. cbn [length advanceSum] in Hl, Hs.
    inversion Hg as [|? ? Hg1 Hg2]; subst.
    pose proof (advanceSum_nonneg gs (length gs) Hg2) as Hpos.
    destruct (idx =? caret).
    + exists 0%nat. cbn. split; [lia|]. f_equal; lia.
    + rewrite (add_small carCol 1)
        by (unfold small; change (2 ^ 61) with 2305843009213693952; lia).
      assert (Ea : fixed.add x (text.Advance g) = x + text.Advance g)
        by (apply int32_exact; change (2 ^ 31) with 2147483648; lia).
      rewrite Ea.
      destruct (IH (GoInt.add idx (utf8.RuneLen (text.Rune g))) (carCol + 1)
                   (x + text.Advance g) Hg2) as (k & Hk & E); try lia.
      exists (S k). rewrite E. cbn [length advanceSum].
      split; [lia|]. f_equal; lia.
Qed.

(** The outer loop of [layoutCaret] answers a line of the layout, the
    baseline of that line, and what its inner loop finds on the line. *)
Lemma caretLines_glyphs (caret : Z) (ls : list text.Line)
      (carLine idx : Z) (prevDesc : fixed.Int26_6) (y : Z) :
  ls <> [] ->
  0 <= carLine -> carLine + GoInt.len ls <= 2 ^ 61 ->
  exists (k : nat) (l : text.Line) (idx' : Z),
    nth_error ls k = Some l
    /\ caretLines caret ls carLine idx prevDesc y
       = (carLine + Z.of_nat k,
          fst (caretGlyphs caret (text.Layout l) idx' 0 0),
          snd (caretGlyphs caret (text.Layout l) idx' 0 0),
          baseline ls prevDesc y k).
Proof.
  revert carLine idx prevDesc y. unfold GoInt.len.
  change (2 ^ 61) with 2305843009213693952.
  induction ls as [|l rest IH]; intros carLine idx prevDesc y Hne H0 Hn;
    [contradiction|].
  cbn [length] in Hn.
  cbn [caretLines]. cbv zeta.
  set (y1 := GoInt.add y (fixed.Ceil (fixed.add prevDesc (text.Ascent l)))).
  destruct rest as [|l' rest'].
  - cbn [orb]. exists 0%nat, l, idx.
    destruct (caretGlyphs caret (text.Layout l) idx 0 0) as [c x].
    cbn [nth_error baseline Z.of_nat fst snd]. fold y1.
    split; [reflexivity|]. f_equal. f_equal. f_equal. lia.
  - cbn [orb].
    destruct (caret <? GoInt.add idx (GoInt.len (text.Layout l))).
    + exists 0%nat, l, idx.
      destruct (caretGlyphs caret (text.Layout l) idx 0 0) as [c x].
      cbn [nth_error baseline Z.of_nat fst snd]. fold y1.
      split; [reflexivity|]. f_equal. f_equal. f_equal. lia.
    + rewrite (add_small carLine 1)
        by (unfold small; change (2 ^ 61) with 2305843009213693952; lia).
      destruct (IH (carLine + 1) (GoInt.add idx (text.Len l)) (text.Descent l)
                   y1) as (k & l2 & idx' & Hk & E');
        [discriminate | lia | cbn [length] in *; lia |].
      exists (S k), l2, idx'. rewrite E'.
      cbn [nth_error baseline]. fold y1.
      split; [exact Hk|]. f_equal. f_equal. f_equal. lia.
Qed.

(** [layoutCaret] answers a line of the layout, what its inner loop
    finds on that line, shifted by the line's alignment offset, and the
    line's baseline. *)
Lemma layoutCaret_glyphs (e : Editor) :
  lines e <> [] -> GoInt.len (lines e) <= 2 ^ 61 ->
  exists (k : nat) (l : text.Line) (idx' : Z),
    nth_error (lines e) k = Some l
    /\ layoutCaret align e
       = Some (Z.of_nat k,
               fst (caretGlyphs (editBuffer.caret (rr e)) (text.Layout l)
                                idx' 0 0),
               fixed.add (snd (caretGlyphs (editBuffer.caret (rr e))
                                           (text.Layout l) idx' 0 0))
                         (align (Alignment e) (text.Width l)
                                (image.X (viewSize e))),
               baseline (lines e) 0 0 k).
Proof.
  intros Hne Hn.
  destruct (caretLines_glyphs (editBuffer.caret (rr e)) (lines e) 0 0 0 0 Hne)
    as (k & l & idx' & Hk & E); [lia | lia |].
  exists k, l, idx'. split; [exact Hk|].
  unfold layoutCaret. rewrite E. cbn [Z.add].
  unfold GoInt.index. destruct (Z.ltb_spec (Z.of_nat k) 0); [lia|].
  rewrite Nat2Z.id, Hk. reflexivity.
Qed.

(** On a line whose glyph positions fit, [layoutCaret] answers a column
    within the line's glyphs, the sum of the advances before it plus the
    alignment offset, and the line's baseline. *)
Lemma layoutCaret_coords (e : Editor) (carLine carCol : Z)
      (x : fixed.Int26_6) (y : Z) :
  lines e <> [] -> GoInt.len (lines e) <= 2 ^ 61 ->
  layoutCaret align e = Some (carLine, carCol, x, y) ->
  exists (k : nat) (l : text.Line),
    carLine = Z.of_nat k
    /\ nth_error (lines e) k = Some l
    /\ y = baseline (lines e) 0 0 k
    /\ (fitsFixed l ->
        exists j : nat,
          (j <= length (text.Layout l))%nat
          /\ carCol = Z.of_nat j
          /\ x = fixed.add (advanceSum (text.Layout l) j)
                           (align (Alignment e) (text.Width l)
                                  (image.X (viewSize e)))).
Proof.
  intros Hne Hn H.
  destruct (layoutCaret_glyphs e Hne Hn) as (k & l & idx' & Hk & E).
  rewrite E in H. injection H as <- <- <- <-.
  exists k, l. split; [reflexivity|]. split; [exact Hk|].
  split; [reflexivity|]. intros (F1 & F2 & F3).
  destruct (caretGlyphs_advance (editBuffer.caret (rr e)) (text.Layout l)
              idx' 0 0 F1) as (j & Hj & G); try lia; try exact F3.
  exists j. rewrite G. cbn [fst snd Z.add]. repeat split. exact Hj.
Qed.

(** The caret's coordinates are those of its line and column: [x] is the
    sum of the advances of the glyphs before the column plus the line's
    alignment offset, and [y] is the baseline of the line.  (Lines whose
    glyph positions fit the fixed-point type.) *)
Theorem CaretCoords_of_CaretPos (e : Editor) :
  lines e <> [] -> Forall fitsFixed (lines e) ->
  GoInt.len (lines e) <= 2 ^ 61 ->
  exists (k j : nat) (l : text.Line),
    nth_error (lines e) k = Some l
    /\ (j <= length (text.Layout l))%nat
    /\ CaretPos align e = Some (Z.of_nat k, Z.of_nat j)
    /\ CaretCoords align e
       = Some (fixed.add (advanceSum (text.Layout l) j)
                         (align (Alignment e) (text.Width l)
                                (image.X (viewSize e))),
               baseline (lines e) 0 0 k).
Proof.
  intros Hne Hf Hn.
  destruct (layoutCaret_safe align e Hne)
    as (carLine & carCol & x & y & E & _ & P & C).
  { unfold GoInt.max_int. change (2 ^ 61) with 2305843009213693952 in Hn.
    change (2 ^ 63 - 1) with 9223372036854775807. lia. }
  destruct (layoutCaret_coords e carLine carCol x y Hne Hn E)
    as (k & l & -> & Hk & -> & H).
  destruct H as (j & Hj & -> & ->).
  { rewrite Forall_forall in Hf. apply Hf. eapply nth_error_In. exact Hk. }
  exists k, j, l. split; [exact Hk|]. split; [exact Hj|].
  split; [exact P | exact C].
Qed.

Lemma lineStart_0 (ls : list text.Line) : lineStart ls 0 = 0.
Proof. destruct ls; reflexivity. Qed.

Lemma caretLines_next_line (caret : Z) (ls : list text.Line)
      (carLine idx : Z) (prevDesc : fixed.Int26_6) (y : Z) (k : nat) :
  Forall singleByteLine ls -> ls <> [] ->
  idx <= caret <= idx + lineStart ls (length ls) ->
  0 <= idx -> idx + lineStart ls (length ls) <= 2 ^ 61 ->
  0 <= carLine -> carLine + GoInt.len ls <= 2 ^ 61 ->
  fst (fst (fst (caretLines caret ls carLine idx prevDesc y)))
  = carLine + Z.of_nat k ->
  (S k < length ls)%nat ->
  caret < idx + lineStart ls (S k).
Proof.
  revert carLine idx prevDesc y k.
  induction ls as [|l rest IH];
    intros carLine idx prevDesc y k Hs Hne Hc Hi Ht H0 Hn E Hk; [contradiction|].
  inversion Hs as [|? ? [Hl Hg] Hr]; subst.
  pose proof (lineStart_nonneg rest (length rest) Hr) as Hpos.
  cbn [length lineStart] in Hc, Ht.
  unfold GoInt.len in Hn, Hl. cbn [length] in Hn.
  change (2 ^ 61) with 2305843009213693952 in *.
  cbn [caretLines] in E. cbv zeta in E.
  assert (Eadd : GoInt.add idx (GoInt.len (text.Layout l))
                 = idx + text.Len l).
  { rewrite Hl. apply add_small; unfold small, GoInt.len;
      change (2 ^ 61) with 2305843009213693952; lia. }
  rewrite Eadd in E.
  destruct rest as [|l' rest']; [cbn [length] in Hk; lia|].
  cbn [orb] in E.
  destruct (Z.ltb_spec caret (idx + text.Len l)) as [Hlt|Hge].
  - destruct (caretGlyphs caret (text.Layout l) idx 0 0) as [carCol x].
    cbn [fst] in E. assert (k = 0%nat) by lia. subst k.
    cbn [lineStart]. try rewrite lineStart_0. lia.
  - rewrite (add_small carLine 1) in E
      by (unfold small; change (2 ^ 61) with 2305843009213693952; lia).
    rewrite (add_small idx (text.Len l)) in E
      by (unfold small; change (2 ^ 61) with 2305843009213693952; lia).
    pose proof (caretLines_line caret (l' :: rest') (carLine + 1)
                  (idx + text.Len l) (text.Descent l)
                  (GoInt.add y (fixed.Ceil (fixed.add prevDesc (text.Ascent l)))))
      as R.
    destruct (caretLines caret (l' :: rest') (carLine + 1) (idx + text.Len l)
                (text.Descent l)
                (GoInt.add y (fixed.Ceil (fixed.add prevDesc (text.Ascent l)))))
      as [[[carLine' carCol'] x'] y'] eqn:EC.
    cbn [fst] in E.
    assert (Hr' : carLine + 1 <= carLine'
                  < carLine + 1 + GoInt.len (l' :: rest')).
    { apply R; [discriminate | lia |].
      unfold GoInt.len, GoInt.max_int. cbn [length] in *.
      change (2 ^ 63 - 1) with 9223372036854775807. lia. }
    destruct k as [|k']; [lia|].
    assert (G : caret < idx + text.Len l + lineStart (l' :: rest') (S k')).
    { apply (IH (carLine + 1) (idx + text.Len l) (text.Descent l)
                (GoInt.add y (fixed.Ceil (fixed.add prevDesc (text.Ascent l))))
                k' Hr);
        try (change (2 ^ 61) with 2305843009213693952);
        try (unfold GoInt.len; cbn [length] in *; lia);
        [discriminate | rewrite EC; cbn [fst]; lia]. }
    change (lineStart (l :: l' :: rest') (S (S k')))
      with (text.Len l + lineStart (l' :: rest') (S k')).
    lia.
Qed.

(** Where every rune takes one byte, [layoutCaret] answers the line
    that holds the caret's byte offset and the number of glyphs before it
    on that line, a caret between two lines counting as the start of the
    second. *)
Lemma layoutCaret_one_byte_line (e : Editor) :
  oneByteLayout e ->
  exists (k : nat) (col : Z) (x : fixed.Int26_6) (y : Z) (l : text.Line),
    layoutCaret align e = Some (Z.of_nat k, col, x, y)
    /\ nth_error (lines e) k = Some l
    /\ lineStart (lines e) k + col = editBuffer.caret (rr e)
    /\ 0 <= col <= GoInt.len (text.Layout l)
    /\ col = glyphsBefore (editBuffer.caret (rr e)) (lineStart (lines e) k)
                          (text.Layout l)
    /\ ((S k < length (lines e))%nat -> col < GoInt.len (text.Layout l)).
Proof.
  intros (Ha & Hs & Hadv & Hne & Htot & Hc & Hl & Hn).
  destruct (layoutCaret_single_byte align e Hs Hne)
    as (k & col & x & y & l & EL & Hk & P1 & P2 & P3);
    [rewrite Htot; exact Hc | rewrite Htot; exact Hl | exact Hn |].
  exists k, col, x, y, l.
  split; [exact EL|]. split; [exact Hk|]. split; [exact P1|].
  split; [exact P2|]. split; [exact P3|].
  intros Hlast.
  assert (N : editBuffer.caret (rr e) < 0 + lineStart (lines e) (S k)).
  { apply (caretLines_next_line (editBuffer.caret (rr e)) (lines e) 0 0 0 0 k
             Hs Hne);
      try (rewrite Htot);
      try (change (2 ^ 61) with 2305843009213693952 in *; lia).
    unfold layoutCaret in EL.
    destruct (caretLines (editBuffer.caret (rr e)) (lines e) 0 0 0 0)
      as [[[carLine carCol] x0] y0].
    cbn [fst]. unfold bind in EL.
    destruct (GoInt.index (lines e) carLine); [|discriminate EL].
    now injection EL as -> _ _ _. }
  rewrite (lineStart_S (lines e) k l Hk) in N.
  assert (Hsl : singleByteLine l).
  { rewrite Forall_forall in Hs. apply Hs. eapply nth_error_In. exact Hk. }
  destruct Hsl as [Hlen _]. lia.
Qed.

(** Where every rune takes one byte, [CaretPos] answers the line that
    holds the caret's byte offset and the number of glyphs before it on
    that line; a caret between two lines counts as the start of the
    second, so only on the last line can the column be the number of
    glyphs. *)
Theorem CaretPos_one_byte_text (e : Editor) :
  oneByteLayout e ->
  exists (k : nat) (col : Z) (l : text.Line),
    CaretPos align e = Some (Z.of_nat k, col)
    /\ nth_error (lines e) k = Some l
    /\ lineStart (lines e) k + col = editBuffer.caret (rr e)
    /\ 0 <= col <= GoInt.len (text.Layout l)
    /\ col = glyphsBefore (editBuffer.caret (rr e)) (lineStart (lines e) k)
                          (text.Layout l)
    /\ ((S k < length (lines e))%nat -> col < GoInt.len (text.Layout l)).
Proof.
  intros W.
  destruct (layoutCaret_one_byte_line e W)
    as (k & col & x & y & l & EL & H).
  exists k, col, l. unfold CaretPos. rewrite EL. cbn [bind].
  split; [reflexivity | exact H].
Qed.

End FurtherCaret.

(** [sample.small] has a line and a caret position; without its lines
    [CaretPos] panics. *)
Lemma CaretPos_panics_iff_no_lines_witness :
  CaretPos label.align sample.small <> None
  /\ CaretPos label.align (set_lines [] sample.small) = None.
Proof.
  split.
  - intros H.
    apply (CaretPos_panics_iff_no_lines label.align sample.small) in H.
    + discriminate H.
    + vm_compute. discriminate.
  - apply (CaretPos_panics_iff_no_lines label.align (set_lines [] sample.small)).
    + vm_compute. discriminate.
    + reflexivity.
Defined.

(** In [twoLines] ("a\nb", caret at the end) the caret is on line 1 after
    one glyph, seven pixels from the left on the second baseline. *)
Lemma CaretCoords_of_CaretPos_witness :
  CaretPos label.align twoLines = Some (1, 1)
  /\ CaretCoords label.align twoLines = Some (448, 28).
Proof.
  assert (F : Forall fitsFixed (lines twoLines)).
  { repeat (constructor;
            [ unfold fitsFixed; split;
              [ repeat constructor; vm_compute; discriminate
              | split; vm_compute; [reflexivity | discriminate] ] | ]).
    constructor. }
  destruct (CaretCoords_of_CaretPos label.align twoLines)
    as (k & j & l & Hk & Hj & P & C).
  - discriminate.
  - exact F.
  - vm_compute. discriminate.
  - split; [reflexivity|].
    assert (K : k = 1%nat /\ j = 1%nat).
    { assert (Q : CaretPos label.align twoLines = Some (1, 1)) by reflexivity.
      rewrite P in Q. injection Q as Q1 Q2. lia. }
    destruct K as [-> ->]. cbn in Hk. injection Hk as <-. exact C.
Defined.

Lemma twoLines_oneByteLayout : oneByteLayout twoLines.
Proof.
  unfold oneByteLayout, ascii, singleByteLine.
  split; [repeat constructor|].
  split; [repeat constructor|].
  split; [repeat constructor; vm_compute; discriminate|].
  split; [discriminate|]. split; [reflexivity|].
  split; [vm_compute; split; discriminate|].
  split; vm_compute; discriminate.
Qed.

(** [twoLines] is a layout of one-byte runes; its caret, at byte 3, is
    on line 1, which starts at byte 2, in column 1. *)
Lemma CaretPos_one_byte_text_witness :
  exists (k : nat) (col : Z),
    CaretPos label.align twoLines = Some (Z.of_nat k, col)
    /\ lineStart (lines twoLines) k + col = 3.
Proof.
  destruct (CaretPos_one_byte_text label.align twoLines)
    as (k & col & l & P & _ & S & _).
  - exact twoLines_oneByteLayout.
  - exists k, col. split; [exact P | exact S].
Defined.

(** ** Moving the caret *)

Section FurtherMoving.

Variable align : text.Alignment -> fixed.Int26_6 -> Z -> fixed.Int26_6.

(** Where every rune takes one byte, [moveToLine] brings the target line
    into the lines, moves the caret onto it, to the rune whose position
    is closest to [carX] among those it may reach (all but the last of a
    line that is not the last), and returns [carX] minus the position
    reached. *)
Theorem moveToLine_one_byte_text (e : Editor) (carX : fixed.Int26_6)
        (carLine2 : Z) (l2 : text.Line) :
  oneByteLayout e ->
  let c := Z.to_nat (clampLine e carLine2) in
  nth_error (lines e) c = Some l2 ->
  let a := align (Alignment e) (text.Width l2) (image.X (viewSize e)) in
  let gs := firstn (Z.to_nat (GoInt.len (text.Layout l2)
                              - lineEnd e (clampLine e carLine2)))
                   (text.Layout l2) in
  - 2 ^ 29 <= carX <= 2 ^ 29 ->
  - 2 ^ 29 <= a ->
  a + advanceSum gs (length gs) <= 2 ^ 29 ->
  clampLine e carLine2 = Z.max 0 (Z.min carLine2 (GoInt.len (lines e) - 1))
  /\ exists k : nat,
      (k <= length gs)%nat
      /\ moveToLine align e carX carLine2
         = Some (set_rr (editBuffer.with_caret
                           (lineStart (lines e) c + Z.of_nat k) (rr e)) e,
                 carX - (a + advanceSum gs k))
      /\ forall j : nat,
          (j <= length gs)%nat ->
          Z.abs (carX - (a + advanceSum gs k))
          <= Z.abs (carX - (a + advanceSum gs j)).
Proof.
  intros W c Hl2 a gs Hx Hlo Hhi. split.
  - destruct W as (_ & _ & _ & Hne & _ & _ & _ & Hn).
    apply (clampLine_range e carLine2 Hne Hn).
  - exact (moveToLine_single_byte align e carX carLine2 l2 W Hl2 Hx Hlo Hhi).
Qed.

(** A press selects the first line whose bottom edge is at or below the
    pressed height, counted in the scrolled text, or no line when all end
    above it; [moveCoord] then is [moveToLine] towards that line at the
    pressed horizontal position. *)
Theorem moveCoord_selects_line (e : Editor) (pos : image.Point) :
  GoInt.len (lines e) <= 2 ^ 61 ->
  let target := GoInt.add (image.Y pos) (image.Y (scrollOff e)) in
  let carX := fixed.I (GoInt.add (image.X pos) (image.X (scrollOff e))) in
  exists k : nat,
    (k <= length (lines e))%nat
    /\ (forall j : nat, (j < k)%nat -> bottomEdge (lines e) 0 0 j < target)
    /\ ((k < length (lines e))%nat -> target <= bottomEdge (lines e) 0 0 k)
    /\ moveCoord align e pos
       = ('(e', _) <- moveToLine align e carX (Z.of_nat k) ;; Some e').
Proof.
  intros Hn target carX.
  destruct (coordLine_first target (lines e) 0 0 0) as (k & E & Hk & Hb & Ha);
    [lia | lia |].
  exists k. split; [exact Hk|]. split; [exact Hb|]. split; [exact Ha|].
  unfold moveCoord. fold target. fold carX. rewrite E. reflexivity.
Qed.

(** Where every rune takes one byte, a press moves the caret to the
    first line whose bottom edge is at or below the pressed height (the
    last line when there is none), and on it to the rune closest to the
    pressed horizontal position. *)
Theorem moveCoord_one_byte_text (e : Editor) (pos : image.Point) :
  oneByteLayout e ->
  let target := GoInt.add (image.Y pos) (image.Y (scrollOff e)) in
  let carX := fixed.I (GoInt.add (image.X pos) (image.X (scrollOff e))) in
  exists (c : nat) (l2 : text.Line),
    nth_error (lines e) c = Some l2
    /\ (forall j : nat, (j < c)%nat -> bottomEdge (lines e) 0 0 j < target)
    /\ (target <= bottomEdge (lines e) 0 0 c \/ S c = length (lines e))
    /\ let a := align (Alignment e) (text.Width l2) (image.X (viewSize e)) in
       let gs := firstn (Z.to_nat (GoInt.len (text.Layout l2)
                                   - lineEnd e (Z.of_nat c)))
                        (text.Layout l2) in
       - 2 ^ 29 <= carX <= 2 ^ 29 ->
       - 2 ^ 29 <= a ->
       a + advanceSum gs (length gs) <= 2 ^ 29 ->
       exists k : nat,
         (k <= length gs)%nat
         /\ moveCoord align e pos
            = Some (set_rr (editBuffer.with_caret
                              (lineStart (lines e) c + Z.of_nat k) (rr e)) e)
         /\ forall j : nat,
             (j <= length gs)%nat ->
             Z.abs (carX - (a + advanceSum gs k))
             <= Z.abs (carX - (a + advanceSum gs j)).
Proof.
  intros W target carX.
  pose proof W as (_ & _ & _ & Hne & _ & _ & _ & Hn).
  destruct (coordLine_first target (lines e) 0 0 0) as (k0 & E & Hk0 & Hb & Ha);
    [lia | lia |].
  cbn [Z.add] in E.
  destruct (clampLine_range e (Z.of_nat k0) Hne Hn) as (Ec & Hc).
  set (c := Z.to_nat (clampLine e (Z.of_nat k0))).
  assert (Hcz : clampLine e (Z.of_nat k0) = Z.of_nat c) by (subst c; lia).
  assert (Ecn : c = Z.to_nat (clampLine e (Z.of_nat k0))) by reflexivity.
  clearbody c.
  assert (Hlen : (c < length (lines e))%nat)
    by (unfold GoInt.len in Hc; lia).
  destruct (nth_error (lines e) c) as [l2|] eqn:Hl2;
    [|apply nth_error_None in Hl2; lia].
  exists c, l2. split; [exact Hl2|].
  unfold GoInt.len in Ec.
  split; [intros j Hj; apply Hb; lia|].
  split.
  { destruct (Nat.eq_dec k0 (length (lines e))) as [->|N].
    - right. lia.
    - left. replace c with k0 by lia. apply Ha. lia. }
  rewrite <- Hcz. intros a gs Hx Hlo Hhi.
  pose proof (moveCoord_single_byte align e pos l2 W) as M.
  cbv zeta in M. fold target in M. fold carX in M. rewrite E in M.
  rewrite <- Ecn in M. exact (M Hl2 Hx Hlo Hhi).
Qed.

End FurtherMoving.

(** ** The Home and End keys *)

Lemma advanceSum_nil (k : nat) : advanceSum [] k = 0.
Proof. destruct k; reflexivity. Qed.

Lemma advanceSum_S (gs : list text.Glyph) (i : nat) (g : text.Glyph) :
  nth_error gs i = Some g ->
  advanceSum gs (S i) = advanceSum gs i + text.Advance g.
Proof.
  revert i. induction gs as [|g0 gs IH]; intros [|i] H; try discriminate H.
  - cbn in H. injection H as ->. cbn [advanceSum].
    rewrite advanceSum_nil || destruct gs; cbn; lia.
  - cbn [nth_error] in H.
    change (advanceSum (g0 :: gs) (S (S i)))
      with (text.Advance g0 + advanceSum gs (S i)).
    change (advanceSum (g0 :: gs) (S i))
      with (text.Advance g0 + advanceSum gs i).
    rewrite (IH i H). lia.
Qed.

Lemma advanceSum_firstn (n k : nat) (gs : list text.Glyph) :
  (k <= n)%nat -> advanceSum (firstn n gs) k = advanceSum gs k.
Proof.
  revert n gs. induction k as [|k IH]; intros n gs H.
  - destruct (firstn n gs), gs; reflexivity.
  - destruct n as [|n]; [lia|]. destruct gs as [|g gs]; [reflexivity|].
    cbn [firstn advanceSum]. rewrite IH by lia. reflexivity.
Qed.

Lemma advanceSum_skipn (c k : nat) (gs : list text.Glyph) :
  advanceSum (skipn c gs) k = advanceSum gs (c + k) - advanceSum gs c.
Proof.
  revert gs. induction c as [|c IH]; intros gs.
  - cbn [skipn Nat.add]. replace (advanceSum gs 0) with 0; [lia|].
    destruct gs; reflexivity.
  - destruct gs as [|g gs].
    + cbn [skipn]. rewrite !advanceSum_nil. lia.
    + cbn [skipn Nat.add advanceSum]. rewrite IH. lia.
Qed.

Lemma startRunes_ascii (n : nat) (gs : list text.Glyph) (b : editBuffer.t)
      (x : fixed.Int26_6) :
  ascii (editBuffer.content b) ->
  Z.of_nat n <= editBuffer.caret b <= editBuffer.len b ->
  editBuffer.len b <= 2 ^ 61 ->
  (n <= length gs)%nat ->
  Forall (fun g => 0 <= text.Advance g) gs ->
  - 2 ^ 30 <= x - advanceSum gs n -> x <= 2 ^ 30 ->
  startRunes n gs b x
  = Some (editBuffer.with_caret (editBuffer.caret b - Z.of_nat n) b,
          x - advanceSum gs n).
Proof.
  change (2 ^ 61) with 2305843009213693952.
  change (2 ^ 30) with 1073741824.
  revert b x. induction n as [|n IH]; intros b x Ha Hc Hl Hn Hg Hlo Hhi.
  - cbn [startRunes Z.of_nat]. rewrite Z.sub_0_r.
    replace (advanceSum gs 0) with 0 by (destruct gs; reflexivity).
    rewrite Z.sub_0_r. now destruct b.
  - cbn [startRunes].
    destruct (runeBefore_ascii b (editBuffer.caret b) Ha) as [r ->]; [lia|].
    cbn [bind].
    destruct (nth_error gs n) as [g|] eqn:G;
      [|apply nth_error_None in G; lia].
    cbn [bind].
    rewrite (advanceSum_S gs n g G) in Hlo.
    pose proof (advanceSum_nonneg gs n Hg) as Hpos.
    assert (Hgn : 0 <= text.Advance g).
    { rewrite Forall_forall in Hg. apply Hg. eapply nth_error_In. exact G. }
    rewrite sub_small
      by (unfold small; change (2 ^ 61) with 2305843009213693952; lia).
    assert (Es : fixed.sub x (text.Advance g) = x - text.Advance g)
      by (apply int32_exact; change (2 ^ 31) with 2147483648; lia).
    rewrite Es.
    rewrite IH; cbn [editBuffer.with_caret editBuffer.caret editBuffer.content];
      try assumption; try (unfold editBuffer.len in *; cbn; lia).
    rewrite (advanceSum_S gs n g G).
    f_equal. f_equal.
    + unfold editBuffer.with_caret. cbn. f_equal. lia.
    + lia.
Qed.

Lemma endRunes_ascii (gs : list text.Glyph) (b : editBuffer.t)
      (x : fixed.Int26_6) :
  ascii (editBuffer.content b) ->
  0 <= editBuffer.caret b ->
  editBuffer.caret b + GoInt.len gs <= editBuffer.len b ->
  editBuffer.len b <= 2 ^ 61 ->
  Forall (fun g => 0 <= text.Advance g) gs ->
  - 2 ^ 30 <= x -> x + advanceSum gs (length gs) <= 2 ^ 30 ->
  endRunes gs b x
  = Some (editBuffer.with_caret (editBuffer.caret b + GoInt.len gs) b,
          x + advanceSum gs (length gs)).
Proof.
  change (2 ^ 61) with 2305843009213693952.
  change (2 ^ 30) with 1073741824. unfold GoInt.len.
  revert b x. induction gs as [|g gs IH]; intros b x Ha H0 Hc Hl Hg Hlo Hhi.
  - cbn [endRunes length Z.of_nat advanceSum]. rewrite !Z.add_0_r.
    now destruct b.
  - cbn [endRunes]. cbn [length advanceSum] in Hc, Hhi.
    inversion Hg as [|? ? Hg1 Hg2]; subst.
    pose proof (advanceSum_nonneg gs (length gs) Hg2) as Hpos.
    destruct (runeAt_ascii b (editBuffer.caret b) Ha) as [r ->]; [lia|].
    cbn [bind].
    rewrite add_small
      by (unfold small; change (2 ^ 61) with 2305843009213693952; lia).
    assert (Ea : fixed.add x (text.Advance g) = x + text.Advance g)
      by (apply int32_exact; change (2 ^ 31) with 2147483648; lia).
    rewrite Ea.
    rewrite IH; cbn [editBuffer.with_caret editBuffer.caret editBuffer.content];
      try assumption; try (unfold editBuffer.len in *; cbn; lia).
    cbn [length advanceSum]. f_equal. f_equal.
    + unfold editBuffer.with_caret. cbn. f_equal. lia.
    + lia.
Qed.

Section HomeAndEnd.

Variable align : text.Alignment -> fixed.Int26_6 -> Z -> fixed.Int26_6.

(** What [moveStart] and [moveEnd] start from where every rune takes
    one byte and the caret's line fits the fixed-point type. *)
Lemma layoutCaret_one_byte_coords (e : Editor) (k : nat) (col : Z)
      (l : text.Line) :
  oneByteLayout e ->
  CaretPos align e = Some (Z.of_nat k, col) ->
  nth_error (lines e) k = Some l ->
  let a := align (Alignment e) (text.Width l) (image.X (viewSize e)) in
  - 2 ^ 29 <= a ->
  a + advanceSum (text.Layout l) (length (text.Layout l)) <= 2 ^ 29 ->
  exists (j : nat) (y : Z),
    col = Z.of_nat j
    /\ (j <= length (text.Layout l))%nat
    /\ ((S k < length (lines e))%nat -> (j < length (text.Layout l))%nat)
    /\ lineStart (lines e) k + Z.of_nat j = editBuffer.caret (rr e)
    /\ layoutCaret align e
       = Some (Z.of_nat k, col, advanceSum (text.Layout l) j + a, y).
Proof.
  intros W P Hk a Hlo Hhi.
  pose proof W as (Ha & Hs & Hadv & Hne & Htot & Hc & Hl & Hn).
  destruct (layoutCaret_one_byte_line align e W)
    as (k' & col' & x & y & l' & EL & Hk' & P1 & P2 & _ & P4).
  unfold CaretPos in P. rewrite EL in P. cbn [bind] in P.
  injection P as P Q. apply Nat2Z.inj in P. subst k' col'.
  rewrite Hk in Hk'. injection Hk' as <-.
  destruct (layoutCaret_coords align e (Z.of_nat k) col x y Hne Hn EL)
    as (k2 & l2 & Ek & Hk2 & _ & F).
  apply Nat2Z.inj in Ek. subst k2. rewrite Hk in Hk2. injection Hk2 as <-.
  assert (Hgl : Forall (fun g => 0 <= text.Advance g) (text.Layout l)).
  { rewrite Forall_forall in Hadv. apply Hadv. eapply nth_error_In. exact Hk. }
  pose proof (advanceSum_nonneg (text.Layout l) (length (text.Layout l)) Hgl)
    as Hpos.
  assert (Hsl : singleByteLine l).
  { rewrite Forall_forall in Hs. apply Hs. eapply nth_error_In. exact Hk. }
  destruct Hsl as [Hlen _].
  assert (Hklen : (k < length (lines e))%nat)
    by (apply nth_error_Some; congruence).
  pose proof (lineStart_mono (lines e) (S k) (length (lines e)) Hs Hklen)
    as Mk.
  rewrite (lineStart_S (lines e) k l Hk), Htot in Mk.
  pose proof (lineStart_nonneg (lines e) k Hs) as N3.
  change (2 ^ 29) with 536870912 in *.
  destruct F as (j & Hj & -> & ->).
  { split; [exact Hgl|]. split.
    - change (2 ^ 31) with 2147483648. lia.
    - rewrite <- Hlen. lia. }
  exists j, y. split; [reflexivity|]. split; [exact Hj|].
  split; [intros Hlast; specialize (P4 Hlast); unfold GoInt.len in P4; lia|].
  split; [exact P1|].
  rewrite EL. f_equal. f_equal. f_equal. fold a.
  pose proof (advanceSum_nonneg (text.Layout l) j Hgl).
  pose proof (advanceSum_mono (text.Layout l) j Hgl).
  apply int32_exact. change (2 ^ 31) with 2147483648. lia.
Qed.

(** Where every rune takes one byte, the Home key ([moveStart]) moves
    the caret to the first byte of its line and leaves in [carXOff] the
    negated alignment offset of the line, so that the caret's remembered
    horizontal position is the left edge. *)
Theorem moveStart_one_byte_text (e : Editor) (k : nat) (col : Z)
        (l : text.Line) :
  oneByteLayout e ->
  CaretPos align e = Some (Z.of_nat k, col) ->
  nth_error (lines e) k = Some l ->
  let a := align (Alignment e) (text.Width l) (image.X (viewSize e)) in
  - 2 ^ 29 <= a ->
  a + advanceSum (text.Layout l) (length (text.Layout l)) <= 2 ^ 29 ->
  moveStart align e
  = Some (set_carXOff (- a)
            (set_rr (editBuffer.with_caret (lineStart (lines e) k) (rr e)) e)).
Proof.
  intros W P Hk a Hlo Hhi.
  destruct (layoutCaret_one_byte_coords e k col l W P Hk Hlo Hhi)
    as (j & y & -> & Hj & _ & Hc & EL).
  fold a in EL.
  pose proof W as (Ha & Hs & Hadv & Hne & Htot & Hcar & Hl & Hn).
  assert (Hgl : Forall (fun g => 0 <= text.Advance g) (text.Layout l)).
  { rewrite Forall_forall in Hadv. apply Hadv. eapply nth_error_In. exact Hk. }
  pose proof (advanceSum_nonneg (text.Layout l) j Hgl) as N1.
  pose proof (advanceSum_mono (text.Layout l) j Hgl) as N2.
  pose proof (lineStart_nonneg (lines e) k Hs) as N3.
  change (2 ^ 29) with 536870912 in *.
  change (2 ^ 61) with 2305843009213693952 in *.
  unfold moveStart. rewrite EL. cbn [bind].
  unfold GoInt.index. destruct (Z.ltb_spec (Z.of_nat k) 0); [lia|].
  rewrite !Nat2Z.id, Hk. cbn [bind].
  rewrite startRunes_ascii;
    try assumption;
    try (fold (Len e));
    try (change (2 ^ 61) with 2305843009213693952);
    try (change (2 ^ 30) with 1073741824);
    try lia.
  cbn [bind].
  replace (advanceSum (text.Layout l) j + a - advanceSum (text.Layout l) j)
    with a by lia.
  replace (editBuffer.caret (rr e) - Z.of_nat j) with (lineStart (lines e) k)
    by lia.
  assert (En : fixed.neg a = - a)
    by (apply int32_exact; change (2 ^ 31) with 2147483648; lia).
  rewrite En. reflexivity.
Qed.

(** Where every rune takes one byte, the End key ([moveEnd]) moves the
    caret to the end of its line: behind the last glyph on the last
    line, and before the last glyph, the line break, on any other line.
    [carXOff] becomes what is left of the line's width after the glyphs
    passed. *)
Theorem moveEnd_one_byte_text (e : Editor) (k : nat) (col : Z)
        (l : text.Line) :
  oneByteLayout e ->
  CaretPos align e = Some (Z.of_nat k, col) ->
  nth_error (lines e) k = Some l ->
  let a := align (Alignment e) (text.Width l) (image.X (viewSize e)) in
  let n := (length (text.Layout l)
            - (if (S k <? length (lines e))%nat then 1 else 0))%nat in
  - 2 ^ 29 <= a ->
  a + advanceSum (text.Layout l) (length (text.Layout l)) <= 2 ^ 29 ->
  - 2 ^ 29 <= text.Width l <= 2 ^ 29 ->
  moveEnd align e
  = Some (set_carXOff (text.Width l - advanceSum (text.Layout l) n)
            (set_rr (editBuffer.with_caret
                       (lineStart (lines e) k + Z.of_nat n) (rr e)) e)).
Proof.
  intros W P Hk a n Hlo Hhi Hw.
  destruct (layoutCaret_one_byte_coords e k col l W P Hk Hlo Hhi)
    as (j & y & -> & Hj & Hstrict & Hc & EL).
  fold a in EL.
  pose proof W as (Ha & Hs & Hadv & Hne & Htot & Hcar & Hl & Hn).
  assert (Hgl : Forall (fun g => 0 <= text.Advance g) (text.Layout l)).
  { rewrite Forall_forall in Hadv. apply Hadv. eapply nth_error_In. exact Hk. }
  assert (Hsl : singleByteLine l).
  { rewrite Forall_forall in Hs. apply Hs. eapply nth_error_In. exact Hk. }
  destruct Hsl as [Hlen _].
  assert (Hklen : (k < length (lines e))%nat)
    by (apply nth_error_Some; congruence).
  pose proof (lineStart_mono (lines e) (S k) (length (lines e)) Hs Hklen)
    as Mk.
  rewrite (lineStart_S (lines e) k l Hk), Htot in Mk.
  pose proof (advanceSum_nonneg (text.Layout l) j Hgl) as N1.
  pose proof (advanceSum_mono (text.Layout l) j Hgl) as N2.
  pose proof (advanceSum_nonneg (text.Layout l) n Hgl) as N4.
  pose proof (advanceSum_mono (text.Layout l) n Hgl) as N5.
  pose proof (lineStart_nonneg (lines e) k Hs) as N3.
  change (2 ^ 29) with 536870912 in *.
  change (2 ^ 61) with 2305843009213693952 in *.
  unfold GoInt.len in Hlen, Hn.
  assert (Eend : Z.to_nat (GoInt.sub (GoInt.len (text.Layout l))
                                     (lineEnd e (Z.of_nat k))) = n).
  { unfold lineEnd. rewrite (sub_small (GoInt.len (lines e)) 1)
      by (unfold small, GoInt.len;
          change (2 ^ 61) with 2305843009213693952; lia).
    unfold GoInt.len. subst n.
    destruct (Z.ltb_spec (Z.of_nat k) (Z.of_nat (length (lines e)) - 1));
      destruct (Nat.ltb_spec (S k) (length (lines e))); try lia;
      rewrite sub_small
        by (unfold small; change (2 ^ 61) with 2305843009213693952; lia);
      lia. }
  assert (Hjn : (j <= n)%nat).
  { subst n. destruct (Nat.ltb_spec (S k) (length (lines e))) as [L|L].
    - specialize (Hstrict L). lia.
    - lia. }
  assert (Hnl : (n <= length (text.Layout l))%nat) by (subst n; lia).
  unfold moveEnd. rewrite EL. cbn [bind].
  unfold GoInt.index. destruct (Z.ltb_spec (Z.of_nat k) 0); [lia|].
  rewrite !Nat2Z.id, Hk. cbn [bind]. rewrite Eend. fold a.
  set (gs := skipn j (firstn n (text.Layout l))).
  assert (Lgs : length gs = (n - j)%nat).
  { subst gs. rewrite length_skipn, length_firstn. lia. }
  assert (Sgs : advanceSum gs (length gs)
                = advanceSum (text.Layout l) n - advanceSum (text.Layout l) j).
  { rewrite Lgs. subst gs. rewrite advanceSum_skipn.
    rewrite !advanceSum_firstn by lia.
    replace (j + (n - j))%nat with n by lia. reflexivity. }
  assert (EE : endRunes gs (rr e) (advanceSum (text.Layout l) j + a)
               = Some (editBuffer.with_caret
                         (lineStart (lines e) k + Z.of_nat n) (rr e),
                       a + advanceSum (text.Layout l) n)).
  { rewrite endRunes_ascii.
    - unfold GoInt.len. rewrite Sgs, Lgs. f_equal. f_equal; [f_equal|]; lia.
    - exact Ha.
    - lia.
    - unfold GoInt.len. rewrite Lgs. change (editBuffer.len (rr e)) with (Len e).
      lia.
    - change (editBuffer.len (rr e)) with (Len e).
      change (2 ^ 61) with 2305843009213693952. lia.
    - subst gs. apply Forall_firstn_skipn. apply Forall_firstn_skipn.
      exact Hgl.
    - change (2 ^ 30) with 1073741824. lia.
    - rewrite Sgs. change (2 ^ 30) with 1073741824. lia. }
  rewrite EE. cbn [bind].
  assert (E1 : fixed.add (text.Width l) a = text.Width l + a)
    by (apply int32_exact; change (2 ^ 31) with 2147483648; lia).
  rewrite E1.
  assert (E2 : fixed.sub (text.Width l + a) (a + advanceSum (text.Layout l) n)
               = text.Width l - advanceSum (text.Layout l) n).
  { unfold fixed.sub.
    replace (text.Width l + a - (a + advanceSum (text.Layout l) n))
      with (text.Width l - advanceSum (text.Layout l) n) by lia.
    apply int32_exact. change (2 ^ 31) with 2147483648. lia. }
  rewrite E2. reflexivity.
Qed.

End HomeAndEnd.

Lemma twoLinesHome_oneByteLayout : oneByteLayout twoLinesHome.
Proof.
  unfold oneByteLayout, ascii, singleByteLine.
  split; [repeat constructor|].
  split; [repeat constructor|].
  split; [repeat constructor; vm_compute; discriminate|].
  split; [discriminate|]. split; [reflexivity|].
  split; [vm_compute; split; discriminate|].
  split; vm_compute; discriminate.
Qed.

(** [twoLines] holds "a\nb" with the caret at the end, on line 1: moved
    to line 0 at [carX = 0], the caret goes to byte 0. *)
Lemma moveToLine_one_byte_text_witness :
  exists e',
    moveToLine label.align twoLines 0 0 = Some (e', 0)
    /\ editBuffer.caret (rr e') = 0.
Proof.
  destruct (moveToLine_one_byte_text label.align twoLines 0 0
              (sample.line [sample.glyph 97; sample.nl] 2)
              twoLines_oneByteLayout eq_refl)
    as (_ & k & Hk & E & Hmin).
  - vm_compute. split; discriminate.
  - vm_compute. discriminate.
  - vm_compute. discriminate.
  - assert (K : k = 0%nat).
    { specialize (Hmin 0%nat (Nat.le_0_l _)).
      destruct k as [|[|k]]; [reflexivity | | vm_compute in Hk; lia].
      vm_compute in Hmin. exfalso. apply Hmin. reflexivity. }
    subst k. rewrite E. eexists. split; [reflexivity|]. reflexivity.
Defined.

(** In [twoLines] the lines end 16 and 32 pixels from the top: a press
    20 pixels down selects line 1. *)
Lemma moveCoord_selects_line_witness :
  moveCoord label.align twoLines (image.mkPoint 0 20)
  = ('(e', _) <- moveToLine label.align twoLines 0 1 ;; Some e').
Proof.
  destruct (moveCoord_selects_line label.align twoLines (image.mkPoint 0 20))
    as (k & Hk & Hb & Ha & E).
  - vm_compute. discriminate.
  - assert (K : k = 1%nat).
    { destruct k as [|[|[|k]]]; [ | reflexivity | | cbn in Hk; lia ].
      - exfalso. assert (L : (0 < 2)%nat) by lia.
        specialize (Ha L). vm_compute in Ha. apply Ha. reflexivity.
      - exfalso. assert (L : (1 < 2)%nat) by lia.
        specialize (Hb 1%nat L). vm_compute in Hb. discriminate Hb. }
    subst k. exact E.
Defined.

(** A press at the top left corner of [twoLines] moves the caret to
    byte 0. *)
Lemma moveCoord_one_byte_text_witness :
  exists e',
    moveCoord label.align twoLines (image.mkPoint 0 0) = Some e'
    /\ editBuffer.caret (rr e') = 0.
Proof.
  destruct (moveCoord_one_byte_text label.align twoLines (image.mkPoint 0 0)
              twoLines_oneByteLayout)
    as (c & l2 & Hl2 & Hb & _ & H).
  assert (C : c = 0%nat).
  { destruct c as [|c]; [reflexivity|]. exfalso.
    assert (L : (0 < S c)%nat) by lia.
    specialize (Hb 0%nat L). vm_compute in Hb. discriminate Hb. }
  subst c. cbn in Hl2. injection Hl2 as <-.
  destruct H as (k & Hk & E & Hmin).
  - vm_compute. split; discriminate.
  - vm_compute. discriminate.
  - vm_compute. discriminate.
  - assert (K : k = 0%nat).
    { specialize (Hmin 0%nat (Nat.le_0_l _)).
      destruct k as [|[|k]]; [reflexivity | | vm_compute in Hk; lia].
      vm_compute in Hmin. exfalso. apply Hmin. reflexivity. }
    subst k. rewrite E. eexists. split; reflexivity.
Defined.

(** Home in [twoLines] (caret at byte 3, on line 1) moves the caret to
    byte 2, where line 1 starts. *)
Lemma moveStart_one_byte_text_witness :
  exists e',
    moveStart label.align twoLines = Some e'
    /\ editBuffer.caret (rr e') = 2
    /\ carXOff e' = 0.
Proof.
  eexists. split.
  - apply (moveStart_one_byte_text label.align twoLines 1 1
             (sample.line [sample.glyph 98] 1) twoLines_oneByteLayout).
    + reflexivity.
    + reflexivity.
    + vm_compute. discriminate.
    + vm_compute. discriminate.
  - split; reflexivity.
Defined.

(** End in [twoLinesHome] (caret at byte 0, on line 0) moves the caret
    to byte 1, before the line break. *)
Lemma moveEnd_one_byte_text_witness :
  exists e',
    moveEnd label.align twoLinesHome = Some e'
    /\ editBuffer.caret (rr e') = 1
    /\ carXOff e' = 0.
Proof.
  eexists. split.
  - apply (moveEnd_one_byte_text label.align twoLinesHome 0 0
             (sample.line [sample.glyph 97; sample.nl] 2)
             twoLinesHome_oneByteLayout).
    + reflexivity.
    + reflexivity.
    + vm_compute. discriminate.
    + vm_compute. discriminate.
    + vm_compute. split; discriminate.
  - split; reflexivity.
Defined.

(** ** Frames and events *)

(** Closes the goals that hold by computing the fields. *)
Ltac frame := try (repeat split; fail).

Lemma sameSettings_refl (e : Editor) : sameSettings e e.
Proof. repeat split. Qed.

Lemma sameSettings_trans (e1 e2 e3 : Editor) :
  sameSettings e1 e2 -> sameSettings e2 e3 -> sameSettings e1 e3.
Proof.
  unfold sameSettings.
  intros (A1 & A2 & A3 & A4 & A5 & A6 & A7 & A8 & A9)
         (B1 & B2 & B3 & B4 & B5 & B6 & B7 & B8 & B9).
  repeat split; congruence.
Qed.

Lemma processed_refl (e : Editor) : processed e e.
Proof.
  split; [apply sameSettings_refl|]. split.
  - right. repeat split.
  - exists []. now rewrite app_nil_r.
Qed.

Lemma processed_trans (e1 e2 e3 : Editor) :
  processed e1 e2 -> processed e2 e3 -> processed e1 e3.
Proof.
  intros (S1 & K1 & (n1 & Q1)) (S2 & K2 & (n2 & Q2)).
  split; [eapply sameSettings_trans; eassumption|]. split.
  - destruct K2 as [F | (V2 & L2 & D2 & C2)]; [now left|].
    destruct K1 as [F | (V1 & L1 & D1 & C1)]; [left; congruence|].
    right. repeat split; congruence.
  - exists (n1 ++ n2). rewrite Q2, Q1. now rewrite app_assoc.
Qed.

(** A change of the caret alone, or of fields outside the settings, the
    layout and the events. *)
Lemma processed_fields (e e' : Editor) :
  sameSettings e e' ->
  valid e' = valid e -> lines e' = lines e -> dims e' = dims e ->
  editBuffer.content (rr e') = editBuffer.content (rr e) ->
  events e' = events e ->
  processed e e'.
Proof.
  intros S V L D C Q. split; [exact S|]. split.
  - right. repeat split; assumption.
  - exists []. now rewrite app_nil_r.
Qed.

(** A change of the text that marks the layout stale. *)
Lemma processed_stale (e e' : Editor) :
  sameSettings e e' -> valid e' = false -> events e' = events e ->
  processed e e'.
Proof.
  intros S V Q. split; [exact S|]. split.
  - now left.
  - exists []. now rewrite app_nil_r.
Qed.

Lemma backRunes_content (n : nat) (b b' : editBuffer.t) :
  backRunes n b = Some b' -> editBuffer.content b' = editBuffer.content b.
Proof.
  revert b. induction n as [|n IH]; intros b H.
  - now injection H as <-.
  - cbn [backRunes] in H. unfold bind in H.
    destruct (editBuffer.runeBefore b (editBuffer.caret b)) as [[r s]|];
      [|discriminate H].
    apply IH in H. exact H.
Qed.

Lemma closestRune_content (gs : list text.Glyph) (b b' : editBuffer.t)
      (carX carX2 x' : fixed.Int26_6) :
  closestRune b carX carX2 gs = Some (b', x') ->
  editBuffer.content b' = editBuffer.content b.
Proof.
  revert b carX2. induction gs as [|g gs IH]; intros b carX2 H.
  - now injection H as <- _.
  - cbn [closestRune] in H.
    destruct (carX <=? carX2); [now injection H as <- _|].
    destruct (_ <=? _); [now injection H as <- _|].
    unfold bind in H.
    destruct (editBuffer.runeAt b (editBuffer.caret b)) as [[r s]|];
      [|discriminate H].
    apply IH in H. exact H.
Qed.

Lemma startRunes_content (n : nat) (gs : list text.Glyph)
      (b b' : editBuffer.t) (x x' : fixed.Int26_6) :
  startRunes n gs b x = Some (b', x') ->
  editBuffer.content b' = editBuffer.content b.
Proof.
  revert b x. induction n as [|n IH]; intros b x H.
  - now injection H as <- _.
  - cbn [startRunes] in H. unfold bind in H.
    destruct (editBuffer.runeBefore b (editBuffer.caret b)) as [[r s]|];
      [|discriminate H].
    destruct (nth_error gs n); [|discriminate H].
    apply IH in H. exact H.
Qed.

Lemma endRunes_content (gs : list text.Glyph) (b b' : editBuffer.t)
      (x x' : fixed.Int26_6) :
  endRunes gs b x = Some (b', x') ->
  editBuffer.content b' = editBuffer.content b.
Proof.
  revert b x. induction gs as [|g gs IH]; intros b x H.
  - now injection H as <- _.
  - cbn [endRunes] in H. unfold bind in H.
    destruct (editBuffer.runeAt b (editBuffer.caret b)) as [[r s]|];
      [|discriminate H].
    apply IH in H. exact H.
Qed.

Lemma move_content (b b' : editBuffer.t) (runes : Z) :
  editBuffer.move b runes = Some b' ->
  editBuffer.content b' = editBuffer.content b.
Proof.
  unfold editBuffer.move. destruct (runes <? 0).
  - generalize (Z.to_nat (- runes)). intros n. revert b.
    induction n as [|n IH]; intros b H.
    + now injection H as <-.
    + cbn [editBuffer.moveBack] in H.
      destruct (0 <? editBuffer.caret b); [|now injection H as <-].
      unfold bind in H.
      destruct (editBuffer.runeBefore b (editBuffer.caret b)) as [[r s]|];
        [|discriminate H].
      apply IH in H. exact H.
  - generalize (Z.to_nat runes). intros n. revert b.
    induction n as [|n IH]; intros b H.
    + now injection H as <-.
    + cbn [editBuffer.moveFwd] in H.
      destruct (editBuffer.caret b <? editBuffer.len b);
        [|now injection H as <-].
      unfold bind in H.
      destruct (editBuffer.runeAt b (editBuffer.caret b)) as [[r s]|];
        [|discriminate H].
      apply IH in H. exact H.
Qed.

Section Frames.

Variable align : text.Alignment -> fixed.Int26_6 -> Z -> fixed.Int26_6.
Variable linesDimens : list text.Line -> layout.Dimensions.
Variable maskedReader : Z -> list byte -> list byte.
Variable inf : Z.

(** [moveToLine] changes the caret and nothing else. *)
Lemma moveToLine_caret_only (e e' : Editor) (carX r : fixed.Int26_6)
      (carLine2 : Z) :
  moveToLine align e carX carLine2 = Some (e', r) ->
  exists b, e' = set_rr b e
            /\ editBuffer.content b = editBuffer.content (rr e).
Proof.
  unfold moveToLine, bind. intros H.
  destruct (layoutCaret align e) as [[[[carLine carCol] x] y]|];
    [|discriminate H].
  destruct (backRunes (Z.to_nat carCol) (rr e)) as [b1|] eqn:B;
    [|discriminate H].
  destruct (GoInt.index (lines e) (clampLine e carLine2)) as [l2|];
    [|discriminate H].
  destruct (closestRune _ _ _ _) as [[b2 x2]|] eqn:C; [|discriminate H].
  injection H as <- _. exists b2. split; [reflexivity|].
  apply closestRune_content in C. apply backRunes_content in B.
  rewrite C. exact B.
Qed.

Lemma processed_set_rr (e : Editor) (b : editBuffer.t) :
  editBuffer.content b = editBuffer.content (rr e) ->
  processed e (set_rr b e).
Proof. intros C. apply processed_fields; frame. exact C. Qed.

Lemma moveToLine_processed (e e' : Editor) (carX r : fixed.Int26_6)
      (carLine2 : Z) :
  moveToLine align e carX carLine2 = Some (e', r) -> processed e e'.
Proof.
  intros H. apply moveToLine_caret_only in H. destruct H as (b & -> & C).
  now apply processed_set_rr.
Qed.

Lemma append_processed (e e' : Editor) (s : list byte) :
  append e s = Some e' -> processed e e'.
Proof.
  unfold append, prepend, bind.
  destruct (editBuffer.prepend (rr e) _) as [b|]; [|discriminate].
  intros [= <-]. apply processed_stale; frame.
Qed.

Lemma Delete_processed (e e' : Editor) (runes : Z) :
  Delete e runes = Some e' -> processed e e'.
Proof.
  unfold Delete, bind.
  destruct (editBuffer.deleteRunes (rr e) runes); [|discriminate].
  intros [= <-]. apply processed_stale; frame.
Qed.

Lemma Move_processed (e e' : Editor) (distance : Z) :
  Move e distance = Some e' -> processed e e'.
Proof.
  unfold Move, bind.
  destruct (editBuffer.move (rr e) distance) as [b|] eqn:M; [|discriminate].
  intros [= <-]. apply move_content in M.
  apply processed_fields; frame. exact M.
Qed.

Lemma movePages_processed (e e' : Editor) (pages : Z) :
  movePages align e pages = Some e' -> processed e e'.
Proof.
  unfold movePages, bind.
  destruct (layoutCaret align e) as [[[[carLine carCol] x] y]|];
    [|discriminate].
  destruct (GoInt.index (lines e) 0); [|discriminate].
  destruct (moveToLine align e _ _) as [[e1 off]|] eqn:M; [|discriminate].
  intros [= <-]. apply moveToLine_caret_only in M. destruct M as (b & -> & C).
  apply processed_fields; frame. exact C.
Qed.

Lemma moveStart_processed (e e' : Editor) :
  moveStart align e = Some e' -> processed e e'.
Proof.
  unfold moveStart, bind.
  destruct (layoutCaret align e) as [[[[carLine carCol] x] y]|];
    [|discriminate].
  destruct (GoInt.index (lines e) carLine); [|discriminate].
  destruct (startRunes _ _ _ _) as [[b x']|] eqn:S; [|discriminate].
  intros [= <-]. apply startRunes_content in S.
  apply processed_fields; frame. exact S.
Qed.

Lemma moveEnd_processed (e e' : Editor) :
  moveEnd align e = Some e' -> processed e e'.
Proof.
  unfold moveEnd, bind.
  destruct (layoutCaret align e) as [[[[carLine carCol] x] y]|];
    [|discriminate].
  destruct (GoInt.index (lines e) carLine); [|discriminate].
  destruct (endRunes _ _ _) as [[b x']|] eqn:S; [|discriminate].
  intros [= <-]. apply endRunes_content in S.
  apply processed_fields; frame. exact S.
Qed.

Lemma command_processed (e e' : Editor) (k : key.Event) (ran : bool) :
  command align e k = Some (e', ran) -> processed e e'.
Proof.
  unfold command. intros H.
  destruct (key.EName k); unfold bind in H;
    try (match type of H with
         | match ?x with _ => _ end = _ =>
           destruct x as [e1|] eqn:E; [|discriminate H]
         end;
         injection H as <- _;
         first [ now apply append_processed in E
               | now apply Delete_processed in E
               | now apply Move_processed in E
               | now apply movePages_processed in E
               | now apply moveStart_processed in E
               | now apply moveEnd_processed in E ]).
  - destruct (layoutCaret align e) as [[[[line carCol] x] y]|];
      [|discriminate H].
    destruct (moveToLine align e _ _) as [[e1 off]|] eqn:M; [|discriminate H].
    injection H as <- _. apply moveToLine_caret_only in M.
    destruct M as (b & -> & C). apply processed_fields; frame.
    exact C.
  - destruct (layoutCaret align e) as [[[[line carCol] x] y]|];
      [|discriminate H].
    destruct (moveToLine align e _ _) as [[e1 off]|] eqn:M; [|discriminate H].
    injection H as <- _. apply moveToLine_caret_only in M.
    destruct M as (b & -> & C). apply processed_fields; frame.
    exact C.
  - injection H as <- _. apply processed_refl.
Qed.

Lemma noteChange_processed (e : Editor) : processed e (noteChange e).
Proof.
  split; [|split].
  - unfold noteChange, editBuffer.Changed.
    destruct (editBuffer.changed (rr e)); repeat split.
  - right. unfold noteChange, editBuffer.Changed.
    destruct (editBuffer.changed (rr e)); repeat split.
  - eexists. apply noteChange_events.
Qed.

Lemma keyLoop_processed (evs : list key.InputEvent) (e e' : Editor) (now : Z) :
  keyLoop align e now evs = Some e' -> processed e e'.
Proof.
  revert e. induction evs as [|ke rest IH]; intros e H.
  - cbn in H. injection H as <-. apply processed_refl.
  - cbn [keyLoop] in H. cbv zeta in H.
    destruct ke as [f|k|s|].
    + apply IH in H. eapply processed_trans; [|exact H].
      eapply processed_trans; [|apply noteChange_processed].
      apply processed_fields; frame.
    + destruct (negb (focused (set_blinkStart now e))).
      { apply IH in H. eapply processed_trans; [|exact H].
        eapply processed_trans; [|apply noteChange_processed].
        apply processed_fields; frame. }
      destruct (_ && _ && _).
      { injection H as <-. split; [repeat split|]. split.
        - right. repeat split.
        - eexists. reflexivity. }
      unfold bind in H.
      destruct (command align (set_blinkStart now e) k) as [[e1 ran]|] eqn:C;
        [|discriminate H].
      apply command_processed in C.
      apply IH in H. eapply processed_trans; [|exact H].
      eapply processed_trans; [|apply noteChange_processed].
      eapply processed_trans; [exact C|].
      destruct ran; [apply processed_fields; frame | apply processed_refl].
    + unfold bind in H.
      destruct (append _ s) as [e1|] eqn:A; [|discriminate H].
      apply append_processed in A.
      apply IH in H. eapply processed_trans; [|exact H].
      eapply processed_trans; [|apply noteChange_processed].
      exact A.
    + apply IH in H. eapply processed_trans; [|exact H].
      eapply processed_trans; [|apply noteChange_processed].
      apply processed_fields; frame.
Qed.

Lemma clickLoop_processed (evs : list gesture.ClickEvent) (e e' : Editor)
      (now : Z) :
  clickLoop align e now evs = Some e' -> processed e e'.
Proof.
  revert e. induction evs as [|evt rest IH]; intros e H.
  - cbn in H. injection H as <-. apply processed_refl.
  - cbn [clickLoop] in H. destruct (isPress evt); [|now apply IH in H].
    unfold bind, moveCoord in H.
    destruct (moveToLine align _ _ _) as [[e1 r]|] eqn:M; [|discriminate H].
    cbn [bind] in H. apply moveToLine_caret_only in M.
    destruct M as (b & -> & C).
    apply IH in H. eapply processed_trans; [|exact H].
    destruct (scroller (set_requestFocus true (set_rr b (set_blinkStart now e))));
      apply processed_fields; frame; exact C.
Qed.

Lemma processPointer_processed (e e' : Editor) (gtx : Context) :
  processPointer align e gtx = Some e' -> processed e e'.
Proof.
  unfold processPointer. intros H.
  destruct (if SingleLine e then _ else _) as [smin smax].
  cbv zeta in H.
  remember (if SingleLine (set_scroller (ScrollStateNow gtx) e)
            then scrollRel align (set_scroller (ScrollStateNow gtx) e)
                           (ScrollDist gtx) 0
            else scrollRel align (set_scroller (ScrollStateNow gtx) e) 0
                           (ScrollDist gtx)) as e2 eqn:E2.
  assert (P2 : processed e e2).
  { rewrite E2. destruct (SingleLine (set_scroller (ScrollStateNow gtx) e));
      apply processed_fields; frame. }
  clear E2. unfold bind in H.
  destruct (clickLoop align e2 (Now gtx) (ClickEvents gtx)) as [e3|] eqn:K;
    [|discriminate H].
  apply clickLoop_processed in K.
  eapply processed_trans; [exact P2|].
  eapply processed_trans; [exact K|].
  destruct (_ || _); injection H as <-;
    [apply processed_fields; frame | apply processed_refl].
Qed.

Lemma layoutText_settings (e e' : Editor) :
  sameSettings e e' ->
  editBuffer.content (rr e') = editBuffer.content (rr e) ->
  layoutText linesDimens maskedReader e' (shaper e')
  = layoutText linesDimens maskedReader e (shaper e).
Proof.
  intros (_ & _ & _ & M & F & S & T & W & _) C.
  unfold layoutText, editBuffer.String. now rewrite M, F, S, T, W, C.
Qed.

Lemma upToDate_processed (e e' : Editor) :
  upToDate linesDimens maskedReader e -> processed e e' ->
  upToDate linesDimens maskedReader e'.
Proof.
  intros U (S & K & _) V.
  destruct K as [F | (Kv & Kl & Kd & Kc)]; [congruence|].
  rewrite (layoutText_settings e e' S Kc), Kl, Kd. apply U. congruence.
Qed.

(** [makeValid] lays the text out when the layout is stale, and changes
    nothing else. *)
Lemma makeValid_fields (e e1 : Editor) :
  makeValid linesDimens maskedReader e = Some e1 ->
  sameSettings e e1 /\ rr e1 = rr e /\ events e1 = events e
  /\ valid e1 = true
  /\ (upToDate linesDimens maskedReader e ->
      upToDate linesDimens maskedReader e1).
Proof.
  unfold makeValid, bind. destruct (valid e) eqn:V.
  - intros [= <-]. split; [apply sameSettings_refl|].
    split; [reflexivity|]. split; [reflexivity|]. split; [exact V|].
    intros U0. exact U0.
  - destruct (layoutText linesDimens maskedReader e (shaper e))
      as [[ls d]|] eqn:L; [|discriminate].
    intros [= <-]. split; [repeat split|]. split; [reflexivity|].
    split; [reflexivity|]. split; [reflexivity|].
    intros _ _. exact L.
Qed.

Lemma makeValid_total (e : Editor) :
  makeValid linesDimens maskedReader e = None
  <-> valid e = false /\ shaper e = None.
Proof.
  unfold makeValid, layoutText, bind.
  destruct (valid e); [split; [discriminate | intros [H _]; discriminate H]|].
  destruct (shaper e).
  - split; [discriminate | intros [_ H]; discriminate H].
  - split; [intros _; split; reflexivity | reflexivity].
Qed.

Lemma processEvents_frame (e e' : Editor) (gtx : Context) :
  processEvents align linesDimens maskedReader e gtx = Some e' ->
  sameSettings e e' /\ queuedAfter e e'
  /\ (upToDate linesDimens maskedReader e ->
      upToDate linesDimens maskedReader e').
Proof.
  unfold processEvents, processKey, bind. intros H.
  destruct (shaper e).
  2:{ injection H as <-. split; [apply sameSettings_refl|].
      split; [exists []; now rewrite app_nil_r | intros U0; exact U0]. }
  destruct (makeValid linesDimens maskedReader e) as [e1|] eqn:V;
    [|discriminate H].
  apply makeValid_fields in V. destruct V as (S1 & _ & Q1 & _ & U1).
  destruct (processPointer align e1 gtx) as [e2|] eqn:P; [|discriminate H].
  apply processPointer_processed in P.
  apply keyLoop_processed in H.
  assert (P' : processed e1 e').
  { eapply processed_trans; [exact P|].
    eapply processed_trans; [apply noteChange_processed | exact H]. }
  split; [|split].
  - eapply sameSettings_trans; [exact S1 | apply P'].
  - destruct P' as (_ & _ & (new & Q)). exists new. now rewrite Q, Q1.
  - intros U. eapply upToDate_processed; [apply U1, U | exact P'].
Qed.

Lemma scrollRel_shape (e : Editor) (dx dy : Z) :
  scrollRel align e dx dy
  = set_scrollOff (scrollOff (scrollRel align e dx dy)) e.
Proof. reflexivity. Qed.

Lemma set_scrollOff_caretScroll (p : image.Point) (c : bool) (e : Editor) :
  set_scrollOff p (set_caretScroll c e) = set_caretScroll c (set_scrollOff p e).
Proof. reflexivity. Qed.

Lemma set_scrollOff_again (p q : image.Point) (e : Editor) :
  set_scrollOff p (set_scrollOff q e) = set_scrollOff p e.
Proof. reflexivity. Qed.

Lemma set_caretScroll_same (e : Editor) :
  caretScroll e = false -> set_caretScroll false e = e.
Proof. destruct e. cbn. intros ->. reflexivity. Qed.

(** The end of [layout]: the focus request is cleared and the caret is
    shown as [blinkOf] tells. *)
Lemma layout_tail (e5 : Editor) (gtx : Context) :
  (let e := set_caretOn false (set_requestFocus false e5) in
   if focused e then
     let dt := Now gtx - blinkStart e in
     let blinking := dt <? maxBlinkDuration in
     Some (set_caretOn
             (focused e
              && (negb blinking
                  || (Z.rem dt timePerBlink <? timePerBlink / 2))) e)
   else Some e)
  = Some (set_caretOn (blinkOf e5 gtx) (set_requestFocus false e5)).
Proof.
  cbv zeta. unfold blinkOf.
  change (focused (set_caretOn false (set_requestFocus false e5)))
    with (focused e5).
  change (blinkStart (set_caretOn false (set_requestFocus false e5)))
    with (blinkStart e5).
  destruct (focused e5); reflexivity.
Qed.

(** The scroll adjustments of [layout] change the scroll offset and
    clear [caretScroll]. *)
Lemma layout_scroll (X e4 : Editor) (c : bool) :
  caretScroll X = c ->
  (if c then scrollToCaret align (set_caretScroll false (scrollRel align X 0 0))
   else Some (scrollRel align X 0 0)) = Some e4 ->
  exists p, e4 = set_caretScroll false (set_scrollOff p X).
Proof.
  intros C H. destruct c.
  - apply scrollToCaret_is_scrollRel in H. destruct H as (dx & dy & ->).
    rewrite scrollRel_shape.
    generalize (scrollOff (scrollRel align
                  (set_caretScroll false (scrollRel align X 0 0)) dx dy)).
    intros p1. rewrite (scrollRel_shape X 0 0).
    generalize (scrollOff (scrollRel align X 0 0)). intros p0.
    exists p1. rewrite set_scrollOff_caretScroll, set_scrollOff_again.
    reflexivity.
  - injection H as <-. rewrite (scrollRel_shape X 0 0).
    generalize (scrollOff (scrollRel align X 0 0)). intros p0.
    exists p0. symmetry. apply set_caretScroll_same. exact C.
Qed.

(** [layout] lays the text out if need be, sets the viewport, the scroll
    offset and the caret's blinking, and clears [caretScroll] and
    [requestFocus]; it changes nothing else. *)
Lemma layout_result (e e' : Editor) (gtx : Context) :
  layout align linesDimens maskedReader e gtx = Some e' ->
  exists e1 p,
    makeValid linesDimens maskedReader e = Some e1
    /\ e' = set_caretOn (blinkOf e1 gtx)
              (set_requestFocus false
                 (set_caretScroll false
                    (set_scrollOff p (viewOf e1 gtx)))).
Proof.
  unfold layout, bind. intros H.
  destruct (makeValid linesDimens maskedReader e) as [e1|]; [|discriminate H].
  exists e1. fold (viewOf e1 gtx) in H.
  change (caretScroll (scrollRel align (viewOf e1 gtx) 0 0))
    with (caretScroll e1) in H.
  destruct (if caretScroll e1
            then scrollToCaret align
                   (set_caretScroll false (scrollRel align (viewOf e1 gtx) 0 0))
            else Some (scrollRel align (viewOf e1 gtx) 0 0)) as [e4|] eqn:S;
    [|discriminate H].
  apply (layout_scroll (viewOf e1 gtx) e4 (caretScroll e1) eq_refl) in S.
  destruct S as (p & ->). exists p. split; [reflexivity|].
  change (blinkOf e1 gtx)
    with (blinkOf (set_caretScroll false (set_scrollOff p (viewOf e1 gtx))) gtx).
  generalize dependent (set_caretScroll false (set_scrollOff p (viewOf e1 gtx))).
  intros e5 H. rewrite layout_tail in H. now injection H as <-.
Qed.

End Frames.

(** *** The steps of [Layout] *)

Lemma resettled_refl (e : Editor) : resettled e e.
Proof. repeat split. right. repeat split. Qed.

Lemma resettled_trans (e1 e2 e3 : Editor) :
  resettled e1 e2 -> resettled e2 e3 -> resettled e1 e3.
Proof.
  unfold resettled.
  intros (A1 & A2 & A3 & A4 & A5 & A6 & A7 & A8)
         (B1 & B2 & B3 & B4 & B5 & B6 & B7 & B8).
  repeat split; try congruence.
  destruct B8 as [F | (V & L & D & Fo & T & W & S)]; [now left|].
  destruct A8 as [F | (V' & L' & D' & Fo' & T' & W' & S')];
    [left; congruence|].
  right. repeat split; congruence.
Qed.

Lemma withFont_resettled (fnt : text.Font) (ts : fixed.Int26_6) (e : Editor) :
  resettled e (withFont fnt ts e)
  /\ font (withFont fnt ts e) = fnt
  /\ textSize (withFont fnt ts e) = ts.
Proof.
  unfold withFont.
  destruct (Z.eqb_spec (font e) fnt) as [F|F];
    destruct (Z.eqb_spec (textSize e) ts) as [T|T]; cbn [negb orb].
  - split; [apply resettled_refl|]. split; assumption.
  - split; [|split; reflexivity]. repeat split. now left.
  - split; [|split; reflexivity]. repeat split. now left.
  - split; [|split; reflexivity]. repeat split. now left.
Qed.

Lemma withMaxWidth_resettled (mw : Z) (e : Editor) :
  resettled e (withMaxWidth mw e)
  /\ maxWidth (withMaxWidth mw e) = mw
  /\ font (withMaxWidth mw e) = font e
  /\ textSize (withMaxWidth mw e) = textSize e.
Proof.
  unfold withMaxWidth.
  destruct (Z.eqb_spec mw (maxWidth e)) as [W|W]; cbn [negb].
  - split; [apply resettled_refl|]. repeat split. now symmetry.
  - split; [|repeat split]. repeat split. now left.
Qed.

Lemma sameShaper_refl (s : option text.Shaper) : sameShaper s s = true.
Proof. destruct s as [s|]; [apply Z.eqb_refl | reflexivity]. Qed.

Lemma withShaper_resettled (sh : option text.Shaper) (e : Editor) :
  resettled e (withShaper sh e)
  /\ sameShaper sh (shaper (withShaper sh e)) = true
  /\ maxWidth (withShaper sh e) = maxWidth e
  /\ font (withShaper sh e) = font e
  /\ textSize (withShaper sh e) = textSize e.
Proof.
  unfold withShaper.
  destruct (sameShaper sh (shaper e)) eqn:S; cbn [negb].
  - split; [apply resettled_refl|]. repeat split. exact S.
  - split; [|repeat split; apply sameShaper_refl]. repeat split. now left.
Qed.

Section FrameProperties.

Variable align : text.Alignment -> fixed.Int26_6 -> Z -> fixed.Int26_6.
Variable linesDimens : list text.Line -> layout.Dimensions.
Variable maskedReader : Z -> list byte -> list byte.
Variable inf : Z.

Lemma upToDate_resettled (e e' : Editor) :
  upToDate linesDimens maskedReader e -> resettled e e' ->
  upToDate linesDimens maskedReader e'.
Proof.
  intros U (_ & _ & _ & M & R & _ & _ & K) V.
  destruct K as [F | (Kv & Kl & Kd & Kf & Kt & Kw & Ks)]; [congruence|].
  rewrite Kl, Kd, <- U by congruence.
  unfold layoutText. now rewrite M, R, Kf, Kt, Kw, Ks.
Qed.

(** [Layout] is its four preparing steps, then [processEvents], then
    [layout]; it panics at once when [prevEvents] is not an index into the
    events. *)
Lemma Layout_unfold (e : Editor) (gtx : Context) (sh : option text.Shaper)
      (fnt : text.Font) (px : Z) :
  Layout align linesDimens maskedReader inf e gtx sh fnt px
  = if (prevEvents e <? 0) || (GoInt.len (events e) <? prevEvents e) then None
    else
      let eB := withFont fnt (fixed.I px) (flushed e) in
      let mw := if SingleLine eB then inf
                else layout.Max (layout.Width (Constraints gtx)) in
      e0 <- processEvents align linesDimens maskedReader
              (withShaper sh (withMaxWidth mw eB)) gtx ;;
      layout align linesDimens maskedReader e0 gtx.
Proof. reflexivity. Qed.

Lemma Layout_prepared (e e' : Editor) (gtx : Context)
      (sh : option text.Shaper) (fnt : text.Font) (px : Z) :
  Layout align linesDimens maskedReader inf e gtx sh fnt px = Some e' ->
  0 <= prevEvents e <= GoInt.len (events e)
  /\ exists eM e0,
      processEvents align linesDimens maskedReader eM gtx = Some e0
      /\ layout align linesDimens maskedReader e0 gtx = Some e'
      /\ resettled (flushed e) eM
      /\ font eM = fnt /\ textSize eM = fixed.I px
      /\ maxWidth eM = (if SingleLine e then inf
                        else layout.Max (layout.Width (Constraints gtx)))
      /\ sameShaper sh (shaper eM) = true.
Proof.
  rewrite Layout_unfold.
  destruct (Z.ltb_spec (prevEvents e) 0) as [B1|B1]; [discriminate|].
  destruct (Z.ltb_spec (GoInt.len (events e)) (prevEvents e)) as [B2|B2];
    [discriminate|].
  cbn [orb]. cbv zeta. intros H. split; [lia|].
  destruct (withFont_resettled fnt (fixed.I px) (flushed e)) as (R1 & F1 & T1).
  set (eB := withFont fnt (fixed.I px) (flushed e)) in *.
  assert (SB : SingleLine eB = SingleLine e) by apply R1.
  rewrite SB in H.
  set (mw := if SingleLine e then inf
             else layout.Max (layout.Width (Constraints gtx))) in *.
  destruct (withMaxWidth_resettled mw eB) as (R2 & W2 & F2 & T2).
  set (eC := withMaxWidth mw eB) in *.
  destruct (withShaper_resettled sh eC) as (R3 & S3 & W3 & F3 & T3).
  set (eD := withShaper sh eC) in *.
  clearbody eD eC eB.
  unfold bind in H.
  destruct (processEvents align linesDimens maskedReader eD gtx) as [e0|] eqn:P;
    [|discriminate H].
  exists eD, e0. split; [exact P|]. split; [exact H|].
  split; [eapply resettled_trans; [exact R1|];
          eapply resettled_trans; [exact R2 | exact R3]|].
  repeat split; congruence.
Qed.

(** What [layout] leaves as it finds it. *)
Lemma layout_frame (e e' : Editor) (gtx : Context) :
  layout align linesDimens maskedReader e gtx = Some e' ->
  sameSettings e e' /\ rr e' = rr e /\ events e' = events e
  /\ focused e' = focused e /\ blinkStart e' = blinkStart e
  /\ valid e' = true /\ caretScroll e' = false /\ requestFocus e' = false
  /\ caretOn e' = blinkOf e gtx
  /\ viewSize e' = layout.Constrain (Constraints gtx) (layout.Size (dims e'))
  /\ (valid e = true -> lines e' = lines e /\ dims e' = dims e)
  /\ (upToDate linesDimens maskedReader e ->
      upToDate linesDimens maskedReader e').
Proof.
  intros H. apply layout_result in H. destruct H as (e1 & p & V & ->).
  assert (O : focused e1 = focused e /\ blinkStart e1 = blinkStart e
              /\ (valid e = true -> lines e1 = lines e /\ dims e1 = dims e)).
  { unfold makeValid, bind in V. destruct (valid e).
    - injection V as <-. repeat split.
    - destruct (layoutText linesDimens maskedReader e (shaper e)) as [[ls d]|];
        [|discriminate V].
      injection V as <-. repeat split; discriminate. }
  destruct O as (O1 & O2 & O3).
  apply makeValid_fields in V. destruct V as (S & R & Q & V & U).
  split; [exact S|]. split; [exact R|]. split; [exact Q|].
  split; [exact O1|]. split; [exact O2|]. split; [exact V|].
  split; [reflexivity|]. split; [reflexivity|].
  split; [unfold blinkOf; cbn [caretOn set_caretOn]; now rewrite O1, O2|].
  split; [reflexivity|]. split; [exact O3|].
  intros U0. exact (U U0).
Qed.

Lemma Layout_events_once (e e' : Editor) (gtx : Context)
      (sh : option text.Shaper) (fnt : text.Font) (px : Z) :
  Layout align linesDimens maskedReader inf e gtx sh fnt px = Some e' ->
  0 <= prevEvents e <= GoInt.len (events e)
  /\ exists new,
      events e' = skipn (Z.to_nat (prevEvents e)) (events e) ++ new
      /\ prevEvents e'
         = GoInt.len (skipn (Z.to_nat (prevEvents e)) (events e)).
Proof.
  intros H. apply Layout_prepared in H.
  destruct H as (B & eM & e0 & P & L & R & _).
  split; [exact B|].
  apply processEvents_frame in P. destruct P as (S1 & (new & Q1) & _).
  apply layout_frame in L. destruct L as (S2 & _ & Q2 & _).
  destruct R as (_ & _ & _ & _ & _ & RQ & RP & _).
  exists new. split.
  - rewrite Q2, Q1, RQ. reflexivity.
  - destruct S1 as (_ & _ & _ & _ & _ & _ & _ & _ & P1).
    destruct S2 as (_ & _ & _ & _ & _ & _ & _ & _ & P2).
    rewrite P2, P1, RP. reflexivity.
Qed.

(** [Layout] keeps an event for one more frame.  It drops the events
    that were queued before the previous frame (the first [prevEvents]
    of the queue), adds those of this frame and remembers where they
    start, so [prevEvents] stays an index into the queue.  Of the events a
    first [Layout] leaves, the next [Layout] keeps exactly the ones the
    first added. *)
Theorem Layout_flushes_events (e e1 : Editor) (gtx : Context)
        (sh : option text.Shaper) (fnt : text.Font) (px : Z) :
  Layout align linesDimens maskedReader inf e gtx sh fnt px = Some e1 ->
  0 <= prevEvents e <= GoInt.len (events e)
  /\ exists new1,
      events e1 = skipn (Z.to_nat (prevEvents e)) (events e) ++ new1
      /\ prevEvents e1 = GoInt.len (events e) - prevEvents e
      /\ 0 <= prevEvents e1 <= GoInt.len (events e1)
      /\ forall gtx' sh' fnt' px' e2,
          Layout align linesDimens maskedReader inf e1 gtx' sh' fnt' px'
          = Some e2 ->
          exists new2,
            events e2 = new1 ++ new2 /\ prevEvents e2 = GoInt.len new1.
Proof.
  intros H. apply Layout_events_once in H.
  destruct H as (B & new1 & Q & P). split; [exact B|].
  exists new1. split; [exact Q|].
  assert (Lk : GoInt.len (skipn (Z.to_nat (prevEvents e)) (events e))
               = GoInt.len (events e) - prevEvents e).
  { unfold GoInt.len in *. rewrite length_skipn. lia. }
  split; [now rewrite P|]. split.
  { rewrite P, Q. unfold GoInt.len in *. rewrite length_app. lia. }
  intros gtx' sh' fnt' px' e2 H2. apply Layout_events_once in H2.
  destruct H2 as (_ & new2 & Q2 & P2).
  assert (Sk : skipn (Z.to_nat (prevEvents e1)) (events e1) = new1).
  { rewrite P, Q. unfold GoInt.len. rewrite Nat2Z.id.
    rewrite skipn_app, skipn_all, Nat.sub_diag. reflexivity. }
  exists new2. rewrite Sk in Q2, P2. split; assumption.
Qed.

Lemma Layout_fields (e e' : Editor) (gtx : Context)
        (sh : option text.Shaper) (fnt : text.Font) (px : Z) :
  Layout align linesDimens maskedReader inf e gtx sh fnt px = Some e' ->
  valid e' = true /\ caretScroll e' = false /\ requestFocus e' = false
  /\ font e' = fnt /\ textSize e' = fixed.I px
  /\ maxWidth e' = (if SingleLine e then inf
                    else layout.Max (layout.Width (Constraints gtx)))
  /\ sameShaper sh (shaper e') = true
  /\ Alignment e' = Alignment e /\ SingleLine e' = SingleLine e
  /\ Submit e' = Submit e /\ Mask e' = Mask e
  /\ viewSize e' = layout.Constrain (Constraints gtx) (layout.Size (dims e')).
Proof.
  intros H. apply Layout_prepared in H.
  destruct H as (_ & eM & e0 & P & L & R & F & T & W & S).
  apply processEvents_frame in P. destruct P as (S1 & _ & _).
  apply layout_frame in L.
  destruct L as (S2 & _ & _ & _ & _ & V & C & Q & _ & VS & _).
  pose proof (sameSettings_trans eM e0 e' S1 S2)
    as (A1 & A2 & A3 & A4 & A5 & A6 & A7 & A8 & _).
  destruct R as (R1 & R2 & R3 & R4 & _).
  unfold flushed in R1, R2, R3, R4.
  cbn [Alignment SingleLine Submit Mask set_prevEvents set_events]
    in R1, R2, R3, R4.
  repeat split; try assumption; congruence.
Qed.

(** After [Layout] the editor has the font, text size and shaper of the
    call and the width of the frame (or [inf] in single-line mode), its
    text is laid out, the scroll to the caret and the focus request are
    done with, and the viewport is the size of the text brought within
    the frame's constraints.  The alignment, the modes and the mask are
    as before. *)
Theorem Layout_settles (e e' : Editor) (gtx : Context)
        (sh : option text.Shaper) (fnt : text.Font) (px : Z) :
  Layout align linesDimens maskedReader inf e gtx sh fnt px = Some e' ->
  valid e' = true /\ caretScroll e' = false /\ requestFocus e' = false
  /\ font e' = fnt /\ textSize e' = fixed.I px
  /\ maxWidth e' = (if SingleLine e then inf
                    else layout.Max (layout.Width (Constraints gtx)))
  /\ sameShaper sh (shaper e') = true
  /\ Alignment e' = Alignment e /\ SingleLine e' = SingleLine e
  /\ Submit e' = Submit e /\ Mask e' = Mask e
  /\ viewSize e' = layout.Constrain (Constraints gtx) (layout.Size (dims e')).
Proof. apply Layout_fields. Qed.

Lemma Layout_upToDate (e e' : Editor) (gtx : Context)
      (sh : option text.Shaper) (fnt : text.Font) (px : Z) :
  upToDate linesDimens maskedReader e ->
  Layout align linesDimens maskedReader inf e gtx sh fnt px = Some e' ->
  upToDate linesDimens maskedReader e'.
Proof.
  intros U H. apply Layout_prepared in H.
  destruct H as (_ & eM & e0 & P & L & R & _).
  apply processEvents_frame in P. destruct P as (_ & _ & U1).
  apply layout_frame in L.
  destruct L as (_ & _ & _ & _ & _ & _ & _ & _ & _ & _ & _ & U2).
  apply U2, U1. apply (upToDate_resettled (flushed e) eM); [|exact R].
  exact U.
Qed.

(** The laid-out lines never go stale.  An editor is up to date when,
    being marked valid, it holds the lines and dimensions that
    [layoutText] gives for its text and settings; every method keeps an
    editor up to date, the ones that change the text by marking the
    layout stale. *)
Theorem layout_cache_invariant (e : Editor) :
  upToDate linesDimens maskedReader e ->
  (forall s e', SetText e s = Some e' -> upToDate linesDimens maskedReader e')
  /\ (forall s e', Insert e s = Some e' ->
                   upToDate linesDimens maskedReader e')
  /\ (forall n e', Delete e n = Some e' ->
                   upToDate linesDimens maskedReader e')
  /\ (forall n e', Move e n = Some e' -> upToDate linesDimens maskedReader e')
  /\ upToDate linesDimens maskedReader (Focus e)
  /\ (forall e' n, NumLines linesDimens maskedReader e = Some (e', n) ->
                   upToDate linesDimens maskedReader e')
  /\ (forall gtx e' evs,
         Events align linesDimens maskedReader e gtx = Some (e', evs) ->
         upToDate linesDimens maskedReader e')
  /\ (forall gtx sh fnt px e',
         Layout align linesDimens maskedReader inf e gtx sh fnt px = Some e' ->
         upToDate linesDimens maskedReader e').
Proof.
  intros U. split; [|split; [|split; [|split; [|split; [|split; [|split]]]]]].
  - intros s e'. unfold SetText, prepend, bind.
    destruct (editBuffer.prepend _ s); [|discriminate].
    intros [= <-] V. discriminate V.
  - intros s e'. unfold Insert, bind.
    destruct (append e s); [|discriminate].
    intros [= <-] V. discriminate V.
  - intros n e' H. apply Delete_processed in H.
    exact (upToDate_processed linesDimens maskedReader e e' U H).
  - intros n e' H. apply Move_processed in H.
    exact (upToDate_processed linesDimens maskedReader e e' U H).
  - exact U.
  - intros e' n. unfold NumLines, bind.
    destruct (makeValid linesDimens maskedReader e) as [e1|] eqn:V;
      [|discriminate].
    intros [= <- _]. apply makeValid_fields in V. apply V, U.
  - intros gtx e' evs. unfold Events, bind.
    destruct (processEvents align linesDimens maskedReader e gtx) as [e1|] eqn:P;
      [|discriminate].
    intros [= <- _]. apply processEvents_frame in P.
    destruct P as (_ & _ & U1). exact (U1 U).
  - intros gtx sh fnt px e' H.
    exact (Layout_upToDate e e' gtx sh fnt px U H).
Qed.

(** After [Layout] of an editor that was up to date, the lines are the
    shaper's layout of the text the editor now holds (masked if a mask is
    set), in the font and size of the call and the width of the frame. *)
Theorem Layout_lays_out_the_text (e e' : Editor) (gtx : Context)
        (sh : option text.Shaper) (fnt : text.Font) (px : Z) :
  upToDate linesDimens maskedReader e ->
  Layout align linesDimens maskedReader inf e gtx sh fnt px = Some e' ->
  exists s,
    shaper e' = Some s
    /\ sameShaper sh (Some s) = true
    /\ lines e'
       = text.ShaperLayout s fnt (fixed.I px)
           (if SingleLine e then inf
            else layout.Max (layout.Width (Constraints gtx)))
           (if negb (Mask e =? 0) then maskedReader (Mask e) (Text e')
            else Text e').
Proof.
  intros U H.
  pose proof (Layout_upToDate e e' gtx sh fnt px U H) as U'.
  apply Layout_fields in H.
  destruct H as (V & _ & _ & F & T & W & S & _ & _ & _ & M & _).
  specialize (U' V). unfold layoutText, bind in U'.
  destruct (shaper e') as [s|]; [|discriminate U'].
  exists s. split; [reflexivity|]. split; [exact S|].
  injection U' as L _. rewrite <- L, F, T, W, M. reflexivity.
Qed.

Lemma keyLoop_reported (evs : list key.InputEvent) (e e' : Editor) (now : Z) :
  editBuffer.changed (rr e) = false ->
  keyLoop align e now evs = Some e' ->
  editBuffer.changed (rr e') = false.
Proof.
  revert e. induction evs as [|ke rest IH]; intros e C H.
  - cbn in H. now injection H as <-.
  - cbn [keyLoop] in H. cbv zeta in H.
    destruct ke as [f|k|s|].
    + apply IH in H; [exact H|]. now rewrite noteChange_rr.
    + destruct (negb (focused (set_blinkStart now e))).
      { apply IH in H; [exact H|]. now rewrite noteChange_rr. }
      destruct (_ && _ && _).
      { injection H as <-. exact C. }
      unfold bind in H.
      destruct (command align (set_blinkStart now e) k) as [[e1 ran]|];
        [|discriminate H].
      apply IH in H; [exact H|]. now rewrite noteChange_rr.
    + unfold bind in H.
      destruct (append _ s) as [e1|]; [|discriminate H].
      apply IH in H; [exact H|]. now rewrite noteChange_rr.
    + apply IH in H; [exact H|]. now rewrite noteChange_rr.
Qed.

Lemma clickLoop_no_press (evs : list gesture.ClickEvent) (e : Editor)
      (now : Z) :
  existsb isPress evs = false -> clickLoop align e now evs = Some e.
Proof.
  induction evs as [|evt rest IH]; intros H; [reflexivity|].
  cbn [existsb] in H. apply orb_false_iff in H. destruct H as [H1 H2].
  cbn [clickLoop]. rewrite H1. apply IH, H2.
Qed.

(** Without a press, [processPointer] only scrolls. *)
Lemma processPointer_no_press (e : Editor) (gtx : Context) :
  existsb isPress (ClickEvents gtx) = false ->
  exists e',
    processPointer align e gtx = Some e'
    /\ sameSettings e e'
    /\ rr e' = rr e /\ events e' = events e
    /\ requestFocus e' = requestFocus e /\ caretScroll e' = caretScroll e
    /\ carXOff e' = carXOff e /\ focused e' = focused e
    /\ valid e' = valid e /\ lines e' = lines e /\ dims e' = dims e.
Proof.
  intros H. unfold processPointer.
  destruct (if SingleLine e then _ else _) as [smin smax].
  cbv zeta.
  remember (if SingleLine (set_scroller (ScrollStateNow gtx) e)
            then scrollRel align (set_scroller (ScrollStateNow gtx) e)
                           (ScrollDist gtx) 0
            else scrollRel align (set_scroller (ScrollStateNow gtx) e) 0
                           (ScrollDist gtx)) as e2 eqn:E2.
  assert (F : sameSettings e e2
              /\ rr e2 = rr e /\ events e2 = events e
              /\ requestFocus e2 = requestFocus e
              /\ caretScroll e2 = caretScroll e
              /\ carXOff e2 = carXOff e /\ focused e2 = focused e
              /\ valid e2 = valid e /\ lines e2 = lines e /\ dims e2 = dims e).
  { rewrite E2. destruct (SingleLine (set_scroller (ScrollStateNow gtx) e));
      repeat split. }
  clear E2. rewrite (clickLoop_no_press _ e2 (Now gtx) H). cbn [bind].
  destruct (_ || _); eexists; (split; [reflexivity|]); exact F.
Qed.

(** [Events] hands out each event once.  It returns the events that were
    queued, followed by those of the frame, and leaves the queue empty; a
    second call in a frame without key or click events returns no event. *)
Theorem Events_hands_out_once (e e1 : Editor) (gtx : Context)
        (evs : list Event) :
  Events align linesDimens maskedReader e gtx = Some (e1, evs) ->
  (exists new, evs = events e ++ new)
  /\ events e1 = [] /\ prevEvents e1 = 0
  /\ forall gtx',
      KeyEvents gtx' = [] -> ClickEvents gtx' = [] ->
      exists e2, Events align linesDimens maskedReader e1 gtx' = Some (e2, []).
Proof.
  unfold Events at 1. unfold bind. intros H.
  destruct (processEvents align linesDimens maskedReader e gtx) as [e0|] eqn:P;
    [|discriminate H].
  injection H as <- <-.
  pose proof (processEvents_frame align linesDimens maskedReader e e0 gtx P)
    as (S & Q & _).
  split; [exact Q|]. split; [reflexivity|]. split; [reflexivity|].
  intros gtx' HK HC.
  set (e1 := set_prevEvents 0 (set_events [] e0)).
  assert (S1 : shaper e1 = shaper e) by apply S.
  unfold Events, processEvents. rewrite S1.
  destruct (shaper e) as [s|] eqn:Sh.
  2:{ cbn [bind]. eexists. reflexivity. }
  assert (C0 : editBuffer.changed (rr e0) = false).
  { unfold processEvents in P. rewrite Sh in P. unfold bind, processKey in P.
    destruct (makeValid linesDimens maskedReader e); [|discriminate P].
    destruct (processPointer align _ gtx); [|discriminate P].
    apply keyLoop_reported in P; [exact P|]. now rewrite noteChange_rr. }
  destruct (makeValid linesDimens maskedReader e1) as [e2|] eqn:V.
  2:{ apply makeValid_total in V. destruct V as [_ V]. congruence. }
  apply makeValid_fields in V. destruct V as (_ & R2 & Q2 & _).
  cbn [bind].
  destruct (processPointer_no_press e2 gtx') as (e3 & -> & _ & R3 & Q3 & _).
  { now rewrite HC. }
  cbn [bind]. unfold processKey. rewrite HK. cbn [keyLoop bind].
  eexists. f_equal. f_equal.
  rewrite noteChange_events, Q3, Q2, R3, R2.
  subst e1. cbn [rr events set_prevEvents set_events]. now rewrite C0.
Qed.

(** Key presses reach a focused editor only.  In an editor without the
    focus a frame of key events, whatever the keys, leaves the text, the
    caret and the remembered column as they are, asks for no scroll to
    the caret, cannot panic, and adds no event but the [ChangeEvent] owed
    for an earlier change. *)
Theorem keys_need_focus (e : Editor) (gtx : Context) :
  focused e = false ->
  forallb isKeyEvent (KeyEvents gtx) = true ->
  exists e',
    processKey align e gtx = Some e'
    /\ focused e' = false
    /\ Text e' = Text e
    /\ editBuffer.caret (rr e') = editBuffer.caret (rr e)
    /\ carXOff e' = carXOff e
    /\ caretScroll e' = caretScroll e
    /\ valid e' = valid e
    /\ events e' = events (noteChange e).
Proof.
  intros F K. unfold processKey.
  assert (G : forall evs e0,
             forallb isKeyEvent evs = true ->
             focused e0 = false -> editBuffer.changed (rr e0) = false ->
             exists e',
               keyLoop align e0 (Now gtx) evs = Some e'
               /\ focused e' = false /\ Text e' = Text e0
               /\ editBuffer.caret (rr e') = editBuffer.caret (rr e0)
               /\ carXOff e' = carXOff e0 /\ caretScroll e' = caretScroll e0
               /\ valid e' = valid e0 /\ events e' = events e0).
  { induction evs as [|ke rest IH]; intros e0 HK HF HC.
    - exists e0. repeat split. exact HF.
    - cbn [forallb] in HK. apply andb_true_iff in HK. destruct HK as [K1 K2].
      destruct ke as [f|k|s|]; try discriminate K1.
      cbn [keyLoop]. cbv zeta.
      change (focused (set_blinkStart (Now gtx) e0)) with (focused e0).
      rewrite HF. cbn [negb].
      destruct (IH (noteChange (set_blinkStart (Now gtx) e0)) K2)
        as (e' & E & P1 & P2 & P3 & P4 & P5 & P6 & P7).
      + destruct (noteChange_fields (set_blinkStart (Now gtx) e0))
          as (_ & _ & -> & _). exact HF.
      + now rewrite noteChange_rr.
      + exists e'. split; [exact E|]. split; [exact P1|].
        destruct (noteChange_fields (set_blinkStart (Now gtx) e0))
          as (_ & _ & _ & N4 & _ & N6).
        rewrite P2, P3, N4, N6.
        split; [reflexivity|]. split; [reflexivity|].
        rewrite P4, P5, P6, P7, noteChange_caretScroll, noteChange_events.
        cbn [rr set_blinkStart]. rewrite HC. rewrite app_nil_r.
        unfold noteChange, editBuffer.Changed. cbn [rr set_blinkStart].
        rewrite HC. repeat split. }
  destruct (G (KeyEvents gtx) (noteChange e) K)
    as (e' & E & P1 & P2 & P3 & P4 & P5 & P6 & P7).
  - destruct (noteChange_fields e) as (_ & _ & -> & _). exact F.
  - now rewrite noteChange_rr.
  - exists e'. split; [exact E|]. split; [exact P1|].
    destruct (noteChange_fields e) as (_ & _ & _ & N4 & _ & N6).
    rewrite P2, P3, P4, P5, P6, P7, N4, N6, noteChange_caretScroll.
    unfold noteChange, editBuffer.Changed.
    destruct (editBuffer.changed (rr e)); repeat split.
Qed.

Lemma clickLoop_effects (evs : list gesture.ClickEvent) (e e' : Editor)
      (now : Z) :
  clickLoop align e now evs = Some e' ->
  scroller e' = scroller e
  /\ editBuffer.content (rr e') = editBuffer.content (rr e)
  /\ events e' = events e
  /\ (requestFocus e = true -> requestFocus e' = true)
  /\ (blinkStart e = now -> blinkStart e' = now)
  /\ (existsb isPress evs = true ->
      requestFocus e' = true
      /\ blinkStart e' = now
      /\ (scroller e <> gesture.StateFlinging -> caretScroll e' = true)).
Proof.
  revert e. induction evs as [|evt rest IH]; intros e H.
  - cbn in H. injection H as <-.
    split; [reflexivity|]. split; [reflexivity|]. split; [reflexivity|].
    split; [intros F; exact F|]. split; [intros F; exact F|].
    intros F. discriminate F.
  - cbn [clickLoop] in H. cbn [existsb].
    destruct (isPress evt).
    2:{ cbn [orb]. apply IH, H. }
    unfold bind, moveCoord in H.
    destruct (moveToLine align _ _ _) as [[e1 r]|] eqn:M; [|discriminate H].
    cbn [bind] in H. apply moveToLine_caret_only in M.
    destruct M as (b & -> & C).
    change (scroller (set_requestFocus true (set_rr b (set_blinkStart now e))))
      with (scroller e) in H.
    cbn [orb].
    destruct (scroller e) eqn:Sc;
      pose proof (clickLoop_caretScroll align _ _ _ _ H) as CS;
      apply IH in H; destruct H as (H1 & H2 & H3 & H4 & H5 & _);
      change (scroller e' = scroller e) in H1;
      change (editBuffer.content (rr e') = editBuffer.content b) in H2;
      change (events e' = events e) in H3;
      change (true = true -> requestFocus e' = true) in H4;
      change (now = now -> blinkStart e' = now) in H5;
      (split; [now rewrite H1|]); (split; [rewrite H2; exact C|]);
      (split; [exact H3|]); (split; [intros _; now apply H4|]);
      (split; [intros _; now apply H5|]);
      intros _; (split; [now apply H4|]); (split; [now apply H5|]);
      intros N.
    + apply CS. reflexivity.
    + apply CS. reflexivity.
    + exfalso. apply N. reflexivity.
Qed.

(** Only presses move the caret, and they only move the caret.  A frame
    of clicks never changes the text or the events.  Without a mouse
    press or a touch click among them, [processPointer] also leaves the
    caret, the focus request and [caretScroll] alone and cannot panic;
    with one, it asks for the focus, restarts the caret's blinking and,
    unless the text is being flung, asks for a scroll to the caret. *)
Theorem presses_focus_and_scroll (e : Editor) (gtx : Context) :
  (existsb isPress (ClickEvents gtx) = false ->
   exists e',
     processPointer align e gtx = Some e'
     /\ rr e' = rr e /\ events e' = events e
     /\ requestFocus e' = requestFocus e
     /\ caretScroll e' = caretScroll e)
  /\ (forall e',
         processPointer align e gtx = Some e' ->
         Text e' = Text e /\ events e' = events e
         /\ (existsb isPress (ClickEvents gtx) = true ->
             requestFocus e' = true
             /\ blinkStart e' = Now gtx
             /\ (ScrollStateNow gtx <> gesture.StateFlinging ->
                 caretScroll e' = true))).
Proof.
  split.
  - intros N. destruct (processPointer_no_press e gtx N)
      as (e' & P & _ & R & Q & F & C & _).
    exists e'. repeat split; assumption.
  - intros e'. unfold processPointer.
    destruct (if SingleLine e then _ else _) as [smin smax].
    cbv zeta.
    remember (if SingleLine (set_scroller (ScrollStateNow gtx) e)
              then scrollRel align (set_scroller (ScrollStateNow gtx) e)
                             (ScrollDist gtx) 0
              else scrollRel align (set_scroller (ScrollStateNow gtx) e) 0
                             (ScrollDist gtx)) as e2 eqn:E2.
    assert (F : rr e2 = rr e /\ events e2 = events e
                /\ scroller e2 = ScrollStateNow gtx).
    { rewrite E2. destruct (SingleLine (set_scroller (ScrollStateNow gtx) e));
        repeat split. }
    clear E2. destruct F as (F1 & F2 & F3). unfold bind.
    destruct (clickLoop align e2 (Now gtx) (ClickEvents gtx)) as [e3|] eqn:K;
      [|discriminate].
    apply clickLoop_effects in K. destruct K as (_ & K2 & K3 & _ & _ & K6).
    rewrite F3 in K6. rewrite F1 in K2. rewrite F2 in K3.
    intros H.
    assert (G : rr e' = rr e3 /\ events e' = events e3
                /\ requestFocus e' = requestFocus e3
                /\ blinkStart e' = blinkStart e3
                /\ caretScroll e' = caretScroll e3).
    { destruct (_ || _); injection H as <-; repeat split. }
    destruct G as (G1 & G2 & G3 & G4 & G5).
    unfold Text, editBuffer.String. rewrite G1, G2, G3, G4, G5.
    split; [exact K2|]. split; [exact K3|]. exact K6.
Qed.

(** The caret blinks in a focused editor only: [layout] shows it all
    the time once ten seconds have passed since the last key or pointer
    event, before that in the first half of every second, and never in
    an editor without the focus. *)
Theorem caret_blinks (e e' : Editor) (gtx : Context) :
  layout align linesDimens maskedReader e gtx = Some e' ->
  let dt := Now gtx - blinkStart e in
  (focused e = false -> caretOn e' = false)
  /\ (focused e = true -> 10000000000 <= dt -> caretOn e' = true)
  /\ (focused e = true -> 0 <= dt < 10000000000 ->
      caretOn e' = (dt mod 1000000000 <? 500000000)).
Proof.
  intros H dt. apply layout_frame in H.
  destruct H as (_ & _ & _ & _ & _ & _ & _ & _ & C & _).
  rewrite C. unfold blinkOf. fold dt.
  cbv [maxBlinkDuration timePerBlink blinksPerSecond].
  change (10 * 1000000000) with 10000000000.
  change (1000000000 / 1) with 1000000000.
  change (1000000000 / 2) with 500000000.
  split; [intros ->; reflexivity|]. split.
  - intros -> D. destruct (Z.ltb_spec dt 10000000000); [lia|]. reflexivity.
  - intros -> D. destruct (Z.ltb_spec dt 10000000000); [|lia].
    cbn [negb orb andb]. rewrite Z.rem_mod_nonneg by lia. reflexivity.
Qed.

(** The viewport [layout] gives the editor is the size of its text
    brought within the frame's constraints: it always lies between their
    minimum and maximum, when these are in order. *)
Theorem layout_viewport (e e' : Editor) (gtx : Context) :
  layout align linesDimens maskedReader e gtx = Some e' ->
  viewSize e' = layout.Constrain (Constraints gtx) (layout.Size (dims e'))
  /\ (layout.Min (layout.Width (Constraints gtx))
      <= layout.Max (layout.Width (Constraints gtx)) ->
      layout.Min (layout.Width (Constraints gtx)) <= image.X (viewSize e')
      <= layout.Max (layout.Width (Constraints gtx)))
  /\ (layout.Min (layout.Height (Constraints gtx))
      <= layout.Max (layout.Height (Constraints gtx)) ->
      layout.Min (layout.Height (Constraints gtx)) <= image.Y (viewSize e')
      <= layout.Max (layout.Height (Constraints gtx))).
Proof.
  intros H. apply layout_frame in H.
  destruct H as (_ & _ & _ & _ & _ & _ & _ & _ & _ & V & _).
  split; [exact V|]. rewrite V.
  unfold layout.Constrain, layout.Constrain1. cbn [image.X image.Y].
  split; intros O.
  - destruct (Z.ltb_spec (image.X (layout.Size (dims e')))
                         (layout.Min (layout.Width (Constraints gtx))));
      [lia|].
    destruct (Z.ltb_spec (layout.Max (layout.Width (Constraints gtx)))
                         (image.X (layout.Size (dims e')))); lia.
  - destruct (Z.ltb_spec (image.Y (layout.Size (dims e')))
                         (layout.Min (layout.Height (Constraints gtx))));
      [lia|].
    destruct (Z.ltb_spec (layout.Max (layout.Height (Constraints gtx)))
                         (image.Y (layout.Size (dims e')))); lia.
Qed.

(** [NumLines] lays the text out if the layout is stale and counts the
    lines.  It panics exactly when the layout is stale and the editor has
    no shaper yet, as before its first [Layout]; a second call answers
    the same and changes nothing. *)
Theorem NumLines_counts_lines (e : Editor) :
  (NumLines linesDimens maskedReader e = None
   <-> valid e = false /\ shaper e = None)
  /\ forall e' n,
      NumLines linesDimens maskedReader e = Some (e', n) ->
      n = GoInt.len (lines e') /\ valid e' = true /\ Text e' = Text e
      /\ (valid e = true -> e' = e)
      /\ NumLines linesDimens maskedReader e' = Some (e', n).
Proof.
  split.
  - unfold NumLines, bind.
    destruct (makeValid linesDimens maskedReader e) as [e1|] eqn:V.
    + split; [discriminate|]. intros N.
      apply (proj2 (makeValid_total linesDimens maskedReader e)) in N.
      congruence.
    + split; [intros _|reflexivity].
      exact (proj1 (makeValid_total linesDimens maskedReader e) V).
  - intros e' n. unfold NumLines at 1. unfold bind.
    destruct (makeValid linesDimens maskedReader e) as [e1|] eqn:V;
      [|discriminate].
    intros [= <- <-].
    pose proof (makeValid_fields linesDimens maskedReader e e1 V)
      as (_ & R & _ & V1 & _).
    split; [reflexivity|]. split; [exact V1|].
    split; [unfold Text; now rewrite R|]. split.
    + intros Ve. unfold makeValid in V. rewrite Ve in V. now injection V.
    + unfold NumLines, makeValid. rewrite V1. reflexivity.
Qed.

End FrameProperties.

(** ** Inserting text *)

(** Outside single-line mode [Insert(s)] puts [s] at the caret with its
    newlines, moves the caret behind it, asks for a scroll to the caret
    and marks the layout stale.  (The caret is within the text and the
    text with [s] fits a Go [int].) *)
Theorem Insert_keeps_newlines (e : Editor) (s : list byte) :
  SingleLine e = false ->
  0 <= editBuffer.caret (rr e) <= Len e ->
  Len e + GoInt.len s <= GoInt.max_int ->
  let n := Z.to_nat (editBuffer.caret (rr e)) in
  exists e',
    Insert e s = Some e'
    /\ Text e' = firstn n (Text e) ++ s ++ skipn n (Text e)
    /\ editBuffer.caret (rr e') = editBuffer.caret (rr e) + GoInt.len s
    /\ strings.countNewlines (Text e')
       = (strings.countNewlines (Text e) + strings.countNewlines s)%nat
    /\ caretScroll e' = true /\ valid e' = false /\ carXOff e' = 0.
Proof.
  intros HS Hc Hl n. unfold Insert.
  rewrite (append_appended e s Hc). cbn [bind].
  eexists. split; [reflexivity|].
  unfold appended, appendText. rewrite HS.
  unfold invalidate, Text, editBuffer.String.
  cbn [rr set_rr set_valid set_caretScroll set_carXOff editBuffer.content
       editBuffer.caret caretScroll valid carXOff].
  fold n. split; [reflexivity|]. split.
  - unfold GoInt.add. apply wrap_small; [lia|].
    unfold Len, editBuffer.len, GoInt.len, GoInt.max_int in *.
    change (2 ^ (64 - 1)) with 9223372036854775808.
    change (2 ^ 63 - 1) with 9223372036854775807 in Hl. lia.
  - split; [apply countNewlines_insert|]. repeat split.
Qed.

(** [SetText] leaves the caret before the text it sets, so an [Insert]
    that follows it puts its text in front. *)
Theorem SetText_then_Insert (e : Editor) (s t : list byte) :
  GoInt.len s + GoInt.len t <= GoInt.max_int ->
  exists e1 e2,
    SetText e s = Some e1
    /\ editBuffer.caret (rr e1) = 0
    /\ Insert e1 t = Some e2
    /\ Text e2 = appendText e t ++ s
    /\ editBuffer.caret (rr e2) = GoInt.len (appendText e t).
Proof.
  intros Hl.
  assert (E1 : SetText e s
               = Some (invalidate
                         (set_carXOff 0
                            (set_rr (editBuffer.mk 0 (s ++ [])
                                       (false || (0 <? GoInt.len s)))
                               (set_carXOff 0 (set_rr editBuffer.empty e)))))).
  { reflexivity. }
  eexists. eexists. split; [exact E1|]. split; [reflexivity|].
  unfold Insert. rewrite append_appended.
  2:{ unfold Len, editBuffer.len, GoInt.len.
      cbn [rr set_rr invalidate set_valid set_carXOff editBuffer.caret
           editBuffer.content]. lia. }
  cbn [bind]. split; [reflexivity|].
  unfold appended, appendText, invalidate, Text, editBuffer.String.
  cbn [rr set_rr set_valid set_caretScroll set_carXOff editBuffer.content
       editBuffer.caret SingleLine firstn skipn Z.to_nat app].
  rewrite app_nil_r. split; [reflexivity|].
  unfold GoInt.add. apply wrap_small; [lia|].
  assert (L : GoInt.len (if SingleLine e then strings.stripNewlines t else t)
              <= GoInt.len t).
  { unfold GoInt.len. destruct (SingleLine e); [|lia].
    pose proof (stripNewlines_length t). lia. }
  unfold GoInt.len, GoInt.max_int in *.
  change (2 ^ (64 - 1)) with 9223372036854775808.
  change (2 ^ 63 - 1) with 9223372036854775807 in Hl. lia.
Qed.

(** ** The properties at work *)

(** The first [Layout] of the zero editor, in a frame that brings the
    focus and the letter "a": the queue holds the frame's events and none
    from before. *)
Lemma Layout_flushes_events_witness :
  match Layout label.align label.linesDimens label.maskedReader label.inf
               zeroEditor frameEdit (Some monoShaper) 0 16 with
  | Some e1 => 0 <= prevEvents e1 <= GoInt.len (events e1) /\ prevEvents e1 = 0
  | None => False
  end.
Proof.
  destruct (Layout label.align label.linesDimens label.maskedReader label.inf
                   zeroEditor frameEdit (Some monoShaper) 0 16)
    as [e1|] eqn:E; [|vm_compute in E; discriminate E].
  destruct (Layout_flushes_events label.align label.linesDimens
              label.maskedReader label.inf zeroEditor e1 frameEdit
              (Some monoShaper) 0 16 E) as (_ & new1 & _ & P & I & _).
  split; [exact I | exact P].
Defined.

(** After that [Layout] the editor is laid out with the text size 16
    (1024 in fixed point) and the frame's width of 100. *)
Lemma Layout_settles_witness :
  match Layout label.align label.linesDimens label.maskedReader label.inf
               zeroEditor frameEdit (Some monoShaper) 0 16 with
  | Some e1 => valid e1 = true /\ textSize e1 = 1024 /\ maxWidth e1 = 100
  | None => False
  end.
Proof.
  destruct (Layout label.align label.linesDimens label.maskedReader label.inf
                   zeroEditor frameEdit (Some monoShaper) 0 16)
    as [e1|] eqn:E; [|vm_compute in E; discriminate E].
  destruct (Layout_settles label.align label.linesDimens
              label.maskedReader label.inf zeroEditor e1 frameEdit
              (Some monoShaper) 0 16 E) as (V & _ & _ & _ & T & W & _).
  split; [exact V|]. split; [exact T | exact W].
Defined.

Lemma zeroEditor_upToDate :
  upToDate label.linesDimens label.maskedReader zeroEditor.
Proof. intros V. discriminate V. Qed.

(** The zero editor is up to date, and so is what [Layout] makes of it. *)
Lemma layout_cache_invariant_witness :
  match Layout label.align label.linesDimens label.maskedReader label.inf
               zeroEditor frameEdit (Some monoShaper) 0 16 with
  | Some e1 => upToDate label.linesDimens label.maskedReader e1
  | None => False
  end.
Proof.
  destruct (Layout label.align label.linesDimens label.maskedReader label.inf
                   zeroEditor frameEdit (Some monoShaper) 0 16)
    as [e1|] eqn:E; [|vm_compute in E; discriminate E].
  destruct (layout_cache_invariant label.align label.linesDimens
              label.maskedReader label.inf zeroEditor zeroEditor_upToDate)
    as (_ & _ & _ & _ & _ & _ & _ & L).
  exact (L frameEdit (Some monoShaper) 0 16 e1 E).
Defined.

(** After the first [Layout] the lines are the shaper's layout of the
    text the frame's edit event left. *)
Lemma Layout_lays_out_the_text_witness :
  match Layout label.align label.linesDimens label.maskedReader label.inf
               zeroEditor frameEdit (Some monoShaper) 0 16 with
  | Some e1 =>
    exists s, shaper e1 = Some s
              /\ lines e1 = text.ShaperLayout s 0 1024 100 (Text e1)
  | None => False
  end.
Proof.
  destruct (Layout label.align label.linesDimens label.maskedReader label.inf
                   zeroEditor frameEdit (Some monoShaper) 0 16)
    as [e1|] eqn:E; [|vm_compute in E; discriminate E].
  destruct (Layout_lays_out_the_text label.align label.linesDimens
              label.maskedReader label.inf zeroEditor e1 frameEdit
              (Some monoShaper) 0 16 zeroEditor_upToDate E)
    as (s & S & _ & L).
  exists s. split; [exact S | exact L].
Defined.

(** [Events] on the editor with a shaper, in the frame that brings the
    letter "a", empties the queue, and a call in the next frame, without
    events, returns none. *)
Lemma Events_hands_out_once_witness :
  match Events label.align label.linesDimens label.maskedReader
               shapedEditor frameEdit with
  | Some (e1, evs) =>
    events e1 = []
    /\ exists e2,
        Events label.align label.linesDimens label.maskedReader e1 frameIdle
        = Some (e2, [])
  | None => False
  end.
Proof.
  destruct (Events label.align label.linesDimens label.maskedReader
                   shapedEditor frameEdit)
    as [[e1 evs]|] eqn:E; [|vm_compute in E; discriminate E].
  destruct (Events_hands_out_once label.align label.linesDimens
              label.maskedReader shapedEditor e1 frameEdit evs E)
    as (_ & Q & _ & N).
  split; [exact Q|]. apply N; reflexivity.
Defined.

(** The Delete key in [twoLines] without the focus leaves its text. *)
Lemma keys_need_focus_witness :
  exists e',
    processKey label.align (set_focused false twoLines) frameDelete = Some e'
    /\ Text e' = [x61; x0a; x62]
    /\ editBuffer.caret (rr e') = 3.
Proof.
  destruct (keys_need_focus label.align (set_focused false twoLines)
              frameDelete eq_refl eq_refl) as (e' & P & _ & T & C & _).
  exists e'. split; [exact P|]. split; [exact T | exact C].
Defined.

(** A frame without clicks leaves the caret of [twoLines] where it is.  A
    mouse press at the top left corner, in a frame at time 8, asks for
    the focus and for a scroll to the caret, restarts the blinking at 8
    and brings the caret from the end of the text to its first byte; the
    text stays "a\nb". *)
Lemma presses_focus_and_scroll_witness :
  (exists e',
      processPointer label.align twoLines frameIdle = Some e'
      /\ rr e' = rr twoLines)
  /\ (exists e',
         processPointer label.align twoLines framePress = Some e'
         /\ Text e' = [x61; x0a; x62]
         /\ requestFocus e' = true
         /\ blinkStart e' = 8
         /\ caretScroll e' = true
         /\ editBuffer.caret (rr twoLines) = 3
         /\ editBuffer.caret (rr e') = 0).
Proof.
  split.
  - destruct (presses_focus_and_scroll label.align twoLines frameIdle)
      as [N _].
    destruct (N eq_refl) as (e' & P & R & _).
    exists e'. split; [exact P | exact R].
  - destruct (presses_focus_and_scroll label.align twoLines framePress)
      as [_ Y].
    destruct (processPointer label.align twoLines framePress) as [e'|] eqn:E;
      [|vm_compute in E; discriminate E].
    destruct (Y e' eq_refl) as (T & _ & Pr).
    destruct (Pr eq_refl) as (F & B & S).
    exists e'. split; [reflexivity|].
    split; [rewrite T; reflexivity|].
    split; [exact F|]. split; [exact B|].
    split; [apply S; discriminate|].
    split; [reflexivity|].
    vm_compute in E. injection E as <-. reflexivity.
Defined.

(** [twoLines] has the focus and its blinking starts with the frame:
    [layout] shows the caret. *)
Lemma caret_blinks_witness :
  match layout label.align label.linesDimens label.maskedReader
               twoLines height20 with
  | Some e' => caretOn e' = true
  | None => False
  end.
Proof.
  destruct (layout label.align label.linesDimens label.maskedReader
                   twoLines height20)
    as [e'|] eqn:E; [|vm_compute in E; discriminate E].
  destruct (caret_blinks label.align label.linesDimens label.maskedReader
              twoLines e' height20 E) as (_ & _ & B).
  apply B; [reflexivity|]. vm_compute. split; [discriminate | reflexivity].
Defined.

(** Under [height20], which leaves 7 by 20 pixels, the viewport of
    [twoLines] is at most 7 pixels wide. *)
Lemma layout_viewport_witness :
  match layout label.align label.linesDimens label.maskedReader
               twoLines height20 with
  | Some e' => 0 <= image.X (viewSize e') <= 7
  | None => False
  end.
Proof.
  destruct (layout label.align label.linesDimens label.maskedReader
                   twoLines height20)
    as [e'|] eqn:E; [|vm_compute in E; discriminate E].
  destruct (layout_viewport label.align label.linesDimens label.maskedReader
              twoLines e' height20 E) as (_ & W & _).
  apply W. vm_compute. discriminate.
Defined.

(** [NumLines] panics on the zero editor and counts two lines in
    [twoLines]. *)
Lemma NumLines_counts_lines_witness :
  NumLines label.linesDimens label.maskedReader zeroEditor = None
  /\ NumLines label.linesDimens label.maskedReader twoLines
     = Some (twoLines, 2).
Proof.
  split.
  - apply (proj1 (NumLines_counts_lines label.linesDimens label.maskedReader
                    zeroEditor)).
    split; reflexivity.
  - destruct (NumLines label.linesDimens label.maskedReader twoLines)
      as [[e' n]|] eqn:E; [|vm_compute in E; discriminate E].
    destruct (proj2 (NumLines_counts_lines label.linesDimens
                       label.maskedReader twoLines) e' n E)
      as (N & _ & _ & I & _).
    rewrite (I eq_refl) in N |- *. rewrite N. reflexivity.
Defined.

(** "x\n" inserted at the start of "a\nb" gives "x\na\nb", with the caret
    behind the inserted text. *)
Lemma Insert_keeps_newlines_witness :
  exists e',
    Insert twoLinesHome [x78; x0a] = Some e'
    /\ Text e' = [x78; x0a; x61; x0a; x62]
    /\ editBuffer.caret (rr e') = 2.
Proof.
  destruct (Insert_keeps_newlines twoLinesHome [x78; x0a] eq_refl)
    as (e' & I & T & C & _).
  - vm_compute. split; discriminate.
  - vm_compute. discriminate.
  - exists e'. split; [exact I|]. split; [exact T | exact C].
Defined.

(** [SetText("a")] followed by [Insert("b")] gives "ba". *)
Lemma SetText_then_Insert_witness :
  exists e1 e2,
    SetText zeroEditor [x61] = Some e1
    /\ Insert e1 [x62] = Some e2
    /\ Text e2 = [x62; x61].
Proof.
  destruct (SetText_then_Insert zeroEditor [x61] [x62])
    as (e1 & e2 & S & _ & I & T & _).
  - vm_compute. discriminate.
  - exists e1, e2. split; [exact S|]. split; [exact I | exact T].
Defined.

(** ** The Up and Down keys *)

Section UpAndDown.

Variable align : text.Alignment -> fixed.Int26_6 -> Z -> fixed.Int26_6.

(** Where every rune takes one byte, the Up key moves the caret to the
    line above (staying on the first line) and the Down key to the line
    below (staying on the last), to the rune closest to the caret's
    horizontal position plus the offset [carXOff] remembered from earlier
    moves; what is left between that position and the one reached becomes
    the new [carXOff]. *)
Theorem up_down_one_byte_text (e : Editor) (down : bool) (m : key.Modifiers)
        (k : nat) (col : Z) (x : fixed.Int26_6) (y : Z) (l2 : text.Line) :
  oneByteLayout e ->
  CaretPos align e = Some (Z.of_nat k, col) ->
  CaretCoords align e = Some (x, y) ->
  let c := if down then Nat.min (S k) (length (lines e) - 1)
           else Nat.pred k in
  nth_error (lines e) c = Some l2 ->
  let carX := fixed.add x (carXOff e) in
  let a := align (Alignment e) (text.Width l2) (image.X (viewSize e)) in
  let gs := firstn (length (text.Layout l2)
                    - (if (S c <? length (lines e))%nat then 1 else 0))
                   (text.Layout l2) in
  - 2 ^ 29 <= carX <= 2 ^ 29 ->
  - 2 ^ 29 <= a ->
  a + advanceSum gs (length gs) <= 2 ^ 29 ->
  exists j : nat,
    (j <= length gs)%nat
    /\ command align e
         (key.mkEvent (if down then key.NameDownArrow else key.NameUpArrow) m)
       = Some (set_carXOff (carX - (a + advanceSum gs j))
                 (set_rr (editBuffer.with_caret
                            (lineStart (lines e) c + Z.of_nat j) (rr e)) e),
               true)
    /\ forall i : nat,
        (i <= length gs)%nat ->
        Z.abs (carX - (a + advanceSum gs j))
        <= Z.abs (carX - (a + advanceSum gs i)).
Proof.
  intros W P C c Hl2 carX a gs Hx Hlo Hhi.
  pose proof W as (_ & _ & _ & Hne & _ & _ & _ & Hn).
  assert (EL : layoutCaret align e = Some (Z.of_nat k, col, x, y)).
  { unfold CaretPos, CaretCoords, bind in P, C.
    destruct (layoutCaret align e) as [[[[k' col'] x'] y']|];
      [|discriminate P].
    injection P as <- <-. injection C as <- <-. reflexivity. }
  assert (Hk : (k < length (lines e))%nat).
  { destruct (layoutCaret_one_byte_line align e W)
      as (k' & col' & x' & y' & l' & EL' & Hk' & _).
    rewrite EL in EL'. injection EL' as K _ _ _. apply Nat2Z.inj in K.
    subst k'. apply nth_error_Some. congruence. }
  set (t := if down then GoInt.add (Z.of_nat k) 1
            else GoInt.sub (Z.of_nat k) 1).
  unfold GoInt.len in Hn. change (2 ^ 61) with 2305843009213693952 in Hn.
  assert (Et : t = if down then Z.of_nat k + 1 else Z.of_nat k - 1).
  { subst t. destruct down; [apply add_small | apply sub_small];
      unfold small; change (2 ^ 61) with 2305843009213693952; lia. }
  destruct (clampLine_range e t Hne) as (Ec & Hc).
  { unfold GoInt.len. change (2 ^ 61) with 2305843009213693952. exact Hn. }
  assert (Ecl : clampLine e t = Z.of_nat c).
  { rewrite Ec, Et. unfold GoInt.len. subst c. destruct down; lia. }
  assert (Eend : lineEnd e (Z.of_nat c)
                 = if (S c <? length (lines e))%nat then 1 else 0).
  { unfold lineEnd. rewrite (sub_small (GoInt.len (lines e)) 1)
      by (unfold small, GoInt.len;
          change (2 ^ 61) with 2305843009213693952; lia).
    unfold GoInt.len.
    destruct (Z.ltb_spec (Z.of_nat c) (Z.of_nat (length (lines e)) - 1));
      destruct (Nat.ltb_spec (S c) (length (lines e))); lia. }
  assert (Egs : firstn (Z.to_nat (GoInt.len (text.Layout l2)
                                  - lineEnd e (clampLine e t)))
                       (text.Layout l2) = gs).
  { rewrite Ecl, Eend. subst gs. f_equal. unfold GoInt.len.
    destruct (S c <? length (lines e))%nat; lia. }
  pose proof (moveToLine_single_byte align e carX t l2 W) as M.
  cbv zeta in M. rewrite Ecl, Nat2Z.id in M. specialize (M Hl2).
  rewrite <- Ecl, Egs in M. fold a in M.
  destruct (M Hx Hlo Hhi) as (j & Hj & E & Hmin).
  exists j. split; [exact Hj|]. split; [|exact Hmin].
  unfold command. destruct down; cbn [key.EName]; rewrite EL; cbn [bind];
    fold carX; fold t; rewrite E; reflexivity.
Qed.

End UpAndDown.

(** Up in [twoLines] (caret at the end of line 1, seven pixels from the
    left) moves the caret to byte 1 of line 0, behind the "a". *)
Lemma up_down_one_byte_text_witness :
  exists e',
    command label.align twoLines (key.mkEvent key.NameUpArrow 0)
    = Some (e', true)
    /\ editBuffer.caret (rr e') = 1.
Proof.
  destruct (up_down_one_byte_text label.align twoLines false 0 1 1 448 28
              (sample.line [sample.glyph 97; sample.nl] 2)
              twoLines_oneByteLayout eq_refl eq_refl eq_refl)
    as (j & Hj & E & Hmin).
  - vm_compute. split; discriminate.
  - vm_compute. discriminate.
  - vm_compute. discriminate.
  - assert (J : j = 1%nat).
    { specialize (Hmin 1%nat). vm_compute in Hj.
      destruct j as [|[|j]]; [ | reflexivity | lia ].
      exfalso. assert (L : (1 <= 1)%nat) by lia. specialize (Hmin L).
      vm_compute in Hmin. apply Hmin. reflexivity. }
    subst j. rewrite E. eexists. split; reflexivity.
Defined.

(** * The caret in view (C3) *)

Lemma lineOfByte_found (ls : list text.Line) (caret idx : Z) (k : nat)
      (l : text.Line) :
  Forall singleByteLine ls ->
  nth_error ls k = Some l ->
  idx + lineStart ls k <= caret ->
  ((S k < length ls)%nat -> caret < idx + lineStart ls (S k)) ->
  lineOfByte ls caret idx = k.
Proof.
  revert caret idx k.
  induction ls as [|l0 rest IH]; intros caret idx k Hs Hk Hlo Hhi.
  - destruct k; discriminate Hk.
  - inversion Hs as [|? ? Hl0 Hr]; subst.
    destruct k as [|k].
    + cbn [lineOfByte]. destruct rest as [|l1 rest']; [reflexivity|].
      assert (L : caret < idx + lineStart (l0 :: l1 :: rest') 1)
        by (apply Hhi; cbn [length]; lia).
      cbn [lineStart] in L.
      destruct (Z.ltb_spec caret (idx + text.Len l0)); [reflexivity | lia].
    + cbn [nth_error] in Hk.
      destruct rest as [|l1 rest']; [destruct k; discriminate Hk|].
      change (lineOfByte (l0 :: l1 :: rest') caret idx)
        with (if caret <? idx + text.Len l0 then 0%nat
              else S (lineOfByte (l1 :: rest') caret (idx + text.Len l0))).
      pose proof (lineStart_nonneg (l1 :: rest') k Hr) as Hpos.
      change (lineStart (l0 :: l1 :: rest') (S k))
        with (text.Len l0 + lineStart (l1 :: rest') k) in Hlo.
      destruct (Z.ltb_spec caret (idx + text.Len l0)); [lia|].
      f_equal. apply (IH caret (idx + text.Len l0) k Hr Hk); [lia|].
      intros Hlt.
      assert (L : caret < idx + lineStart (l0 :: l1 :: rest') (S (S k)))
        by (apply Hhi; cbn [length] in *; lia).
      change (lineStart (l0 :: l1 :: rest') (S (S k)))
        with (text.Len l0 + lineStart (l1 :: rest') (S k)) in L.
      lia.
Qed.

Section CaretInView.

Variable align : text.Alignment -> fixed.Int26_6 -> Z -> fixed.Int26_6.
Variable linesDimens : list text.Line -> layout.Dimensions.
Variable maskedReader : Z -> list byte -> list byte.
Variable inf : Z.

(** Where every rune takes one byte, [layoutCaret] finds the caret where
    the bytes of the text have it. *)
Lemma caretSpan_one_byte (e : Editor) :
  oneByteLayout e -> Forall fitsFixed (lines e) ->
  caretSpan align e = Some (caretExtent align e).
Proof.
  intros W F.
  destruct (layoutCaret_one_byte_line align e W)
    as (k & col & x & y & l & EL & Hk & P1 & P2 & P3 & P4).
  pose proof W as (_ & Hs & _ & Hne & _ & _ & _ & Hn).
  destruct (layoutCaret_coords align e _ _ _ _ Hne Hn EL)
    as (k' & l' & Ek & Hk' & Ey & Hx).
  apply Nat2Z.inj in Ek. subst k'. rewrite Hk in Hk'. injection Hk' as <-.
  assert (Fl : fitsFixed l).
  { rewrite Forall_forall in F. apply F. eapply nth_error_In. exact Hk. }
  destruct (Hx Fl) as (j & Hj & Ej & Ex).
  assert (Hsl : singleByteLine l).
  { rewrite Forall_forall in Hs. apply Hs. eapply nth_error_In. exact Hk. }
  assert (K : lineOfByte (lines e) (editBuffer.caret (rr e)) 0 = k).
  { apply (lineOfByte_found (lines e) _ 0 k l Hs Hk); [lia|].
    intros Hlt. rewrite (lineStart_S (lines e) k l Hk).
    destruct Hsl as [Hlen _]. specialize (P4 Hlt). lia. }
  unfold caretSpan, caretExtent. rewrite EL. cbn [bind].
  unfold GoInt.index. destruct (Z.ltb_spec (Z.of_nat k) 0); [lia|].
  rewrite Nat2Z.id, K, Hk. cbn [bind].
  rewrite <- P3, Ej, Nat2Z.id, <- Ex, <- Ey. reflexivity.
Qed.

Lemma shown_in_view (e : Editor) :
  caretShown align e ->
  oneByteLayout e -> Forall fitsFixed (lines e) -> caretInRange align e ->
  caretInView align e.
Proof.
  intros (span & S & _ & V) W F (Rmin & Rmax & Rv & Rd & Rlo & Rhi & Rin).
  rewrite (caretSpan_one_byte e W F) in S. injection S as <-.
  specialize (V Rmin Rmax Rv Rlo Rhi).
  unfold caretInView. cbv zeta. split.
  - intros M Hh. destruct (Rin M) as [Htop Hbot].
    unfold along in Rv, Rd. rewrite M in Rv, Rd.
    assert (Vis : visibleAt e (along e (scrollOff e)) (caretExtent align e)).
    { apply V.
      exists (Z.max 0 (Z.min (fst (caretExtent align e))
                             (image.Y (layout.Size (dims e))
                              - image.Y (viewSize e)))).
      unfold admissible, visibleAt, along, scrollBounds. rewrite M.
      cbn [image.Min image.Max image.Y image.ZP].
      rewrite (sub_small _ _ Rd Rv). lia. }
    unfold visibleAt, along in Vis. rewrite M in Vis. exact Vis.
  - intros M (o & Ho & Hlo & Hhi).
    assert (Vis : visibleAt e (along e (scrollOff e)) (caretExtent align e)).
    { apply V. exists o. split; [exact Ho|].
      unfold visibleAt, along. rewrite M. split; assumption. }
    unfold visibleAt, along in Vis. rewrite M in Vis. exact Vis.
Qed.

(** C3, as the code has it.  When [caretScroll] is set, [layout], and so
    [Layout], which ends with it and does not clear the flag before,
    clears it and calls [scrollToCaret], and afterwards the caret is in
    view: in multi-line mode, if the caret's line is no higher than the
    viewport, its span [y - ascent .. y + descent] lies within
    [scrollOff.Y .. scrollOff.Y + viewSize.Y]; in single-line mode the
    caret's pixel extent [floor x .. ceil x] lies within
    [scrollOff.X .. scrollOff.X + viewSize.X] if some offset that the
    scroll bounds allow shows it.  The caret is where the bytes of the
    text have it ([caretExtent]); this is for text in which every rune
    takes one byte, laid out with the caret's line within the height of
    the text and all coordinates below [2^61] in magnitude. *)
Theorem caret_visible_after_layout (e e' : Editor) (gtx : Context) :
  caretScroll e = true ->
  (layout align linesDimens maskedReader e gtx = Some e'
   \/ exists sh fnt px,
       Layout align linesDimens maskedReader inf e gtx sh fnt px = Some e') ->
  caretScroll e' = false
  /\ (oneByteLayout e' -> Forall fitsFixed (lines e') ->
      caretInRange align e' -> caretInView align e').
Proof.
  intros Hc H.
  assert (S : caretShown align e').
  { destruct H as [H | (sh & fnt & px & H)].
    - exact (layout_shows_caret align linesDimens maskedReader inf
                                e e' gtx H Hc).
    - apply Layout_steps in H. destruct H as (e0 & H & C).
      exact (layout_shows_caret align linesDimens maskedReader inf
                                e0 e' gtx H (C Hc)). }
  split.
  - destruct S as (span & _ & C & _). exact C.
  - intros W F R. exact (shown_in_view e' S W F R).
Qed.

(** Where every rune takes one byte, a scroll to a caret that is in view
    changes nothing: after any scroll, if the caret's extent, as the
    bytes of the text have it, lies in the viewport, [scrollToCaret]
    leaves the editor as it is.  (Coordinates below [2^61].) *)
Theorem scrollToCaret_keeps_visible_caret (e : Editor) (x y : Z) :
  let e1 := scrollAbs align e x y in
  let span := caretExtent align e1 in
  oneByteLayout e1 -> Forall fitsFixed (lines e1) ->
  small (image.X (scrollOff e1)) -> small (image.Y (scrollOff e1)) ->
  small (along e1 (viewSize e1)) ->
  small (fst span) -> small (snd span) ->
  visibleAt e1 (along e1 (scrollOff e1)) span ->
  scrollToCaret align e1 = Some e1.
Proof.
  intros e1 span W F Hx Hy Hv Hlo Hhi (V1 & V2).
  pose proof (caretSpan_one_byte e1 W F) as Hs. fold span in Hs.
  rewrite (scrollToCaret_span align e1 span Hs).
  assert (So : small (along e1 (scrollOff e1)))
    by (unfold along; destruct (SingleLine e1); assumption).
  assert (D : caretDist e1 span = 0).
  { unfold caretDist.
    rewrite (sub_small (fst span)) by assumption.
    rewrite (add_small (along e1 (scrollOff e1))) by assumption.
    assert (E2 : GoInt.sub (snd span)
                           (along e1 (scrollOff e1) + along e1 (viewSize e1))
                 = snd span - (along e1 (scrollOff e1) + along e1 (viewSize e1))).
    { unfold GoInt.sub. apply wrap_small; [lia|]. unfold small in *.
      change (2 ^ 61) with 2305843009213693952 in *.
      change (2 ^ (64 - 1)) with 9223372036854775808. lia. }
    rewrite E2.
    destruct (Z.ltb_spec (fst span - along e1 (scrollOff e1)) 0); [lia|].
    destruct (Z.ltb_spec 0 (snd span - (along e1 (scrollOff e1)
                                       + along e1 (viewSize e1)))); [lia|].
    reflexivity. }
  rewrite D.
  destruct (scrollAbs_fixed align e x y) as [_ R]. fold e1 in R.
  rewrite (R Hx Hy). now destruct (SingleLine e1).
Qed.

End CaretInView.

(** C3 as stated fails in single-line mode when the viewport has no
    width: [layout] of [halfPixel] under [noWidth], and [Layout] as well,
    scrolls to offset 1, but the caret is at [x = 32/64], half a pixel,
    left of the viewport [1 .. 1].  The text is the one-byte "a". *)
Lemma caret_visible_counterexample :
  caretScroll halfPixel = true
  /\ (exists e',
         layout label.align label.linesDimens label.maskedReader
                halfPixel noWidth = Some e'
         /\ SingleLine e' = true
         /\ CaretCoords label.align e' = Some (32, 12)
         /\ caretExtent label.align e' = (0, 1)
         /\ image.X (scrollOff e') = 1
         /\ image.X (viewSize e') = 0
         /\ ~ (64 * image.X (scrollOff e') <= 32
               <= 64 * (image.X (scrollOff e') + image.X (viewSize e')))
         /\ ~ visibleAt e' (image.X (scrollOff e'))
                        (fixed.Floor 32, fixed.Ceil 32))
  /\ (exists e',
         Layout label.align label.linesDimens label.maskedReader label.inf
                (set_maxWidth label.inf halfPixel) noWidth None 0 16
         = Some e'
         /\ SingleLine e' = true
         /\ CaretCoords label.align e' = Some (32, 12)
         /\ image.X (scrollOff e') = 1
         /\ image.X (viewSize e') = 0
         /\ ~ (64 * image.X (scrollOff e') <= 32
               <= 64 * (image.X (scrollOff e') + image.X (viewSize e')))).
Proof.
  split; [reflexivity|]. split.
  - eexists. split; [vm_compute; reflexivity|].
    split; [reflexivity|]. split; [reflexivity|]. split; [reflexivity|].
    split; [reflexivity|]. split; [reflexivity|]. split.
    + intros [H _]. vm_compute in H. exact (H eq_refl).
    + intros [H _]. vm_compute in H. exact (H eq_refl).
  - eexists. split; [vm_compute; reflexivity|].
    split; [reflexivity|]. split; [reflexivity|]. split; [reflexivity|].
    split; [reflexivity|].
    intros [H _]. vm_compute in H. exact (H eq_refl).
Qed.

(** The restriction to one-byte runes is needed.  For "\u00e9\na" with the
    caret behind the "\u00e9" (byte 2, on line 0, which spans 0 to 16),
    [layout] in a viewport 16 pixels high scrolls to offset 16, to the
    line that [layoutCaret] answers (the defect of C5): the caret's line
    is out of view, though the offset 0 is allowed and shows it. *)
Lemma caret_hidden_two_byte_rune :
  exists e',
    layout label.align label.linesDimens label.maskedReader
           (set_caretScroll true sample.accent)
           (mkContext (layout.mkConstraints (layout.mkConstraint 0 100)
                                            (layout.mkConstraint 0 16))
                      0 [] [] 0 gesture.StateIdle)
    = Some e'
    /\ editBuffer.caret (rr e') = 2
    /\ caretExtent label.align e' = (0, 16)
    /\ caretSpan label.align e' = Some (16, 32)
    /\ image.Y (viewSize e') = 16
    /\ image.Y (scrollOff e') = 16
    /\ admissible label.align e' 0
    /\ visibleAt e' 0 (caretExtent label.align e')
    /\ ~ visibleAt e' (image.Y (scrollOff e')) (caretExtent label.align e').
Proof.
  eexists. split; [vm_compute; reflexivity|].
  split; [reflexivity|]. split; [reflexivity|]. split; [reflexivity|].
  split; [reflexivity|]. split; [reflexivity|].
  split; [vm_compute; split; discriminate|].
  split; [vm_compute; split; discriminate|].
  intros [H _]. vm_compute in H. exact (H eq_refl).
Qed.

(** An editor with the text and the lines of [twoLines] is laid out with
    one byte to every rune, in lines that fit the fixed-point type. *)
Lemma twoLines_laid_out (e' : Editor) :
  rr e' = rr twoLines -> lines e' = lines twoLines ->
  oneByteLayout e' /\ Forall fitsFixed (lines e').
Proof.
  intros Hr Hl. unfold oneByteLayout, Len. rewrite Hr, Hl.
  destruct twoLines_oneByteLayout as (A & B & C & D & E & F & G & H).
  split.
  - exact (conj A (conj B (conj C (conj D (conj E (conj F (conj G H))))))).
  - repeat constructor; vm_compute; discriminate.
Qed.

(** [layout] of [twoLines] in a viewport 20 pixels high scrolls to offset
    12, where the caret's line, the second, from 16 to 32, is in view; so
    does [Layout]. *)
Lemma caret_visible_after_layout_witness :
  match layout label.align label.linesDimens label.maskedReader
               twoLines height20 with
  | Some e' =>
    caretScroll e' = false
    /\ caretExtent label.align e' = (16, 32)
    /\ image.Y (scrollOff e') = 12
    /\ image.Y (scrollOff e') <= 16
    /\ 32 <= image.Y (scrollOff e') + image.Y (viewSize e')
  | None => False
  end
  /\ match Layout label.align label.linesDimens label.maskedReader label.inf
                  (set_maxWidth 7 twoLines) height20 None 0 16 with
     | Some e' =>
       caretScroll e' = false
       /\ caretExtent label.align e' = (16, 32)
       /\ image.Y (scrollOff e') = 12
       /\ image.Y (scrollOff e') <= 16
       /\ 32 <= image.Y (scrollOff e') + image.Y (viewSize e')
     | None => False
     end.
Proof.
  split.
  - destruct (layout label.align label.linesDimens label.maskedReader
                     twoLines height20) as [e'|] eqn:E;
      [|vm_compute in E; discriminate E].
    destruct (caret_visible_after_layout
                label.align label.linesDimens label.maskedReader label.inf
                twoLines e' height20 eq_refl (or_introl E)) as [C V].
    vm_compute in E. injection E as <-.
    split; [exact C|]. split; [reflexivity|]. split; [reflexivity|].
    match type of V with
    | oneByteLayout ?x -> _ =>
      destruct (twoLines_laid_out x eq_refl eq_refl) as [W F]
    end.
    destruct (V W F) as [M _].
    + unfold caretInRange. cbv zeta.
      repeat split; vm_compute; discriminate.
    + apply M; [reflexivity|]. vm_compute. discriminate.
  - destruct (Layout label.align label.linesDimens label.maskedReader label.inf
                     (set_maxWidth 7 twoLines) height20 None 0 16)
      as [e'|] eqn:E;
      [|vm_compute in E; discriminate E].
    destruct (caret_visible_after_layout
                label.align label.linesDimens label.maskedReader label.inf
                (set_maxWidth 7 twoLines) e' height20 eq_refl
                (or_intror (ex_intro _ None (ex_intro _ 0 (ex_intro _ 16 E)))))
      as [C V].
    vm_compute in E. injection E as <-.
    split; [exact C|]. split; [reflexivity|]. split; [reflexivity|].
    match type of V with
    | oneByteLayout ?x -> _ =>
      destruct (twoLines_laid_out x eq_refl eq_refl) as [W F]
    end.
    destruct (V W F) as [M _].
    + unfold caretInRange. cbv zeta.
      repeat split; vm_compute; discriminate.
    + apply M; [reflexivity|]. vm_compute. discriminate.
Defined.

(** In [twoLines], 32 pixels of text in a viewport of 32, the caret's
    line is in view: [scrollToCaret] leaves the editor as it is. *)
Lemma scrollToCaret_keeps_visible_caret_witness :
  caretExtent label.align (scrollAbs label.align twoLines 0 0) = (16, 32)
  /\ scrollToCaret label.align (scrollAbs label.align twoLines 0 0)
     = Some (scrollAbs label.align twoLines 0 0).
Proof.
  split; [reflexivity|].
  destruct (twoLines_laid_out (scrollAbs label.align twoLines 0 0)
                              eq_refl eq_refl) as [W F].
  apply (scrollToCaret_keeps_visible_caret label.align twoLines 0 0 W F).
  - vm_compute. split; discriminate.
  - vm_compute. split; discriminate.
  - vm_compute. split; discriminate.
  - vm_compute. split; discriminate.
  - vm_compute. split; discriminate.
  - vm_compute. split; discriminate.
Defined.

(** ** The height of the text *)

Lemma Ceil_fits (x : Z) :
  0 <= x <= 2 ^ 25 ->
  fixed.Ceil x = (x + 63) / 64 /\ 0 <= fixed.Ceil x <= 2 ^ 20.
Proof.
  intros H. change (2 ^ 25) with 33554432 in H.
  change (2 ^ 20) with 1048576.
  unfold fixed.Ceil. rewrite int32_exact
    by (change (2 ^ 31) with 2147483648; lia).
  rewrite Z.shiftr_div_pow2 by lia. change (2 ^ 6) with 64.
  split; [reflexivity|]. split.
  - apply Z.div_pos; lia.
  - apply Z.div_le_upper_bound; lia.
Qed.

Lemma Ceil_mono (x y : Z) :
  0 <= x <= y -> y <= 2 ^ 25 -> fixed.Ceil x <= fixed.Ceil y.
Proof.
  intros H1 H2.
  destruct (Ceil_fits x) as [-> _]; [lia|].
  destruct (Ceil_fits y) as [-> _]; [lia|].
  apply Z.div_le_mono; lia.
Qed.

(** The loops of [layoutCaret] and of the label's [linesDimens] add up
    the same heights: every line lies between the top of the text and
    its height. *)
Lemma baseline_extent (ls : list text.Line) (pd w : fixed.Int26_6) (y : Z)
      (d : text.Line) :
  Forall metricsFit ls -> 0 <= pd <= 2 ^ 24 ->
  0 <= y -> y + GoInt.len ls * 2 ^ 20 <= 2 ^ 60 ->
  let h := snd (label.linesExtent ls pd w y) in
  y <= h <= y + GoInt.len ls * 2 ^ 20
  /\ (ls <> [] -> y + fixed.Ceil pd <= h)
  /\ forall k l,
      nth_error ls k = Some l ->
      let b := baseline ls pd y k in
      y + fixed.Ceil (text.Ascent l) <= b <= h
      /\ b + fixed.Ceil (text.Descent l)
         <= h + fixed.Ceil (text.Descent (last ls d)).
Proof.
  revert pd w y. unfold GoInt.len.
  change (2 ^ 24) with 16777216. change (2 ^ 20) with 1048576.
  change (2 ^ 60) with 1152921504606846976.
  induction ls as [|l0 rest IH]; intros pd w y Hm Hpd Hy Hb.
  - cbn. split; [lia|]. split; [congruence|].
    intros [|k] l H; discriminate H.
  - inversion Hm as [|? ? [Ha Hd] Hr]; subst.
    change (2 ^ 24) with 16777216 in Ha, Hd.
    cbn [length] in Hb. rewrite Nat2Z.inj_succ in Hb.
    cbn [label.linesExtent].
    set (y1 := GoInt.add y (fixed.Ceil (fixed.add pd (text.Ascent l0)))).
    assert (Ea : fixed.add pd (text.Ascent l0) = pd + text.Ascent l0)
      by (apply int32_exact; change (2 ^ 31) with 2147483648; lia).
    destruct (Ceil_fits (pd + text.Ascent l0)) as [_ C1];
      [change (2 ^ 25) with 33554432; lia|].
    change (2 ^ 20) with 1048576 in C1.
    pose proof (Ceil_mono (text.Ascent l0) (pd + text.Ascent l0)
                          ltac:(lia)
                          ltac:(change (2 ^ 25) with 33554432; lia)) as C2.
    pose proof (Ceil_mono pd (pd + text.Ascent l0)
                          ltac:(lia)
                          ltac:(change (2 ^ 25) with 33554432; lia)) as C3.
    destruct (Ceil_fits (text.Descent l0)) as [_ C4];
      [change (2 ^ 25) with 33554432; lia|].
    assert (E1 : y1 = y + fixed.Ceil (pd + text.Ascent l0)).
    { subst y1. rewrite Ea. apply add_small; unfold small;
        change (2 ^ 61) with 2305843009213693952; lia. }
    destruct (IH (text.Descent l0)
                 (if w <? text.Width l0 then text.Width l0 else w) y1 Hr)
      as (I1 & I2 & I3); try lia.
    cbv zeta in I1, I2, I3.
    set (h := snd (label.linesExtent rest (text.Descent l0)
                     (if w <? text.Width l0 then text.Width l0 else w) y1))
      in *.
    cbn [length]. rewrite Nat2Z.inj_succ.
    split; [lia|]. split; [intros _; lia|].
    intros k l Hk. cbn [baseline]. fold y1. cbv zeta.
    destruct k as [|k].
    + cbn [nth_error] in Hk. injection Hk as <-.
      split; [lia|].
      destruct rest as [|l1 rest'].
      * cbn in h. subst h. cbn [last]. lia.
      * assert (N : l1 :: rest' <> []) by discriminate.
        specialize (I2 N).
        change (last (l0 :: l1 :: rest') d) with (last (l1 :: rest') d).
        destruct (Ceil_fits (text.Descent (last (l1 :: rest') d)))
          as [_ C5].
        { assert (In (last (l1 :: rest') d) (l1 :: rest'))
            by (apply (@exists_last _ (l1 :: rest')) in N;
                destruct N as (q & a & ->); rewrite last_last;
                apply in_or_app; right; left; reflexivity).
          rewrite Forall_forall in Hr. destruct (Hr _ H) as [_ Hd'].
          change (2 ^ 24) with 16777216 in Hd'.
          change (2 ^ 25) with 33554432. lia. }
        lia.
    + cbn [nth_error] in Hk.
      destruct (I3 k l Hk) as [J1 J2].
      assert (N : rest <> []) by (destruct rest; [destruct k|]; discriminate).
      assert (L : last (l0 :: rest) d = last rest d)
        by (destruct rest; [contradiction | reflexivity]).
      rewrite L. split; [|exact J2].
      destruct (Ceil_fits (text.Ascent l)) as [_ C6].
      { assert (In l rest) by (eapply nth_error_In; exact Hk).
        rewrite Forall_forall in Hr. destruct (Hr _ H) as [Ha' _].
        change (2 ^ 24) with 16777216 in Ha'.
        change (2 ^ 25) with 33554432. lia. }
      lia.
Qed.

(** With the label's [linesDimens] every line of metrics that fit lies
    within the height of the text: what the scroll to the caret needs of
    the dimensions. *)
Lemma label_linesDimens_covers (ls : list text.Line) (k : nat)
      (l : text.Line) :
  Forall metricsFit ls -> GoInt.len ls <= 2 ^ 30 ->
  nth_error ls k = Some l ->
  let y := baseline ls 0 0 k in
  0 <= GoInt.sub y (fixed.Ceil (text.Ascent l))
  /\ GoInt.add y (fixed.Ceil (text.Descent l))
     <= image.Y (layout.Size (label.linesDimens ls)).
Proof.
  intros Hm Hn Hk y.
  destruct ls as [|l0 rest]; [destruct k; discriminate Hk|].
  change (2 ^ 30) with 1073741824 in Hn.
  destruct (baseline_extent (l0 :: rest) 0 0 0 l0 Hm) as (I1 & _ & I3);
    try (change (2 ^ 24) with 16777216;
         change (2 ^ 20) with 1048576;
         change (2 ^ 60) with 1152921504606846976; lia).
  cbv zeta in I1, I3. destruct (I3 k l Hk) as [J1 J2]. fold y in J1, J2.
  change (2 ^ 20) with 1048576 in I1.
  assert (Ml : metricsFit l)
    by (rewrite Forall_forall in Hm; apply Hm; eapply nth_error_In; exact Hk).
  assert (Mlast : metricsFit (last (l0 :: rest) l0)).
  { rewrite Forall_forall in Hm. apply Hm.
    assert (N : l0 :: rest <> []) by discriminate.
    apply (@exists_last _ (l0 :: rest)) in N.
    destruct N as (q & a & ->). rewrite last_last.
    apply in_or_app. right. left. reflexivity. }
  destruct Ml as [Ha Hd], Mlast as [_ Hd'].
  change (2 ^ 24) with 16777216 in Ha, Hd, Hd'.
  destruct (Ceil_fits (text.Ascent l)) as [_ C1];
    [change (2 ^ 25) with 33554432; lia|].
  destruct (Ceil_fits (text.Descent l)) as [_ C2];
    [change (2 ^ 25) with 33554432; lia|].
  destruct (Ceil_fits (text.Descent (last (l0 :: rest) l0))) as [_ C3];
    [change (2 ^ 25) with 33554432; lia|].
  change (2 ^ 20) with 1048576 in C1, C2, C3.
  unfold label.linesDimens.
  destruct (label.linesExtent (l0 :: rest) 0 0 0) as [wd h] eqn:E.
  cbn [snd] in I1, J1, J2. cbn [layout.Size image.Y].
  rewrite sub_small, !add_small
    by (unfold small; change (2 ^ 61) with 2305843009213693952; lia).
  lia.
Qed.

(** * The progress bar on float64 (C6) *)

(** ** Rounding in binary64 *)

Lemma digits2_pos_bounds (m : positive) :
  2 ^ (Zpos (digits2_pos m) - 1) <= Zpos m < 2 ^ Zpos (digits2_pos m).
Proof.
  induction m as [m IH|m IH|]; cbn [digits2_pos];
    rewrite ?Pos2Z.inj_succ.
  - replace (Z.succ (Zpos (digits2_pos m)) - 1)
      with (Z.succ (Zpos (digits2_pos m) - 1)) by lia.
    rewrite !Z.pow_succ_r by lia. rewrite (Pos2Z.inj_xI m).
    destruct IH as [I1 I2]. revert I1 I2.
    generalize (2 ^ (Zpos (digits2_pos m) - 1)), (2 ^ Zpos (digits2_pos m)).
    intros; lia.
  - replace (Z.succ (Zpos (digits2_pos m)) - 1)
      with (Z.succ (Zpos (digits2_pos m) - 1)) by lia.
    rewrite !Z.pow_succ_r by lia. rewrite (Pos2Z.inj_xO m).
    destruct IH as [I1 I2]. revert I1 I2.
    generalize (2 ^ (Zpos (digits2_pos m) - 1)), (2 ^ Zpos (digits2_pos m)).
    intros; lia.
  - cbn. lia.
Qed.

Lemma digits2_pos_unique (m : positive) (k : Z) :
  2 ^ (k - 1) <= Zpos m < 2 ^ k -> Zpos (digits2_pos m) = k.
Proof.
  intros [Hlo Hhi]. pose proof (digits2_pos_bounds m) as [Dlo Dhi].
  assert (0 < k).
  { destruct (Z.ltb_spec 0 k); [assumption|].
    assert (2 ^ k <= 2 ^ 0) by (destruct (Z.eqb_spec k 0);
      [subst; lia | rewrite Z.pow_neg_r by lia; cbn; lia]).
    cbn in *. lia. }
  destruct (Z.lt_trichotomy (Zpos (digits2_pos m)) k) as [L|[E|G]];
    [|exact E|].
  - assert (2 ^ Zpos (digits2_pos m) <= 2 ^ (k - 1))
      by (apply Z.pow_le_mono_r; lia). lia.
  - assert (2 ^ k <= 2 ^ (Zpos (digits2_pos m) - 1))
      by (apply Z.pow_le_mono_r; lia). lia.
Qed.

Lemma shr_1_m (mrs : shr_record) :
  0 <= shr_m mrs -> shr_m (shr_1 mrs) = shr_m mrs / 2.
Proof.
  destruct mrs as [m r s]. cbn [shr_m]. intros H.
  destruct m as [|[p|p|]|p]; cbn [shr_1 shr_m]; try lia.
  - reflexivity.
  - rewrite (Pos2Z.inj_xI p). apply Z.div_unique with (r := 1); lia.
  - rewrite (Pos2Z.inj_xO p). apply Z.div_unique with (r := 0); lia.
  - reflexivity.
Qed.

Lemma iter_shr_1_m (p : positive) (mrs : shr_record) :
  0 <= shr_m mrs ->
  shr_m (iter_pos shr_1 p mrs) = shr_m mrs / 2 ^ Zpos p.
Proof.
  revert mrs. induction p as [p IH|p IH|]; intros mrs H; cbn [iter_pos].
  - assert (H1 : 0 <= shr_m (shr_1 mrs))
      by (rewrite shr_1_m by exact H; apply Z.div_pos; lia).
    assert (H2 : 0 <= shr_m (iter_pos shr_1 p (shr_1 mrs)))
      by (rewrite IH by exact H1; apply Z.div_pos; [lia|];
          apply Z.pow_pos_nonneg; lia).
    rewrite (IH _ H2), (IH _ H1), (shr_1_m _ H).
    rewrite (Pos2Z.inj_xI p).
    replace (2 * Zpos p + 1) with (1 + Zpos p + Zpos p) by lia.
    rewrite !Z.pow_add_r by lia.
    rewrite !Z.div_div by (try lia; apply Z.pow_pos_nonneg; lia).
    f_equal. change (2 ^ 1) with 2. lia.
  - assert (H2 : 0 <= shr_m (iter_pos shr_1 p mrs))
      by (rewrite IH by exact H; apply Z.div_pos; [lia|];
          apply Z.pow_pos_nonneg; lia).
    rewrite (IH _ H2), (IH _ H).
    rewrite (Pos2Z.inj_xO p).
    replace (2 * Zpos p) with (Zpos p + Zpos p) by lia.
    rewrite !Z.pow_add_r by lia.
    rewrite !Z.div_div by (try lia; apply Z.pow_pos_nonneg; lia).
    reflexivity.
  - rewrite (shr_1_m _ H). reflexivity.
Qed.

Lemma shr_record_of_loc_m (m : Z) (l : location) :
  shr_m (shr_record_of_loc m l) = m.
Proof. destruct l as [|[]]; reflexivity. Qed.

(** [shr_fexp] shifts the mantissa right until it has 53 digits. *)
Lemma shr_fexp_m (m : positive) (e : Z) (l : location) :
  let n := Z.max 0 (fexp float64.prec float64.emax (Zpos (digits2_pos m) + e)
                    - e) in
  exists mrs,
    shr_fexp float64.prec float64.emax (Zpos m) e l = (mrs, e + n)
    /\ shr_m mrs = Zpos m / 2 ^ n.
Proof.
  cbv zeta. unfold shr_fexp. cbn [Zdigits2].
  destruct (fexp float64.prec float64.emax (Zpos (digits2_pos m) + e) - e)
    as [|p|p] eqn:E; cbn [shr].
  - eexists. split; [f_equal; lia|].
    rewrite shr_record_of_loc_m. cbn. now rewrite Z.div_1_r.
  - eexists. split; [f_equal; lia|].
    rewrite iter_shr_1_m by (rewrite shr_record_of_loc_m; lia).
    rewrite shr_record_of_loc_m. reflexivity.
  - eexists. split; [f_equal; lia|].
    rewrite shr_record_of_loc_m. cbn. now rewrite Z.div_1_r.
Qed.

Lemma fexp_normal (x : Z) :
  - 1021 <= x -> fexp float64.prec float64.emax x = x - 53.
Proof.
  intros H. unfold fexp, emin, float64.prec, float64.emax. lia.
Qed.

Lemma round_nearest_even_bounds (m : Z) (l : location) :
  m <= round_nearest_even m l <= m + 1.
Proof.
  unfold round_nearest_even. destruct l as [|[]]; try lia.
  destruct (Z.even m); lia.
Qed.

(** Rounding a mantissa of at least 53 digits, in the range of the normal
    numbers: the result has 53 digits and is not below the mantissa cut
    to 53 digits. *)
Lemma binary_round_aux_normal (sx : bool) (mx : positive) (ex : Z)
      (lx : location) :
  let d := Zpos (digits2_pos mx) in
  53 <= d -> - 1021 <= ex + d ->
  exists (m3 : positive) (e3 : Z),
    binary_round_aux float64.prec float64.emax sx (Zpos mx) ex lx
    = (if e3 <=? 971 then S754_finite sx m3 e3 else S754_infinity sx)
    /\ 2 ^ 52 <= Zpos m3 < 2 ^ 53
    /\ ((e3 = ex + d - 53 /\ Zpos mx / 2 ^ (d - 53) <= Zpos m3)
        \/ (e3 = ex + d - 52 /\ Zpos m3 = 2 ^ 52)).
Proof.
  intros d Hd He. unfold binary_round_aux.
  destruct (shr_fexp_m mx ex lx) as (mrs1 & E1 & M1).
  cbv zeta in E1, M1. fold d in E1, M1.
  rewrite (fexp_normal (d + ex)) in E1, M1 by lia.
  replace (Z.max 0 (d + ex - 53 - ex)) with (d - 53) in E1, M1 by lia.
  rewrite E1. clear E1.
  pose proof (digits2_pos_bounds mx) as [Dlo Dhi]. fold d in Dlo, Dhi.
  assert (P : 0 < 2 ^ (d - 53)) by (apply Z.pow_pos_nonneg; lia).
  assert (B1 : 2 ^ 52 <= shr_m mrs1 < 2 ^ 53).
  { rewrite M1. split.
    - apply Z.div_le_lower_bound; [exact P|].
      rewrite <- Z.pow_add_r by lia.
      replace (d - 53 + 52) with (d - 1) by lia. exact Dlo.
    - apply Z.div_lt_upper_bound; [exact P|].
      rewrite <- Z.pow_add_r by lia.
      replace (d - 53 + 53) with d by lia. exact Dhi. }
  pose proof (round_nearest_even_bounds (shr_m mrs1) (loc_of_shr_record mrs1))
    as R.
  change (2 ^ 52) with 4503599627370496 in *.
  change (2 ^ 53) with 9007199254740992 in *.
  destruct (round_nearest_even (shr_m mrs1) (loc_of_shr_record mrs1))
    as [|m2|m2] eqn:E2; try lia.
  destruct (shr_fexp_m m2 (ex + (d - 53)) loc_Exact) as (mrs2 & E3 & M3).
  cbv zeta in E3, M3.
  destruct (Z.eq_dec (Zpos m2) 9007199254740992) as [T|T].
  - assert (D2 : Zpos (digits2_pos m2) = 54)
      by (apply digits2_pos_unique; rewrite T; cbn; lia).
    rewrite D2 in E3, M3.
    rewrite (fexp_normal (54 + (ex + (d - 53)))) in E3, M3 by lia.
    replace (Z.max 0 (54 + (ex + (d - 53)) - 53 - (ex + (d - 53))))
      with 1 in E3, M3 by lia.
    rewrite E3. rewrite M3, T.
    change (9007199254740992 / 2 ^ 1) with (Zpos 4503599627370496).
    cbv iota beta.
    exists 4503599627370496%positive, (ex + (d - 53) + 1).
    unfold float64.prec, float64.emax. change (1024 - 53) with 971.
    split; [reflexivity|]. split; [lia|]. right. split; lia.
  - assert (D2 : Zpos (digits2_pos m2) = 53)
      by (apply digits2_pos_unique; cbn; lia).
    rewrite D2 in E3, M3.
    rewrite (fexp_normal (53 + (ex + (d - 53)))) in E3, M3 by lia.
    replace (Z.max 0 (53 + (ex + (d - 53)) - 53 - (ex + (d - 53))))
      with 0 in E3, M3 by lia.
    rewrite E3. rewrite M3. change (2 ^ 0) with 1. rewrite Z.div_1_r.
    cbv iota beta.
    exists m2, (ex + (d - 53) + 0).
    unfold float64.prec, float64.emax. change (1024 - 53) with 971.
    split; [reflexivity|]. split; [lia|]. left. split; [lia|].
    rewrite <- M1. lia.
Qed.

Lemma binary_round_aux_exact (sx : bool) (mx : positive) (ex : Z) :
  Zpos (digits2_pos mx) = 53 -> - 1074 <= ex ->
  binary_round_aux float64.prec float64.emax sx (Zpos mx) ex loc_Exact
  = (if ex <=? 971 then S754_finite sx mx ex else S754_infinity sx).
Proof.
  intros D He.
  assert (S0 : forall l,
             shr_fexp float64.prec float64.emax (Zpos mx) ex l
             = (shr_record_of_loc (Zpos mx) l, ex)).
  { intros l. unfold shr_fexp. cbn [Zdigits2]. rewrite D.
    replace (fexp float64.prec float64.emax (53 + ex) - ex) with 0
      by (unfold fexp, emin, float64.prec, float64.emax; lia).
    reflexivity. }
  unfold binary_round_aux. rewrite S0. cbn [shr_record_of_loc shr_m
    loc_of_shr_record round_nearest_even]. rewrite S0.
  cbn [shr_record_of_loc shr_m]. reflexivity.
Qed.

Lemma iter_xO (m k : positive) :
  Zpos (Pos.iter xO m k) = Zpos m * 2 ^ Zpos k.
Proof.
  rewrite (Pos.iter_swap_gen _ _ Zpos xO (Z.mul 2)) by reflexivity.
  rewrite <- Z.shiftl_mul_pow2 by lia. reflexivity.
Qed.

(** The conversion of a positive [int] of at most [2^53] is exact. *)
Lemma ofInt_pos (z : Z) :
  0 < z <= 2 ^ 53 ->
  exists (mz : positive) (ez : Z),
    float64.ofInt z = S754_finite false mz ez
    /\ float64.normal53 mz ez /\ ez <= 1
    /\ float64.trunc (S754_finite false mz ez) = Some z.
Proof.
  intros [H0 H1]. unfold float64.normal53.
  change (2 ^ 52) with 4503599627370496.
  change (2 ^ 53) with 9007199254740992 in *.
  destruct (Z.eq_dec z 9007199254740992) as [-> | N].
  { exists 4503599627370496%positive, 1.
    split; [vm_compute; reflexivity|]. split; [lia|]. split; [lia|].
    vm_compute. reflexivity. }
  destruct z as [|m|m]; try lia.
  pose proof (digits2_pos_bounds m) as [Dlo Dhi].
  set (d := Zpos (digits2_pos m)) in *.
  assert (Hd : 1 <= d <= 53).
  { split; [subst d; lia|].
    destruct (Z.leb_spec d 53); [assumption|].
    assert (2 ^ 53 <= 2 ^ (d - 1)) by (apply Z.pow_le_mono_r; lia).
    change (2 ^ 53) with 9007199254740992 in *. lia. }
  unfold float64.ofInt, binary_normalize, binary_round.
  fold d. rewrite (fexp_normal (d + 0)) by lia.
  unfold shl_align.
  destruct (Z.eq_dec d 53) as [E|E].
  - replace (d + 0 - 53 - 0) with 0 by lia.
    rewrite binary_round_aux_exact by (fold d; lia).
    cbn [Z.leb Z.compare].
    exists m, 0. rewrite E in Dlo. change (2 ^ (53 - 1)) with 4503599627370496 in Dlo.
    split; [reflexivity|]. split; [lia|]. split; [lia|].
    unfold float64.trunc, float64.intPart. cbn [Z.leb Z.compare].
    change (2 ^ 0) with 1. rewrite Z.mul_1_r.
    change (2 ^ 63) with 9223372036854775808.
    destruct (Z.leb_spec (- 9223372036854775808) (Zpos m)); [|lia].
    destruct (Z.ltb_spec (Zpos m) 9223372036854775808); [|lia].
    reflexivity.
  - destruct (d + 0 - 53 - 0) as [|k|k] eqn:K; try lia.
    assert (Ek : Zpos k = 53 - d) by lia.
    assert (M : Zpos (Pos.iter xO m k) = Zpos m * 2 ^ (53 - d))
      by (rewrite iter_xO, Ek; reflexivity).
    assert (P : 0 < 2 ^ (53 - d)) by (apply Z.pow_pos_nonneg; lia).
    assert (B : 4503599627370496 <= Zpos (Pos.iter xO m k)
                < 9007199254740992).
    { rewrite M.
      assert (Q1 : 2 ^ (d - 1) * 2 ^ (53 - d) = 4503599627370496)
        by (rewrite <- Z.pow_add_r by lia;
            replace (d - 1 + (53 - d)) with 52 by lia; reflexivity).
      assert (Q2 : 2 ^ d * 2 ^ (53 - d) = 9007199254740992)
        by (rewrite <- Z.pow_add_r by lia;
            replace (d + (53 - d)) with 53 by lia; reflexivity).
      split.
      - rewrite <- Q1. apply Z.mul_le_mono_nonneg_r; lia.
      - rewrite <- Q2. apply Z.mul_lt_mono_pos_r; lia. }
    rewrite binary_round_aux_exact
      by (try (apply digits2_pos_unique; cbn; lia); lia).
    destruct (Z.leb_spec (d + 0 - 53) 971); [|lia].
    exists (Pos.iter xO m k), (d + 0 - 53).
    split; [reflexivity|]. split; [lia|]. split; [lia|].
    unfold float64.trunc, float64.intPart.
    destruct (Z.leb_spec 0 (d + 0 - 53)); [lia|].
    rewrite M. replace (- (d + 0 - 53)) with (53 - d) by lia.
    rewrite Z.quot_mul by lia.
    change (2 ^ 63) with 9223372036854775808.
    destruct (Z.leb_spec (- 9223372036854775808) (Zpos m)); [|lia].
    destruct (Z.ltb_spec (Zpos m) 9223372036854775808); [|lia].
    reflexivity.
Qed.

Lemma c100_eq : float64.c100 = S754_finite false 7036874417766400 (-46).
Proof. vm_compute. reflexivity. Qed.

(** A progress of at least 100, divided by 100, is at least 1. *)
Lemma div_c100 (mp : positive) (ep : Z) :
  bounded float64.prec float64.emax mp ep = true ->
  SFleb float64.c100 (S754_finite false mp ep) = true ->
  exists (mq : positive) (eq : Z),
    float64.div (S754_finite false mp ep) float64.c100
    = S754_finite false mq eq
    /\ float64.normal53 mq eq.
Proof.
  intros V L. rewrite c100_eq in *.
  assert (Hp : - 46 < ep \/ (ep = - 46 /\ 7036874417766400 <= Zpos mp)).
  { unfold SFleb, SFcompare in L.
    destruct (Z.compare_spec (- 46) ep) as [E|E|E];
      [|left; exact E|discriminate L].
    right. split; [lia|].
    change (Pos.compare_cont Eq 7036874417766400 mp)
      with (7036874417766400 ?= mp)%positive in L.
    destruct (Pos.compare_spec 7036874417766400 mp) as [C|C|C];
      [subst; lia | lia | discriminate L]. }
  unfold bounded in V. apply andb_true_iff in V. destruct V as [V1 V2].
  unfold canonical_mantissa in V1. apply Z.eqb_eq in V1.
  apply Z.leb_le in V2.
  unfold fexp, emin, float64.prec, float64.emax in V1, V2.
  assert (D : Zpos (digits2_pos mp) = 53) by lia. clear V1.
  pose proof (digits2_pos_bounds mp) as [Dlo Dhi]. rewrite D in Dlo, Dhi.
  change (2 ^ (53 - 1)) with 4503599627370496 in Dlo.
  change (2 ^ 53) with 9007199254740992 in Dhi.
  unfold float64.div, SFdiv, SFdiv_core_binary. cbn [Zdigits2 xorb].
  rewrite D. change (Zpos (digits2_pos 7036874417766400)) with 53.
  match goal with
  | |- context [Z.min ?a ?b] =>
    replace (Z.min a b) with (ep - 7)
      by (unfold fexp, emin, float64.prec, float64.emax; lia)
  end.
  replace (ep - -46 - (ep - 7)) with 53 by lia.
  cbv iota. rewrite Z.shiftl_mul_pow2 by lia.
  change (2 ^ 53) with 9007199254740992.
  pose proof (Z_div_mod (Zpos mp * 9007199254740992) 7036874417766400
                        eq_refl) as Q.
  destruct (Z.div_eucl (Zpos mp * 9007199254740992) 7036874417766400)
    as [q r].
  destruct Q as [Q1 Q2].
  assert (Bq : 4503599627370496 <= q < 18014398509481984) by lia.
  destruct q as [|qp|qp]; try lia.
  set (d := Zpos (digits2_pos qp)).
  assert (Hd : (d = 53 /\ Zpos qp < 9007199254740992)
               \/ (d = 54 /\ 9007199254740992 <= Zpos qp)).
  { destruct (Z.ltb_spec (Zpos qp) 9007199254740992).
    - left. split; [|assumption].
      apply digits2_pos_unique. cbn. lia.
    - right. split; [|assumption].
      apply digits2_pos_unique. cbn. lia. }
  destruct (binary_round_aux_normal false qp (ep - 7)
              (new_location 7036874417766400 r))
    as (m3 & e3 & E & B3 & C3); fold d; try lia.
  fold d in C3.
  exists m3, e3. unfold float64.normal53.
  assert (He3 : - 52 <= e3 <= 971) by lia.
  split; [|split; [exact B3 | lia]].
  rewrite E. destruct (Z.leb_spec e3 971); [reflexivity | lia].
Qed.

(** The product of a number that is at least 1 and the width is not
    below the width: [value] draws the whole width. *)
Lemma mul_capped (mq mz : positive) (eq ez : Z) :
  float64.normal53 mq eq -> float64.normal53 mz ez ->
  let fm := S754_finite false mz ez in
  let x := float64.mul (S754_finite false mq eq) fm in
  (if float64.gt x fm then fm else x) = fm.
Proof.
  intros [Bq Hq] [Bz Hz] fm x. subst x fm.
  change (2 ^ 52) with 4503599627370496 in *.
  change (2 ^ 53) with 9007199254740992 in *.
  unfold float64.mul, SFmul. cbn [xorb].
  assert (Bp : 4503599627370496 * 4503599627370496 <= Zpos (mq * mz)
               < 9007199254740992 * 9007199254740992)
    by (rewrite Pos2Z.inj_mul; nia).
  set (d := Zpos (digits2_pos (mq * mz))).
  assert (Hd : (d = 105 /\ Zpos (mq * mz) < 2 ^ 105)
               \/ (d = 106 /\ 2 ^ 105 <= Zpos (mq * mz))).
  { destruct (Z.ltb_spec (Zpos (mq * mz)) (2 ^ 105)).
    - left. split; [|assumption].
      apply digits2_pos_unique. split; [|assumption].
      change (2 ^ (105 - 1))
        with (4503599627370496 * 4503599627370496). lia.
    - right. split; [|assumption].
      apply digits2_pos_unique. split; [assumption|].
      change (2 ^ 106) with (9007199254740992 * 9007199254740992). lia. }
  destruct (binary_round_aux_normal false (mq * mz) (eq + ez) loc_Exact)
    as (m3 & e3 & E & B3 & C3); fold d; try lia.
  fold d in C3. rewrite E. clear E.
  unfold float64.gt, SFltb.
  destruct (Z.leb_spec e3 971) as [Le|Le]; [|reflexivity].
  unfold SFcompare.
  destruct (Z.compare_spec ez e3) as [Ee|Ee|Ee]; [|reflexivity|lia].
  assert (Hm : Zpos mz <= Zpos m3).
  { destruct C3 as [[C1 C2] | [C1 C2]]; [|lia].
    assert (Ed : d = 105) by lia.
    rewrite Ed in C2. change (2 ^ (105 - 53)) with 4503599627370496 in C2.
    assert (Zpos mz <= Zpos (mq * mz) / 4503599627370496).
    { apply Z.div_le_lower_bound; [lia|]. rewrite Pos2Z.inj_mul. nia. }
    lia. }
  change (Pos.compare_cont Eq mz m3) with (mz ?= m3)%positive.
  destruct (Pos.compare_spec mz m3) as [C|C|C]; [|reflexivity|lia].
  subst. reflexivity.
Qed.

(** [shr_fexp] leaves at most 53 digits. *)
Lemma shr_fexp_lt (m : positive) (e : Z) (l : location) :
  exists mrs e',
    shr_fexp float64.prec float64.emax (Zpos m) e l = (mrs, e')
    /\ 0 <= shr_m mrs < 2 ^ 53.
Proof.
  destruct (shr_fexp_m m e l) as (mrs & E & M). cbv zeta in E, M.
  exists mrs. eexists. split; [exact E|].
  set (d := Zpos (digits2_pos m)) in *.
  set (n := Z.max 0 (fexp float64.prec float64.emax (d + e) - e)) in *.
  assert (Hn : 0 <= n /\ d - 53 <= n)
    by (subst n; unfold fexp, emin, float64.prec, float64.emax; lia).
  pose proof (digits2_pos_bounds m) as [_ Dhi]. fold d in Dhi.
  assert (P : 0 < 2 ^ n) by (apply Z.pow_pos_nonneg; lia).
  rewrite M. split; [apply Z.div_pos; lia|].
  apply Z.div_lt_upper_bound; [exact P|].
  rewrite <- Z.pow_add_r by lia.
  assert (2 ^ d <= 2 ^ (n + 53)) by (apply Z.pow_le_mono_r; lia).
  lia.
Qed.

Lemma shr_fexp_zero (e : Z) :
  shr_m (fst (shr_fexp float64.prec float64.emax 0 e loc_Exact)) = 0.
Proof.
  unfold shr_fexp. cbn [Zdigits2 shr_record_of_loc].
  destruct (fexp float64.prec float64.emax (0 + e) - e) as [|p|p];
    cbn [shr fst shr_m]; try reflexivity.
  rewrite iter_shr_1_m by (cbn; lia). reflexivity.
Qed.

(** A rounded number has at most 53 digits. *)
Lemma binary_round_aux_lt (sx : bool) (mx : positive) (ex : Z)
      (lx : location) (s : bool) (m : positive) (e : Z) :
  binary_round_aux float64.prec float64.emax sx (Zpos mx) ex lx
  = S754_finite s m e ->
  Zpos m < 2 ^ 53.
Proof.
  unfold binary_round_aux.
  destruct (shr_fexp_lt mx ex lx) as (mrs1 & e1 & E1 & B1).
  rewrite E1.
  pose proof (round_nearest_even_bounds (shr_m mrs1) (loc_of_shr_record mrs1))
    as R.
  destruct (round_nearest_even (shr_m mrs1) (loc_of_shr_record mrs1))
    as [|m2|m2] eqn:E2; try lia.
  - pose proof (shr_fexp_zero e1) as Z0.
    destruct (shr_fexp float64.prec float64.emax 0 e1 loc_Exact) as [mrs2 e2].
    cbn [fst] in Z0. rewrite Z0. discriminate.
  - destruct (shr_fexp_lt m2 e1 loc_Exact) as (mrs2 & e2 & E3 & B3).
    rewrite E3. destruct (shr_m mrs2) as [|m3|m3]; try discriminate.
    destruct (e2 <=? float64.emax - float64.prec); [|discriminate].
    intros H. injection H as _ <- _. lia.
Qed.

Lemma mul_lt (a b : float64.t) (s : bool) (m : positive) (e : Z) :
  float64.mul a b = S754_finite s m e -> Zpos m < 2 ^ 53.
Proof.
  unfold float64.mul, SFmul.
  destruct a as [sa|sa| |sa ma ea], b as [sb|sb| |sb mb eb];
    try discriminate.
  apply binary_round_aux_lt.
Qed.

Lemma intPart_nonneg (m : positive) (e : Z) : 0 <= float64.intPart m e.
Proof.
  unfold float64.intPart. destruct (0 <=? e) eqn:E.
  - apply Z.leb_le in E. apply Z.mul_nonneg_nonneg; [lia|].
    apply Z.pow_nonneg; lia.
  - apply Z.leb_gt in E. apply Z.quot_pos; [lia|].
    apply Z.pow_pos_nonneg; lia.
Qed.

Lemma intPart_mono_m (m1 m2 : positive) (e : Z) :
  Zpos m1 <= Zpos m2 -> float64.intPart m1 e <= float64.intPart m2 e.
Proof.
  intros H. unfold float64.intPart. destruct (0 <=? e) eqn:E.
  - apply Z.leb_le in E. apply Z.mul_le_mono_nonneg_r; [|exact H].
    apply Z.pow_nonneg; lia.
  - apply Z.leb_gt in E.
    assert (P : 0 < 2 ^ (- e)) by (apply Z.pow_pos_nonneg; lia).
    rewrite !Z.quot_div_nonneg by lia.
    apply Z.div_le_mono; lia.
Qed.

(** A number of at most 53 digits with a smaller exponent is below one
    of 53 digits. *)
Lemma intPart_lt_e (m1 m2 : positive) (e1 e2 : Z) :
  Zpos m1 < 2 ^ 53 -> 2 ^ 52 <= Zpos m2 -> e1 < e2 ->
  float64.intPart m1 e1 <= float64.intPart m2 e2.
Proof.
  intros H1 H2 He.
  assert (L : float64.intPart m1 e1 <= float64.intPart 4503599627370496 e2);
    [|etransitivity; [exact L|]; apply intPart_mono_m;
      change (2 ^ 52) with 4503599627370496 in H2; exact H2].
  unfold float64.intPart.
  change (Zpos 4503599627370496) with (2 ^ 52).
  destruct (Z.leb_spec 0 e1) as [E1|E1].
  - destruct (Z.leb_spec 0 e2) as [E2|E2]; [|lia].
    replace e2 with (1 + e1 + (e2 - e1 - 1)) by lia.
    rewrite !Z.pow_add_r by lia.
    assert (P1 : 0 < 2 ^ e1) by (apply Z.pow_pos_nonneg; lia).
    assert (P2 : 1 <= 2 ^ (e2 - e1 - 1))
      by (change 1 with (2 ^ 0) at 1; apply Z.pow_le_mono_r; lia).
    change (2 ^ 1) with 2. change (2 ^ 53) with (2 * 2 ^ 52) in H1.
    assert (Zpos m1 * 2 ^ e1 <= 2 ^ 52 * 2 * 2 ^ e1) by nia.
    assert (0 < 2 ^ 52) by (apply Z.pow_pos_nonneg; lia).
    nia.
  - assert (P1 : 0 < 2 ^ (- e1)) by (apply Z.pow_pos_nonneg; lia).
    rewrite (Z.quot_div_nonneg (Zpos m1)) by lia.
    destruct (Z.leb_spec 0 e2) as [E2|E2].
    + assert (Zpos m1 / 2 ^ (- e1) <= 2 ^ 52).
      { apply Z.lt_succ_r. apply Z.div_lt_upper_bound; [exact P1|].
        assert (2 <= 2 ^ (- e1))
          by (change 2 with (2 ^ 1) at 1; apply Z.pow_le_mono_r; lia).
        change (2 ^ 53) with (2 * 2 ^ 52) in H1.
        assert (0 < 2 ^ 52) by (apply Z.pow_pos_nonneg; lia).
        nia. }
      assert (1 <= 2 ^ e2)
        by (change 1 with (2 ^ 0) at 1; apply Z.pow_le_mono_r; lia).
      assert (0 < 2 ^ 52) by (apply Z.pow_pos_nonneg; lia).
      nia.
    + assert (P2 : 0 < 2 ^ (- e2)) by (apply Z.pow_pos_nonneg; lia).
      rewrite (Z.quot_div_nonneg (2 ^ 52)) by lia.
      apply Z.div_le_lower_bound; [exact P2|].
      (* 2^(-e2) * (m1 / 2^(-e1)) <= 2^52 *)
      assert (Q : 2 ^ (- e1) = 2 ^ (- e2) * 2 ^ (e2 - e1))
        by (rewrite <- Z.pow_add_r by lia; f_equal; lia).
      assert (P3 : 2 <= 2 ^ (e2 - e1))
        by (change 2 with (2 ^ 1) at 1; apply Z.pow_le_mono_r; lia).
      pose proof (Z.mul_div_le (Zpos m1) (2 ^ (- e1)) P1) as D.
      rewrite Q in D at 1.
      change (2 ^ 53) with (2 * 2 ^ 52) in H1.
      assert (0 <= Zpos m1 / 2 ^ (- e1)) by (apply Z.div_pos; lia).
      nia.
Qed.

Lemma trunc_finite (s : bool) (m : positive) (e n : Z) :
  float64.trunc (S754_finite s m e) = Some n ->
  n = if s then - float64.intPart m e else float64.intPart m e.
Proof.
  unfold float64.trunc. cbv zeta.
  destruct (_ && _); [|discriminate]. intros H. injection H as <-.
  reflexivity.
Qed.

(** The progress rectangle is never wider than the track. *)
Lemma valueWidth_bounded (progress : float64.t) (max n : Z) :
  0 <= max <= 2 ^ 53 ->
  let fm := float64.ofInt max in
  let x := float64.mul (float64.div progress float64.c100) fm in
  float64.trunc (if float64.gt x fm then fm else x) = Some n ->
  n <= max.
Proof.
  intros Hm fm x.
  assert (Hx : forall s m e, x = S754_finite s m e -> Zpos m < 2 ^ 53)
    by (intros s m e; apply mul_lt).
  clearbody x. unfold float64.gt, SFltb.
  assert (Z0 : forall s n, float64.trunc (S754_zero s) = Some n -> n = 0)
    by (intros s k H; cbn in H; injection H as <-; reflexivity).
  assert (Ng : forall m e n,
             float64.trunc (S754_finite true m e) = Some n -> n <= 0).
  { intros m e k H. apply trunc_finite in H.
    pose proof (intPart_nonneg m e). lia. }
  destruct (Z.eq_dec max 0) as [M|M].
  - assert (E : fm = S754_zero false) by (subst fm; rewrite M; reflexivity).
    rewrite E. clear Hx.
    destruct x as [s|s| |s m e]; cbn [SFcompare].
    + intros H. apply Z0 in H. lia.
    + destruct s; cbv iota beta; [discriminate|].
      intros H. apply Z0 in H. lia.
    + discriminate.
    + destruct s; cbv iota beta.
      * intros H. apply Ng in H. lia.
      * intros H. apply Z0 in H. lia.
  - destruct (ofInt_pos max) as (mz & ez & E & [Bz Hz] & _ & T); [lia|].
    fold fm in E. rewrite E in *. clear E fm.
    pose proof (trunc_finite _ _ _ _ T) as Emax. cbv iota in Emax.
    destruct x as [s|s| |s m e]; cbn [SFcompare].
    + intros H. apply Z0 in H. lia.
    + destruct s; cbv iota beta; [discriminate|]. rewrite T. intros H.
      injection H as <-. lia.
    + discriminate.
    + destruct s; cbv iota beta.
      * intros H. apply Ng in H. lia.
      * specialize (Hx false m e eq_refl).
        destruct (Z.compare_spec ez e) as [C|C|C].
        -- subst e.
           change (Pos.compare_cont Eq mz m) with (mz ?= m)%positive.
           destruct (Pos.compare_spec mz m) as [P|P|P].
           ++ subst m. rewrite T. intros H. injection H as <-. lia.
           ++ rewrite T. intros H. injection H as <-. lia.
           ++ intros H. apply trunc_finite in H. cbv iota in H.
              pose proof (intPart_mono_m m mz ez ltac:(lia)). lia.
        -- rewrite T. intros H. injection H as <-. lia.
        -- intros H. apply trunc_finite in H. cbv iota in H.
           pose proof (intPart_lt_e m mz e ez Hx (proj1 Bz) ltac:(lia)). lia.
Qed.

(** A progress of at least 100 fills the width: the width computed by
    [value] is [float64(max)], which converts back to [max]. *)
Lemma valueWidth_capped (progress : float64.t) (max : Z) :
  float64.valid progress ->
  float64.ge progress float64.c100 = true ->
  0 <= max <= 2 ^ 53 ->
  (progress = float64.posInf -> max <> 0) ->
  let fm := float64.ofInt max in
  let x := float64.mul (float64.div progress float64.c100) fm in
  (if float64.gt x fm then fm else x) = fm /\ float64.trunc fm = Some max.
Proof.
  intros V G Hm Hinf fm x.
  assert (Z0 : max = 0 -> fm = S754_zero false) by (intros ->; reflexivity).
  assert (ZP : 0 < max ->
               exists mz ez, fm = S754_finite false mz ez
                             /\ float64.normal53 mz ez
                             /\ float64.trunc fm = Some max).
  { intros Hp. destruct (ofInt_pos max) as (mz & ez & E & N & _ & T); [lia|].
    exists mz, ez. subst fm. rewrite E. auto. }
  unfold float64.ge in G.
  destruct progress as [s|s| |s mp ep].
  - rewrite c100_eq in G. destruct s; discriminate G.
  - rewrite c100_eq in G. destruct s; [discriminate G|].
    destruct (ZP ltac:(specialize (Hinf eq_refl); lia))
      as (mz & ez & E & _ & T).
    split; [|exact T]. subst x. rewrite E, c100_eq. reflexivity.
  - rewrite c100_eq in G. discriminate G.
  - destruct s; [rewrite c100_eq in G; discriminate G|].
    destruct (div_c100 mp ep V G) as (mq & eq & Eq & Nq).
    subst x. rewrite Eq.
    destruct (Z.eq_dec max 0) as [M|M].
    + rewrite (Z0 M). split; [reflexivity|]. rewrite M. reflexivity.
    + destruct (ZP ltac:(lia)) as (mz & ez & E & Nz & T).
      split; [|exact T]. rewrite E. apply (mul_capped mq mz eq ez Nq Nz).
Qed.

Section ProgressBarLayout.

Variable undef : float64.t -> Z.
Variable Fill : materialplus.Context -> color.RGBA -> Z -> Z
                -> materialplus.Context.
Variable ProgressBarGray : color.RGBA.
Variable Stacked : (materialplus.Context -> materialplus.Context)
                   -> materialplus.Context -> materialplus.Context.

(** C6, as the code has it.  [Layout] stacks one child, which draws the
    track and then the progress: two rounded rectangles of height
    [p.Height], the first of the maximum constraint width in
    [ProgressBarGray], the second in [p.ProgressColor] of width [int(v)],
    where [v] is [progress / 100 * float64(max)] computed in [float64],
    replaced by [float64(max)] when it is greater.  Where [int(v)] is
    defined it is the width, whatever the implementation, and for a
    maximum width from 0 to [2^53] it is at most that width.  For such a
    maximum width and a progress of at least 100 the width is the maximum
    width, but for an infinite progress and the width 0.  ([Fill],
    declared outside the sources, keeps the constraints.) *)
Theorem ProgressBar_Layout_rectangles (p : materialplus.ProgressBar)
        (gtx : materialplus.Context) (progress : float64.t) :
  (forall g c x y,
      materialplus.Constraints (Fill g c x y) = materialplus.Constraints g) ->
  Layout64 undef Fill ProgressBarGray Stacked p gtx progress
  = Stacked (fun g => value64 undef Fill p (track64 Fill ProgressBarGray p g)
                              progress) gtx
  /\ forall g : materialplus.Context,
      let max := materialplus.WidthMax g in
      let h := materialplus.Height p in
      let fm := float64.ofInt max in
      let x := float64.mul (float64.div progress float64.c100) fm in
      let v := if float64.gt x fm then fm else x in
      let w := float64.toInt undef v in
      let g1 :=
        Fill (materialplus.mkContext
                (materialplus.Constraints g)
                (materialplus.Ops g
                 ++ [materialplus.ClipRect max h (Z.quot h 5)])
                (materialplus.Dimensions g))
             ProgressBarGray max h in
      track64 Fill ProgressBarGray p g = g1
      /\ value64 undef Fill p g1 progress
         = Fill (materialplus.mkContext
                   (materialplus.Constraints g1)
                   (materialplus.Ops g1
                    ++ [materialplus.ClipRect w h (Z.quot h 5)])
                   (materialplus.Dimensions g1))
                (materialplus.ProgressColor p) w h
      /\ (forall n, float64.trunc v = Some n ->
                    w = n /\ (0 <= max <= 2 ^ 53 -> n <= max))
      /\ (float64.valid progress ->
          float64.ge progress float64.c100 = true ->
          0 <= max <= 2 ^ 53 ->
          (progress = float64.posInf -> max <> 0) ->
          w = max).
Proof.
  intros HF. split; [reflexivity|].
  intros g max h fm x v w g1.
  assert (Wg : materialplus.WidthMax g1 = max).
  { unfold materialplus.WidthMax, g1. rewrite HF. reflexivity. }
  split; [reflexivity|]. split; [|split].
  - unfold value64, materialplus.value, materialplus.borderedRectangle,
      materialplus.valueWidth.
    rewrite Wg. reflexivity.
  - intros n Hn. split.
    + unfold w, float64.toInt. rewrite Hn. reflexivity.
    + intros Hm. exact (valueWidth_bounded progress max n Hm Hn).
  - intros V G Hm Hinf.
    destruct (valueWidth_capped progress max V G Hm Hinf) as [E T].
    unfold w, v, x, fm, float64.toInt. rewrite E, T. reflexivity.
Qed.

End ProgressBarLayout.

(** C6 as stated fails.  For an infinite progress and the width 0 the
    product is NaN, whose conversion to [int] Go leaves open: where it is
    the least [int], as on amd64, the rectangle is not 0 wide.  29% of
    100 pixels are 28 pixels, since the quotient and the product are
    rounded, and not the 29 of the exact product.  Beyond [2^53] the
    width is rounded (150% of [2^53 + 1] pixels are [2^53] pixels), and a
    negative width is not a cap (150% of -10 pixels are -15 pixels). *)
Lemma ProgressBar_Layout_counterexample :
  (valueWidth64 (paint.frame 0) float64.posInf = S754_nan
   /\ float64.trunc (valueWidth64 (paint.frame 0) float64.posInf) = None
   /\ materialplus.Ops
        (Layout64 paint.minInt paint.Fill paint.gray paint.Stacked
                  paint.bar (paint.frame 0) float64.posInf)
      = [materialplus.ClipRect 0 10 2;
         materialplus.ColorOp paint.gray;
         materialplus.PaintOp 0 10;
         materialplus.ClipRect (- 2 ^ 63) 10 2;
         materialplus.ColorOp paint.green;
         materialplus.PaintOp (- 2 ^ 63) 10])
  /\ (float64.trunc (valueWidth64 (paint.frame 100) (float64.ofInt 29))
      = Some 28
      /\ Z.quot (29 * 100) 100 = 29
      /\ forall undef,
          materialplus.Ops
            (Layout64 undef paint.Fill paint.gray paint.Stacked
                      paint.bar (paint.frame 100) (float64.ofInt 29))
          = [materialplus.ClipRect 100 10 2;
             materialplus.ColorOp paint.gray;
             materialplus.PaintOp 100 10;
             materialplus.ClipRect 28 10 2;
             materialplus.ColorOp paint.green;
             materialplus.PaintOp 28 10])
  /\ float64.trunc (valueWidth64 (paint.frame (2 ^ 53 + 1))
                                 (float64.ofInt 150))
     = Some (2 ^ 53)
  /\ float64.trunc (valueWidth64 (paint.frame (- 10)) (float64.ofInt 150))
     = Some (- 15).
Proof.
  split; [split; [|split]|split; [split; [|split]|split]];
    vm_compute; reflexivity.
Qed.

(** 150% of 200 pixels: the progress rectangle is as wide as the track,
    200 pixels, also on the implementation [paint.minInt]; both are 10
    pixels high.  50% of 200 pixels are 100 pixels, within the track. *)
Lemma ProgressBar_Layout_rectangles_witness :
  float64.toInt paint.minInt
                (valueWidth64 (paint.frame 200) (float64.ofInt 150))
  = 200
  /\ materialplus.Ops
       (Layout64 paint.minInt paint.Fill paint.gray paint.Stacked
                 paint.bar (paint.frame 200) (float64.ofInt 150))
     = [materialplus.ClipRect 200 10 2;
        materialplus.ColorOp paint.gray;
        materialplus.PaintOp 200 10;
        materialplus.ClipRect 200 10 2;
        materialplus.ColorOp paint.green;
        materialplus.PaintOp 200 10]
  /\ float64.toInt paint.minInt
                   (valueWidth64 (paint.frame 200) (float64.ofInt 50))
     = 100
  /\ 100 <= 200.
Proof.
  destruct (ProgressBar_Layout_rectangles
              paint.minInt paint.Fill paint.gray paint.Stacked
              paint.bar (paint.frame 200) (float64.ofInt 150)
              (fun g c x y => eq_refl)) as [L R].
  destruct (R (paint.frame 200)) as (T & V & _ & C).
  assert (W : float64.toInt paint.minInt
                (valueWidth64 (paint.frame 200) (float64.ofInt 150)) = 200).
  { apply C.
    - reflexivity.
    - reflexivity.
    - change (2 ^ 53) with 9007199254740992.
      change (materialplus.WidthMax (paint.frame 200)) with 200. lia.
    - discriminate. }
  split; [exact W|]. split.
  - rewrite L. unfold paint.Stacked at 1. rewrite T, V.
    unfold valueWidth64, materialplus.valueWidth in W.
    change (materialplus.WidthMax (paint.frame 200)) with 200 in *.
    cbv zeta. rewrite W. reflexivity.
  - destruct (ProgressBar_Layout_rectangles
                paint.minInt paint.Fill paint.gray paint.Stacked
                paint.bar (paint.frame 200) (float64.ofInt 50)
                (fun g c x y => eq_refl)) as [_ R'].
    destruct (R' (paint.frame 200)) as (_ & _ & B & _).
    destruct (B 100) as [B1 B2]; [vm_compute; reflexivity|].
    split; [exact B1|].
    apply B2. change (2 ^ 53) with 9007199254740992.
    change (materialplus.WidthMax (paint.frame 200)) with 200. lia.
Defined.
